(** * tulip-control: the transition-system-to-GR(1) encoder and the LTL AST

    A shallow embedding of [tulip/synth.py] (variable-encoding helpers and
    the transition-system encoder) and of the rendering methods of
    [tulip/spec/ast.py], with the properties of the specification proved
    over it.

    Conventions.
    - Python values that reach [str()] are strings or integers; [pyval] is
      their sum, and the class [PyObj] gives [str] and the test [x == ''] to
      every type the helpers iterate over (duck typing).
    - Python dictionaries are [gmap]s; [d.values()] is [dict_values].
    - A formula is a [string], a formula list a [list string], as in the
      source.
    - [warn(msg)] and [raise] are the two effects of the encoder: a
      computation of type [M A] returns a [result A] and the warnings it
      issued, in order. *)

From stdpp Require Import base option list gmap strings pretty.
From Stdlib Require Import ZArith Ascii.

Local Open Scope Z_scope.

(** ** Python values *)

Inductive pyval : Type :=
| PStr (s : string)
| PInt (n : Z).

#[global] Instance pyval_eq_dec : EqDecision pyval.
Proof. solve_decision. Defined.

Definition pyval_to_sum (v : pyval) : string + Z :=
  match v with PStr s => inl s | PInt n => inr n end.

Definition pyval_of_sum (x : string + Z) : pyval :=
  match x with inl s => PStr s | inr n => PInt n end.

#[global] Instance pyval_countable : Countable pyval.
Proof.
  apply (inj_countable' pyval_to_sum pyval_of_sum).
  intros []; reflexivity.
Defined.

(** [str(x)] and [x == ''] for the values the helpers receive. *)
Class PyObj (A : Type) := {
  str : A → string;
  eq_empty : A → bool
}.

#[global] Instance string_pyobj : PyObj string := {|
  str s := s;
  eq_empty s := bool_decide (s = "")
|}.

#[global] Instance pyval_pyobj : PyObj pyval := {|
  str v := match v with PStr s => s | PInt n => pretty n end;
  eq_empty v := bool_decide (v = PStr "")
|}.

(** [sep.join(l)] *)
Definition join (sep : string) (l : list string) : string :=
  String.concat sep l.

(** ** Identity of string objects

    [x is 'lit'] compares objects, not characters.  A [str] object is
    modelled by its characters and by whether it is the interned object of
    these characters: CPython keeps one interned object for given
    characters, and its compiler interns a literal of the source when the
    literal is made of letters, digits and underscores only.  So
    [x is 'lit'] holds when [x] is interned, the literal is, and the
    characters agree; a literal with other characters is an object of the
    module's own, which no caller holds, and a string built at run time is
    not interned. *)
Record str_obj : Type := StrObj {
  chars : string;
  interned : bool
}.

Definition name_char (c : ascii) : bool :=
  let n := nat_of_ascii c in
  bool_decide (48 ≤ n ≤ 57)%nat || bool_decide (65 ≤ n ≤ 90)%nat
  || bool_decide (97 ≤ n ≤ 122)%nat || bool_decide (n = 95)%nat.

Definition all_name_chars (s : string) : bool :=
  forallb name_char (String.list_ascii_of_string s).

(** [x is 'lit'] for a literal [lit] of the source. *)
Definition is_literal (x : str_obj) (lit : string) : bool :=
  interned x && all_name_chars lit && bool_decide (chars x = lit).

(** ** Formula helpers (synth.py, lines 47-100) *)

Definition pstr {A} `{PyObj A} (s : A) : string := "(" +:+ str s +:+ ")".

Definition _disj {A} `{PyObj A} (set0 : list A) : string :=
  join " || " (map (λ x, "(" +:+ str x +:+ ")") set0).

Definition _conj {A} `{PyObj A} (set0 : list A) : string :=
  join " && " (map (λ x, "(" +:+ str x +:+ ")") set0).

Definition _conj_intersection {A} `{PyObj A, EqDecision A}
    (set0 set1 : list A) (parenth : bool) : string :=
  if parenth then
    join " && " (map (λ x, "(" +:+ str x +:+ ")")
                     (filter (λ x, x ∈ set1) set0))
  else
    join " && " (map (λ x, str x) (filter (λ x, x ∈ set1) set0)).

Definition _conj_neg {A} `{PyObj A} (set0 : list A) (parenth : bool)
  : string :=
  if parenth then
    join " && " (map (λ x, "!(" +:+ str x +:+ ")") set0)
  else
    join " && " (map (λ x, "!" +:+ str x) set0).

Definition _conj_neg_diff {A} `{PyObj A, EqDecision A}
    (set0 set1 : list A) (parenth : bool) : string :=
  if parenth then
    join " && " (map (λ x, "!(" +:+ str x +:+ ")")
                     (filter (λ x, x ∉ set1) set0))
  else
    join " && " (map (λ x, "!" +:+ str x) (filter (λ x, x ∉ set1) set0)).

(** [mutex] (lines 102-114).  [filter] drops the labels equal to ['']. *)
Definition mutex {A} `{PyObj A, EqDecision A} (iterable : list A)
  : list string :=
  let iterable := filter (λ x, eq_empty x = false) iterable in
  if decide (iterable = []) then []
  else if decide (length iterable ≤ 1)%nat then []
  else
    [ _conj (map (λ x, "!(" +:+ str x +:+ ") || ("
                        +:+ _conj_neg_diff iterable [x] true +:+ ")")
                 iterable) ].

(** [exactly_one] (lines 116-127). *)
Definition exactly_one {A} `{PyObj A, EqDecision A} (iterable : list A)
  : list string :=
  if decide (length iterable ≤ 1)%nat then map pstr iterable
  else
    [ "(" +:+ _disj (map (λ x, "(" +:+ str x +:+ ") && "
                               +:+ _conj_neg_diff iterable [x] true)
                         iterable) +:+ ")" ].

(** ** Effects: exceptions and warnings *)

Inductive exn : Type :=
| KeyError
| IndexError
| TypeError
| AttributeError
| AssertionError
| NetworkXError
| Exception (msg : string)
| LTLException (msg : string).

Inductive result (A : Type) : Type :=
| Ok (a : A)
| Raise (e : exn).
Arguments Ok {A} a.
Arguments Raise {A} e.

#[global] Instance result_ret : MRet result := λ A a, Ok a.
#[global] Instance result_bind : MBind result := λ A B f m,
  match m with Ok a => f a | Raise e => Raise e end.

(** A computation that may call [warn] and may raise: its outcome and the
    warnings issued, oldest first. *)
Definition M (A : Type) : Type := result A * list string.

#[global] Instance M_ret : MRet M := λ A a, (Ok a, []).
#[global] Instance M_bind : MBind M := λ A B f m,
  match m with
  | (Ok a, w) => let '(r, w') := f a in (r, w ++ w')
  | (Raise e, w) => (Raise e, w)
  end.

Definition warn (msg : string) : M unit := (Ok tt, [msg]).
Definition lift {A} (r : result A) : M A := (r, []).

(** [d[k]] on a dictionary. *)
Definition getitem {K V} `{Countable K} (d : gmap K V) (k : K) : result V :=
  match d !! k with Some v => Ok v | None => Raise KeyError end.

(** [l[0]] on a list. *)
Definition first {A} (l : list A) : result A :=
  match l with x :: _ => Ok x | [] => Raise IndexError end.

(** [d.values()] *)
Definition dict_values {K V} `{Countable K} (d : gmap K V) : list V :=
  (map_to_list d).*2.

(** [{x : f(x) for x in xs}] *)
Definition dict_comp {A K V} `{Countable K} (f : A → K * V) (xs : list A)
  : gmap K V :=
  list_to_map (f <$> xs).

(** [for x in xs: s = body(s, x)] *)
Fixpoint for_in {S A} (xs : list A) (body : S → A → M S) (s : S) : M S :=
  match xs with
  | [] => mret s
  | x :: xs' => s' ← body s x; for_in xs' body s'
  end.

(** ** Variable domains of a GR(1) specification

    ['boolean'], an integer range [(lo, hi)], or a list of values. *)
Inductive domain : Type :=
| Boolean
| Range (lo hi : Z)
| Enum (values : list pyval).

(** ** Encoding of states (lines 142-211) *)

Definition is_space (c : ascii) : bool :=
  bool_decide (c ∈ [" "; "009"; "010"; "011"; "012"; "013"]%char).

Definition is_digit (c : ascii) : bool :=
  bool_decide (c ∈ ["0"; "1"; "2"; "3"; "4"; "5"; "6"; "7"; "8"; "9"]%char).

Fixpoint strip_left (l : list ascii) : list ascii :=
  match l with
  | c :: l' => if is_space c then strip_left l' else l
  | [] => []
  end.

(** Whether the built-in [int(s)] accepts the string [s]: blanks around an
    optional sign and at least one decimal digit. *)
Definition int_parses (s : string) : bool :=
  let body := rev (strip_left (rev (strip_left (String.list_ascii_of_string s)))) in
  let digits :=
    match body with
    | c :: l' => if bool_decide (c = "+"%char ∨ c = "-"%char) then l' else body
    | [] => []
    end in
  bool_decide (digits ≠ []) && forallb is_digit digits.

(** [x[1:]] *)
Definition tail_str (x : string) : string :=
  match x with String _ r => r | EmptyString => "" end.

Definition states2ints (states : list string) (statevar : string)
  : gmap string string * domain :=
  let letter_int := forallb (λ state, int_parses (tail_str state)) states in
  if letter_int then
    let strip_letter x := statevar +:+ " = " +:+ tail_str x in
    let state_ids := dict_comp (λ x, (x, strip_letter x)) states in
    let n_states := Z.of_nat (length states) in
    (state_ids, Range 0 (n_states - 1))
  else
    let setloc s := statevar +:+ " = " +:+ s in
    let state_ids := dict_comp (λ s, (s, setloc s)) states in
    (state_ids, Enum (PStr <$> states)).

(** [create_states]: the dictionaries [variables] and the list [trans] are
    updated in place by the source; the updated values are returned here,
    after the map of state identifiers. *)
Definition create_states (states : list string)
    (variables : gmap pyval domain) (trans : list string)
    (statevar : string) (bool_states : bool)
  : gmap string string * gmap pyval domain * list string :=
  let bool_states :=
    if decide (length states < 3)%nat then true else bool_states in
  if bool_states then
    let state_ids := dict_comp (λ x, (x, x)) states in
    let variables := dict_comp (λ s, (PStr s, Boolean)) states ∪ variables in
    let trans := trans ++ exactly_one states in
    (state_ids, variables, trans)
  else
    let '(state_ids, domain) := states2ints states statevar in
    let variables := <[PStr statevar := domain]> variables in
    (state_ids, variables, trans).

(** ** Encoding of actions (lines 213-326) *)

(** [isinstance(action, int)] *)
Definition is_int (v : pyval) : bool :=
  match v with PInt _ => true | PStr _ => false end.

(** [setact = lambda s: actionvar + ' = ' + s]; adding an [int] to a [str]
    is a [TypeError]. *)
Definition setact (actionvar : string) (s : pyval) : result pyval :=
  match s with
  | PStr s => Ok (PStr (actionvar +:+ " = " +:+ s))
  | PInt _ => Raise TypeError
  end.

Definition actions2ints (actions : list pyval) (actionvar : string)
    (min_one : bool) : result (gmap pyval pyval * domain) :=
  let int_actions := forallb is_int actions in
  if int_actions then
    let action_ids := dict_comp (λ x, (x, x)) actions in
    let n_actions := Z.of_nat (length actions) in
    (* extra value modeling all False ? *)
    let n := if min_one then n_actions - 1 else n_actions in
    Ok (action_ids, Range 0 n)
  else
    pairs ← mapM (λ s, v ← setact actionvar s; Ok (s, v)) actions;
    let action_ids : gmap pyval pyval := list_to_map pairs in
    let domain := actions in
    let domain :=
      if negb min_one then domain ++ [PStr (actionvar +:+ "none")]
      else domain in
    Ok (action_ids, Enum domain).

(** [create_actions]: [actions_must] is [None], ['mutex'], ['xor'] or any
    other string; the function returns [None] for an empty action set.  The
    result carries the returned identifiers and the updated [variables],
    [trans] and [init]. *)
Definition create_actions (actions : list pyval)
    (variables : gmap pyval domain) (trans init : list string)
    (actionvar : string) (bool_actions : bool) (actions_must : option string)
  : result (option (gmap pyval pyval) * gmap pyval domain
            * list string * list string) :=
  if decide (actions = []) then Ok (None, variables, trans, init)
  else
    (* options for modeling actions *)
    opts ← match actions_must with
           | None => Ok (false, false)
           | Some am =>
               if decide (am = "mutex") then Ok (true, false)
               else if decide (am = "xor") then Ok (true, true)
               else Raise (Exception ("Unknown value: actions_must = " +:+ am))
           end;
    let '(use_mutex, min_one) := opts in
    (* no mutex -> cannot use int variable *)
    let bool_actions := if negb use_mutex then true else bool_actions in
    if bool_actions then
      let action_ids : gmap pyval pyval := dict_comp (λ x, (x, x)) actions in
      let variables := dict_comp (λ a, (a, Boolean)) actions ∪ variables in
      (* single action ? *)
      if decide (mutex (dict_values action_ids) = []) then
        Ok (Some action_ids, variables, trans, init)
      else if use_mutex && negb min_one then
        m ← first (mutex (dict_values action_ids));
        let trans := trans ++ ["X (" +:+ m +:+ ")"] in
        let init := init ++ mutex (dict_values action_ids) in
        Ok (Some action_ids, variables, trans, init)
      else if use_mutex && min_one then
        m ← first (exactly_one (dict_values action_ids));
        let trans := trans ++ ["X (" +:+ m +:+ ")"] in
        let init := init ++ exactly_one (dict_values action_ids) in
        Ok (Some action_ids, variables, trans, init)
      else if min_one then Raise (Exception "min_one requires mutex")
      else Ok (Some action_ids, variables, trans, init)
    else
      if use_mutex then
        '(action_ids, domain) ← actions2ints actions actionvar min_one;
        let variables := <[PStr actionvar := domain]> variables in
        Ok (Some action_ids, variables, trans, init)
      else Raise AssertionError.

(** ** The transition system handed to the encoder *)

(** Modelled from the spec: the label dictionary of a state or of a
    transition ([tulip.transys] is not part of the sources).  The encoder
    reads the key ['ap'], a set of atomic propositions, and the keys
    ['env_actions'], ['sys_actions'] and ['actions'], one action each. *)
Record label : Type := Label {
  lab_ap : option (list string);
  lab_attr : gmap string pyval
}.

(** Modelled from the spec: the state container of a transition system
    ([tulip.transys] is not part of the sources): the states and the
    initial states in the order iteration visits them, and [label_of]. *)
Record States : Type := MkStates {
  st_states : list string;
  st_initial : list string;
  st_label_of : string → label
}.

(** Modelled from the spec: the labeled transition relation
    ([tulip.transys] is not part of the sources), a collection of
    [(from_state, to_state, label)]; [find(from_states)] returns the
    transitions that leave one of [from_states]. *)
Definition Transitions : Type := list (string * string * label).

Definition find (trans : Transitions) (from_states : list string)
  : list (string * string * label) :=
  filter (λ t, t.1.1 ∈ from_states) trans.

(** ** The encoder (lines 129-140 and 576-792) *)

(** [_conj_action]: [ids] is [None] or a dictionary.  The test
    [action is ''] compares with the interned empty string. *)
Definition _conj_action (label : label) (action_type : string) (nxt : bool)
    (ids : option (gmap pyval pyval)) : result string :=
  match lab_attr label !! action_type with
  | None => Ok ""
  | Some action =>
      action ← match ids with
               | Some ids => getitem ids action
               | None => Ok action
               end;
      if eq_empty action then Ok ""
      else if nxt then Ok (" && X" +:+ pstr action)
      else Ok (" && " +:+ pstr action)
  end.

Definition sprint_aps (label : label) (aps : list string) : string :=
  let tmp0 :=
    match lab_ap label with
    | Some ap => _conj_intersection aps ap false
    | None => ""
    end in
  let tmp1 :=
    match lab_ap label with
    | Some ap => _conj_neg_diff aps ap false
    | None => _conj_neg aps false
    end in
  if bool_decide (0 < String.length tmp0)%nat
     && bool_decide (0 < String.length tmp1)%nat
  then tmp0 +:+ " && " +:+ tmp1
  else tmp0 +:+ tmp1.

Definition nl : string := String "010" "".

Definition no_initial_msg : string :=
  "FTS has no initial states." +:+ nl +:+
  "Enforcing this renders False the GR(1):" +:+ nl +:+
  " - guarantee if this is a system TS," +:+ nl +:+
  "   so the spec becomes trivially False." +:+ nl +:+
  " - assumption if this is an environment TS," +:+ nl +:+
  "   so the spec becomes trivially True.".

Definition sys_init_from_ts (states : States)
    (state_ids : gmap string string) (aps : list string)
    (ignore_initial : bool) : M (list string) :=
  (* don't ignore labeling info *)
  init ← for_in (st_initial states) (λ init state,
    state_id ← lift (getitem state_ids state);
    let label := st_label_of states state in
    let ap_str := sprint_aps label aps in
    if decide (ap_str = "") then mret init
    else mret (init ++ ["!(" +:+ pstr state_id +:+ ") || (" +:+ ap_str +:+ ")"])
  ) [];
  (* skip ? *)
  if ignore_initial then mret init
  else if decide (st_initial states = []) then
    _ ← warn no_initial_msg;
    mret (init ++ ["False"])
  else
    ids ← lift (mapM (getitem state_ids) (st_initial states));
    mret (init ++ [_disj ids]).

Definition sys_trans_from_ts (states : list string)
    (state_ids : gmap string string) (trans : Transitions)
    (action_ids sys_action_ids env_action_ids : option (gmap pyval pyval))
  : M (list string) :=
  (* Transitions *)
  for_in states (λ sys_trans from_state,
    from_state_id ← lift (getitem state_ids from_state);
    let precond := pstr from_state_id in
    let cur_trans := find trans [from_state] in
    (* no successor states ? *)
    if decide (cur_trans = []) then
      mret (sys_trans ++ [precond +:+ " -> X(False)"])
    else
      cur_str ← for_in cur_trans (λ cur_str '(_, to_state, label),
        to_state_id ← lift (getitem state_ids to_state);
        let postcond := pstr to_state_id in
        a ← lift (_conj_action label "env_actions" false env_action_ids);
        let postcond := postcond +:+ a in
        a ← lift (_conj_action label "sys_actions" false sys_action_ids);
        let postcond := postcond +:+ a in
        (* system FTS given *)
        a ← lift (_conj_action label "actions" false action_ids);
        let postcond := postcond +:+ a in
        mret (cur_str ++ [postcond])
      ) [];
      mret (sys_trans ++ [precond +:+ " -> X(" +:+ _disj cur_str +:+ ")"])
  ) [].

Definition dead_end_msg : string :=
  "Environment dead-end found." +:+ nl +:+
  "If sys can force env to dead-end," +:+ nl +:+
  "then GR(1) assumption becomes False," +:+ nl +:+
  "and spec trivially True.".

(** [if d:] on a value that is [None] or a dictionary. *)
Definition truthy (d : option (gmap pyval pyval)) : bool :=
  match d with
  | Some d => bool_decide (d ≠ ∅)
  | None => false
  end.

(** [d.values()] in [_conj_neg(sys_action_ids.values())], reached only when
    [sys_action_ids] is a non-empty dictionary. *)
Definition values_of (d : option (gmap pyval pyval)) : result (list pyval) :=
  match d with
  | Some d => Ok (dict_values d)
  | None => Raise AttributeError
  end.

Definition env_trans_from_env_ts (states : list string)
    (state_ids : gmap string string) (trans : Transitions)
    (action_ids env_action_ids sys_action_ids : option (gmap pyval pyval))
  : M (list string) :=
  for_in states (λ env_trans from_state,
    from_state_id ← lift (getitem state_ids from_state);
    let precond := pstr from_state_id in
    let cur_trans := find trans [from_state] in
    (* no successor states ? *)
    if decide (cur_trans = []) then
      let env_trans := env_trans ++ [precond +:+ " -> X(False)"] in
      _ ← warn dead_end_msg;
      mret env_trans
    else
      (* found_free: any environment transition
         not conditioned on the previous system output ? *)
      '(cur_list, found_free) ←
        for_in cur_trans (λ '(cur_list, found_free) '(_, to_state, label),
          to_state_id ← lift (getitem state_ids to_state);
          let postcond := "X" +:+ pstr to_state_id in
          a ← lift (_conj_action label "env_actions" true env_action_ids);
          let postcond := postcond +:+ a in
          (* environment FTS given *)
          a ← lift (_conj_action label "actions" true action_ids);
          let postcond := postcond +:+ a in
          a ← lift (_conj_action label "sys_actions" false sys_action_ids);
          let postcond := postcond +:+ a in
          a ← lift (_conj_action label "sys_actions" false sys_action_ids);
          let found_free := if decide (a = "") then true else found_free in
          mret (cur_list ++ [pstr postcond], found_free)
        ) ([], false);
      (* can sys kill env by setting all previous sys outputs to False ?
         then env assumption becomes False,
         so the spec trivially True: avoid this *)
      cur_list ←
        (if negb found_free && truthy sys_action_ids then
           vals ← lift (values_of sys_action_ids);
           mret (cur_list ++ [_conj_neg vals true])
         else mret cur_list);
      mret (env_trans ++ [pstr precond +:+ " -> (" +:+ _disj cur_list +:+ ")"])
  ) [].

(** * The LTL abstract syntax tree (tulip/spec/ast.py) *)

Module ast.

Definition dict_of (l : list (string * string)) : gmap string string :=
  list_to_map l.

Definition TEMPORAL_OP_MAP : gmap string string := dict_of [
  ("G", "G"); ("F", "F"); ("X", "X");
  ("[]", "G"); ("<>", "F"); ("next", "X");
  ("U", "U"); ("V", "R"); ("R", "R");
  ("'", "X"); ("FALSE", "False"); ("TRUE", "True") ].

Definition JTLV_MAP : gmap string string := dict_of [
  ("G", "[]"); ("F", "<>"); ("X", "next");
  ("U", "U"); ("||", "||"); ("&&", "&&");
  ("False", "FALSE"); ("True", "TRUE") ].

Definition GR1C_MAP : gmap string string := dict_of [
  ("G", "[]"); ("F", "<>"); ("X", "'"); ("||", "|"); ("&&", "&");
  ("False", "False"); ("True", "True") ].

Definition SMV_MAP : gmap string string := dict_of [
  ("G", "G"); ("F", "F"); ("X", "X"); ("U", "U"); ("R", "V") ].

Definition SPIN_MAP : gmap string string := dict_of [
  ("G", "[]"); ("F", "<>"); ("U", "U"); ("R", "V") ].

Definition PYTHON_MAP : gmap string string := dict_of [
  ("&&", "and"); ("||", "or"); ("!", "not"); ("xor", "^") ].

(** The classes of the module that are instantiated. *)
Inductive cls : Type :=
| Num | Var | Const | Bool
| Not | UnTempOp
| And | Or | Xor | Imp | BiImp | BiTempOp | Comparator | Arithmetic.

#[global] Instance cls_eq_dec : EqDecision cls.
Proof. solve_decision. Defined.

Definition is_unary (c : cls) : bool :=
  match c with Not | UnTempOp => true | _ => false end.

Definition is_binary (c : cls) : bool :=
  match c with
  | And | Or | Xor | Imp | BiImp | BiTempOp | Comparator | Arithmetic => true
  | _ => false
  end.

(** The attribute [val] of a leaf. *)
Inductive value : Type :=
| VInt (n : Z)
| VStr (s : string)
| VBool (b : bool).

(** An object of the module: its identity [id(self)], its class and the
    attributes [operator] and [val], when set.  The attribute [graph] is the
    graph the methods below receive. *)
Record node : Type := Node {
  id : Z;
  class : cls;
  operator : option string;
  val : option value
}.

(** The [networkx.DiGraph] shared by the nodes of a formula.  Its keys are
    the identities of the nodes: [node_attr] holds the attribute [ast_node]
    of a key, [succ] the successors of a key with the attribute [pos] of the
    edge, in the order they were added. *)
Record DiGraph : Type := Graph {
  node_attr : gmap Z (option node);
  succ : gmap Z (list (Z * option string))
}.

Definition empty_graph : DiGraph := Graph ∅ ∅.

Definition touch (u : Z) (g : DiGraph) : DiGraph :=
  match succ g !! u with
  | Some _ => g
  | None => Graph (<[u := None]> (node_attr g)) (<[u := []]> (succ g))
  end.

(** [graph.add_node(u, ast_node=n)] *)
Definition add_node (u : Z) (n : node) (g : DiGraph) : DiGraph :=
  let g := touch u g in
  Graph (<[u := Some n]> (node_attr g)) (succ g).

Fixpoint set_edge (v : Z) (pos : option string)
    (adj : list (Z * option string)) : list (Z * option string) :=
  match adj with
  | [] => [(v, pos)]
  | (w, d) :: adj' =>
      if decide (w = v) then (w, from_option Some d pos) :: adj'
      else (w, d) :: set_edge v pos adj'
  end.

(** [graph.add_edge(u, v)] and [graph.add_edge(u, v, pos=...)] *)
Definition add_edge (u v : Z) (pos : option string) (g : DiGraph)
  : DiGraph :=
  let g := touch v (touch u g) in
  Graph (node_attr g) (alter (set_edge v pos) u (succ g)).

(** What [operand], [op_l] and [op_r] return: a key of the graph, or [None]. *)
Definition handle : Type := option Z.

#[global] Instance handle_pyobj : PyObj handle := {|
  str h := match h with Some v => pretty v | None => "None" end;
  eq_empty h := false
|}.

(** *** Constructors *)

(** [Node.__init__] *)
Definition Node_init (self : node) (graph : DiGraph) : DiGraph :=
  add_node (id self) self graph.

(** [Num(t, g)], with [n] the value of [int(t)]; [u] is [id(self)], here
    and below. *)
Definition new_Num (n : Z) (u : Z) (g : DiGraph) : node * DiGraph :=
  let self := Node u Num None (Some (VInt n)) in (self, Node_init self g).

Definition new_Var (t : string) (u : Z) (g : DiGraph) : node * DiGraph :=
  let self := Node u Var None (Some (VStr t)) in (self, Node_init self g).

Definition dquote : string := String "034" "".

Definition new_Const (t : string) (u : Z) (g : DiGraph) : node * DiGraph :=
  let self := Node u Const None (Some (VStr (dquote +:+ t +:+ dquote))) in
  (self, Node_init self g).

(** [t.upper()] *)
Definition upper_char (c : ascii) : ascii :=
  let n := nat_of_ascii c in
  if bool_decide (97 ≤ n ≤ 122)%nat then ascii_of_nat (n - 32) else c.

Fixpoint upper (s : string) : string :=
  match s with
  | EmptyString => EmptyString
  | String c r => String (upper_char c) (upper r)
  end.

Definition new_Bool (t : string) (u : Z) (g : DiGraph) : node * DiGraph :=
  let self :=
    Node u Bool None (Some (VBool (bool_decide (upper t = "TRUE")))) in
  (self, Node_init self g).

(** [Unary.__init__(self, operator, x, g)] *)
Definition Unary_init (c : cls) (operator : string) (x : node) (u : Z)
    (g : DiGraph) : node * DiGraph :=
  let self := Node u c (Some operator) None in
  (self, add_edge u (id x) None (Node_init self g)).

Definition new_Not (operator : string) (x : node) (u : Z) (g : DiGraph)
  : node * DiGraph :=
  Unary_init Not operator x u g.

Definition new_UnTempOp (operator : string) (x : node) (u : Z) (g : DiGraph)
  : result (node * DiGraph) :=
  operator ← getitem TEMPORAL_OP_MAP operator;
  Ok (Unary_init UnTempOp operator x u g).

(** [Binary.__init__(self, operator, x, y, g)] *)
Definition Binary_init (c : cls) (operator : string) (x y : node) (u : Z)
    (g : DiGraph) : node * DiGraph :=
  let self := Node u c (Some operator) None in
  (self, add_edge u (id y) (Some "right")
           (add_edge u (id x) (Some "left") (Node_init self g))).

Definition new_BiTempOp (operator : string) (x y : node) (u : Z)
    (g : DiGraph) : result (node * DiGraph) :=
  operator ← getitem TEMPORAL_OP_MAP operator;
  Ok (Binary_init BiTempOp operator x y u g).

(** [Comparator(operator, x, y, g)].  The test [self.operator is '==']
    compares identities: the literal is not made of name characters, so a
    ['=='] handed in by a caller is another object and is kept. *)
Definition new_Comparator (operator : str_obj) (x y : node) (u : Z)
    (g : DiGraph) : node * DiGraph :=
  let operator :=
    if is_literal operator "==" then "=" else chars operator in
  Binary_init Comparator operator x y u g.

(** *** Attributes and children *)

(** [try: ... except AttributeError: ...] and [try: ... except KeyError: ...] *)
Definition except_AttributeError {A} (body handler : result A) : result A :=
  match body with Raise AttributeError => handler | _ => body end.

Definition except_KeyError {A} (body handler : result A) : result A :=
  match body with Raise KeyError => handler | _ => body end.

(** [self.operator] *)
Definition get_operator (self : node) : result string :=
  match operator self with Some o => Ok o | None => Raise AttributeError end.

(** The property [op] of the operator classes. *)
Definition op (self : node) : result string :=
  match class self with
  | Not => Ok "!"
  | And => Ok "&"
  | Or => Ok "|"
  | Xor => Ok "xor"
  | Imp => Ok "->"
  | BiImp => Ok "<->"
  | UnTempOp | BiTempOp | Comparator | Arithmetic => get_operator self
  | Num | Var | Const | Bool => Raise AttributeError
  end.

(** [str(self)], that is [__repr__], of a leaf. *)
Definition repr (self : node) : result string :=
  match class self, val self with
  | Num, Some (VInt n) => Ok (pretty n)
  | Var, Some (VStr s) | Const, Some (VStr s) => Ok s
  | Bool, Some (VBool b) => Ok (if b then "True" else "False")
  | _, _ => Raise AttributeError
  end.

(** The property [Unary.operand]: [set(self.graph.succ[u]).pop()] is a key
    of the graph, the identity of the child, and not the child.  With
    several successors Python pops an arbitrary one; the first is taken. *)
Definition operand (g : DiGraph) (self : node) : result handle :=
  adj ← getitem (succ g) (id self);
  match adj with
  | (v, _) :: _ => Ok (Some v)
  | [] => Raise KeyError
  end.

Fixpoint scan_pos (pos : string) (adj : list (Z * option string))
  : result handle :=
  match adj with
  | [] => Ok None
  | (v, d) :: adj' =>
      match d with
      | None => Raise KeyError
      | Some p => if decide (p = pos) then Ok (Some v) else scan_pos pos adj'
      end
  end.

(** [Binary._child(pos)]: the key [v] of the first edge tagged [pos], else
    [None]. *)
Definition _child (g : DiGraph) (self : node) (pos : string)
  : result handle :=
  match succ g !! id self with
  | None => Raise NetworkXError
  | Some adj => scan_pos pos adj
  end.

Definition op_l (g : DiGraph) (self : node) : result handle :=
  _child g self "left".

Definition op_r (g : DiGraph) (self : node) : result handle :=
  _child g self "right".

(** *** Flatteners (lines 146-160)

    [_flatten_gr1c(node)] is [node.to_gr1c()], and likewise
    for the other dialects.  The argument is what [operand], [op_l] or
    [op_r] returned, a [handle]: an [int] or [None], which has no such
    method, so the attribute lookup raises [AttributeError]. *)
Definition _flatten_gr1c (node : handle) (primed : option bool)
  : result string := Raise AttributeError.
Definition _flatten_JTLV (node : handle) : result string :=
  Raise AttributeError.
Definition _flatten_SMV (node : handle) : result string :=
  Raise AttributeError.
Definition _flatten_Promela (node : handle) : result string :=
  Raise AttributeError.
Definition _flatten_python (node : handle) : result string :=
  Raise AttributeError.

(** The default flattener, the built-in [str]. *)
Definition py_str (node : handle) : result string := Ok (str node).

(** [Unary.flatten] (lines 307-314) *)
Definition Unary_flatten (g : DiGraph) (self : node)
    (flattener : handle → result string) (op_arg : option string)
  : result string :=
  op ← match op_arg with Some o => Ok o | None => op self end;
  o ← except_AttributeError
        (x ← operand g self; flattener x)
        (x ← operand g self; Ok (str x));
  Ok (join " " ["("; op; o; ")"]).

(** [Binary.flatten] (lines 408-420) *)
Definition Binary_flatten (g : DiGraph) (self : node)
    (flattener : handle → result string) (op_arg : option string)
  : result string :=
  op ← match op_arg with Some o => Ok o | None => op self end;
  l ← except_AttributeError
        (x ← op_l g self; flattener x)
        (x ← op_l g self; Ok (str x));
  r ← except_AttributeError
        (x ← op_r g self; flattener x)
        (x ← op_r g self; Ok (str x));
  Ok (join " " ["("; l; op; r; ")"]).

(** [self.flatten(flattener, op)], resolved by the class of [self]. *)
Definition flatten (g : DiGraph) (self : node)
    (flattener : handle → result string) (op_arg : option string)
  : result string :=
  match class self with
  | Num | Var | Const | Bool => repr self
  | Not | UnTempOp => Unary_flatten g self flattener op_arg
  | And | Or | Xor | Imp | BiImp | BiTempOp | Comparator | Arithmetic =>
      Binary_flatten g self flattener op_arg
  end.

(** The message of the [LTLException] of a missing operator. *)
Definition unsupported (o syntax : string) : exn :=
  LTLException ("Operator " +:+ o +:+ " not supported in " +:+ syntax
                +:+ " syntax map").

(** *** [to_gr1c] *)
Definition to_gr1c (g : DiGraph) (self : node) (primed : bool)
  : result string :=
  match class self with
  | Var | Const =>
      s ← repr self; if primed then Ok (s +:+ "'") else Ok s
  | Bool =>
      except_KeyError (s ← repr self; getitem GR1C_MAP s)
        (o ← op self;
         Raise (LTLException ("Reserved word " +:+ dquote +:+ o +:+ dquote
                              +:+ " not supported in gr1c syntax map")))
  | UnTempOp =>
      o ← op self;
      if decide (o = "X") then
        flatten g self (λ x, _flatten_gr1c x (Some true)) (Some "")
      else
        except_KeyError
          (tok ← getitem GR1C_MAP o;
           flatten g self (λ x, _flatten_gr1c x (Some primed)) (Some tok))
          (o ← op self; Raise (unsupported o "gr1c"))
  | BiTempOp =>
      except_KeyError
        (o ← op self;
         tok ← getitem GR1C_MAP o;
         flatten g self (λ x, _flatten_gr1c x None) (Some tok))
        (o ← op self; Raise (unsupported o "gr1c"))
  | Num | Not | And | Or | Xor | Imp | BiImp | Comparator | Arithmetic =>
      flatten g self (λ x, _flatten_gr1c x (Some primed)) None
  end.

(** *** [to_jtlv] *)
Definition to_jtlv (g : DiGraph) (self : node) : result string :=
  match class self with
  | Var | Const => s ← repr self; Ok ("(" +:+ s +:+ ")")
  | Bool =>
      except_KeyError (s ← repr self; getitem JTLV_MAP s)
        (o ← op self;
         Raise (LTLException ("Reserved word " +:+ dquote +:+ o +:+ dquote
                              +:+ " not supported in JTLV syntax map")))
  | UnTempOp | BiTempOp =>
      except_KeyError
        (o ← op self;
         tok ← getitem JTLV_MAP o;
         flatten g self _flatten_JTLV (Some tok))
        (o ← op self; Raise (unsupported o "JTLV"))
  | And => flatten g self _flatten_JTLV (Some "&&")
  | Or => flatten g self _flatten_JTLV (Some "||")
  | Num | Not | Xor | Imp | BiImp | Comparator | Arithmetic =>
      flatten g self _flatten_JTLV None
  end.

(** *** [to_smv] *)
Definition to_smv (g : DiGraph) (self : node) : result string :=
  match class self with
  | Var | Const => repr self
  | UnTempOp | BiTempOp =>
      o ← op self;
      tok ← getitem SMV_MAP o;
      flatten g self _flatten_SMV (Some tok)
  | Num | Bool | Not | And | Or | Xor | Imp | BiImp | Comparator
  | Arithmetic =>
      flatten g self _flatten_SMV None
  end.

(** *** [to_promela] *)
Definition to_promela (g : DiGraph) (self : node) : result string :=
  match class self with
  | UnTempOp | BiTempOp =>
      except_KeyError
        (o ← op self;
         tok ← getitem SPIN_MAP o;
         flatten g self _flatten_Promela (Some tok))
        (o ← op self; Raise (unsupported o "Promela"))
  | And => flatten g self _flatten_Promela (Some "&&")
  | Or => flatten g self _flatten_Promela (Some "||")
  | Comparator =>
      o ← get_operator self;
      if decide (o = "=") then flatten g self _flatten_Promela (Some "==")
      else flatten g self _flatten_Promela None
  | Num | Var | Const | Bool | Not | Xor | Imp | BiImp | Arithmetic =>
      flatten g self _flatten_Promela None
  end.

(** *** [to_python] *)
Definition to_python (g : DiGraph) (self : node) : result string :=
  match class self with
  | Not => getitem PYTHON_MAP "!"
  | And => flatten g self _flatten_python (Some "and")
  | Or => flatten g self _flatten_python (Some "or")
  | Xor => flatten g self _flatten_python (Some "^")
  | Imp =>
      l ← except_AttributeError
            (x ← op_l g self; py_str x) (x ← op_l g self; Ok (str x));
      r ← except_AttributeError
            (x ← op_r g self; py_str x) (x ← op_r g self; Ok (str x));
      Ok ("( (not (" +:+ l +:+ ")) or " +:+ r +:+ ")")
  | BiImp =>
      l ← except_AttributeError
            (x ← op_l g self; py_str x) (x ← op_l g self; Ok (str x));
      r ← except_AttributeError
            (x ← op_r g self; py_str x) (x ← op_r g self; Ok (str x));
      Ok ("( " +:+ l +:+ " and " +:+ r +:+ " ) or not ( " +:+ l +:+ " or "
          +:+ r +:+ " )")
  | Comparator =>
      o ← get_operator self;
      if decide (o = "=") then flatten g self _flatten_Promela (Some "==")
      else flatten g self _flatten_Promela None
  | Num | Var | Const | Bool | UnTempOp | BiTempOp | Arithmetic =>
      flatten g self _flatten_python None
  end.

(** The five target syntaxes. *)
Inductive dialect : Type :=
| Gr1c (primed : bool)
| Jtlv
| Smv
| Promela
| Python.

Definition render (d : dialect) (g : DiGraph) (self : node)
  : result string :=
  match d with
  | Gr1c primed => to_gr1c g self primed
  | Jtlv => to_jtlv g self
  | Smv => to_smv g self
  | Promela => to_promela g self
  | Python => to_python g self
  end.

(** *** Variables of a formula *)

(** [d['ast_node']] on the attributes of a graph node. *)
Definition ast_node (d : option node) : result node :=
  match d with Some n => Ok n | None => Raise KeyError end.

(** [get_vars(tree)] (lines 138-144): the nodes of class [Var] among the
    attributes [ast_node] of the graph.  The result is a set; the list holds
    its elements. *)
Definition get_vars (tree : DiGraph) : result (list node) :=
  ns ← mapM (λ ud, ast_node ud.2) (map_to_list (node_attr tree));
  Ok (filter (λ n, class n = Var) ns).

End ast.

(** * Propositional reading of the generated constraints

    The constraints [mutex] and [exactly_one] build are propositional
    formulas over the labels, in the operators [!], [&&] and [||] of the
    GR(1) syntax.  [form] is their syntax tree, [text] writes a tree as the
    source writes it, and [holds] evaluates it under a valuation of the
    labels' texts; an empty conjunction holds and an empty disjunction does
    not. *)

#[warnings="-register-all"]
Inductive form : Type :=
| Atom (a : string)
| Paren (f : form)
| Neg (f : form)
| BinAnd (f g : form)
| BinOr (f g : form)
| Conj (fs : list form)
| Disj (fs : list form).

Fixpoint text (f : form) : string :=
  match f with
  | Atom a => a
  | Paren f => "(" +:+ text f +:+ ")"
  | Neg f => "!" +:+ text f
  | BinAnd f g => text f +:+ " && " +:+ text g
  | BinOr f g => text f +:+ " || " +:+ text g
  | Conj fs => join " && " (map text fs)
  | Disj fs => join " || " (map text fs)
  end.

Fixpoint holds (v : string → bool) (f : form) : bool :=
  match f with
  | Atom a => v a
  | Paren f => holds v f
  | Neg f => negb (holds v f)
  | BinAnd f g => holds v f && holds v g
  | BinOr f g => holds v f || holds v g
  | Conj fs => forallb (holds v) fs
  | Disj fs => existsb (holds v) fs
  end.

(** A valuation satisfies a formula list when it satisfies every formula of
    it (the formulas of a list are conjoined). *)
Definition models (v : string → bool) (fs : list form) : Prop :=
  Forall (λ f, holds v f = true) fs.

(** The tree of [_conj_neg_diff(set0, set1)]. *)
Definition conj_neg_diff_tree {A} `{PyObj A, EqDecision A}
    (set0 set1 : list A) : form :=
  Conj (map (λ x, Neg (Paren (Atom (str x)))) (filter (λ x, x ∉ set1) set0)).

(** The trees of the formulas [mutex(iterable)] returns: for every label
    [x], [!(x) || (] the other labels negated [)]. *)
Definition mutex_tree {A} `{PyObj A, EqDecision A} (iterable : list A)
  : list form :=
  let iterable := filter (λ x, eq_empty x = false) iterable in
  if decide (length iterable ≤ 1)%nat then []
  else
    [ Conj (map (λ x, Paren (BinOr (Neg (Paren (Atom (str x))))
                                   (Paren (conj_neg_diff_tree iterable [x]))))
                iterable) ].

(** The trees of the formulas [exactly_one(iterable)] returns: some label
    holds and the other labels do not. *)
Definition exactly_one_tree {A} `{PyObj A, EqDecision A} (iterable : list A)
  : list form :=
  if decide (length iterable ≤ 1)%nat then
    map (λ x, Paren (Atom (str x))) iterable
  else
    [ Paren (Disj (map (λ x, Paren (BinAnd (Paren (Atom (str x)))
                                          (conj_neg_diff_tree iterable [x])))
                       iterable)) ].

(** The tree of [_conj_neg(set0)]: every label is negated. *)
Definition conj_neg_tree {A} `{PyObj A} (set0 : list A) : form :=
  Conj (map (λ x, Neg (Paren (Atom (str x)))) set0).

(** The tree of [_disj(set0)]: some label holds. *)
Definition disj_tree {A} `{PyObj A} (set0 : list A) : form :=
  Disj (map (λ x, Paren (Atom (str x))) set0).

(** * Well-formed inputs and the postcondition of a transition

    The encoder raises [KeyError] when a state or an action it meets has no
    identifier.  The definitions below name the inputs it accepts. *)

Definition is_ok {A} (r : result A) : Prop := ∃ a, r = Ok a.

(** A transition [t] that [sys_trans_from_ts] encodes without raising: its
    target has an identifier and so have its action labels. *)
Definition sys_edge_ok (state_ids : gmap string string)
    (action_ids sys_action_ids env_action_ids : option (gmap pyval pyval))
    (t : string * string * label) : Prop :=
  is_Some (state_ids !! t.1.2) ∧
  is_ok (_conj_action t.2 "env_actions" false env_action_ids) ∧
  is_ok (_conj_action t.2 "sys_actions" false sys_action_ids) ∧
  is_ok (_conj_action t.2 "actions" false action_ids).

(** The postcondition [env_trans_from_env_ts] writes for the transition
    [t]: the next state, the next environment action and the system action
    the transition is conditioned on. *)
Definition env_postcond (state_ids : gmap string string)
    (action_ids env_action_ids sys_action_ids : option (gmap pyval pyval))
    (t : string * string * label) : result string :=
  to_state_id ← getitem state_ids t.1.2;
  a1 ← _conj_action t.2 "env_actions" true env_action_ids;
  a2 ← _conj_action t.2 "actions" true action_ids;
  a3 ← _conj_action t.2 "sys_actions" false sys_action_ids;
  Ok (((("X" +:+ pstr to_state_id) +:+ a1) +:+ a2) +:+ a3).

(** A transition that is not conditioned on a system action: the conjunct
    [_conj_action] writes for its key ['sys_actions'] is empty. *)
Definition free_edge (sys_action_ids : option (gmap pyval pyval))
    (t : string * string * label) : bool :=
  match _conj_action t.2 "sys_actions" false sys_action_ids with
  | Ok a => bool_decide (a = "")
  | Raise _ => false
  end.

(** ** The environment clauses in the words of the specification

    Written from the specification, to be compared with what
    [env_trans_from_env_ts] returns.

    [action_id ids l key a']: the label [l] has an action under [key] and
    [a'] is what stands for it in a formula, its identifier in [ids], or the
    action itself without a dictionary. *)
Definition action_id (ids : option (gmap pyval pyval)) (l : label)
    (key : string) (a' : pyval) : Prop :=
  ∃ a, lab_attr l !! key = Some a ∧
       match ids with Some d => d !! a = Some a' | None => a' = a end.

(** The conjunct [c] a transition label adds for the action under [key]:
    nothing without such an action or for the empty action, and otherwise
    [ && (a')], with [X] before the parenthesis for a next-state action. *)
Definition spec_conjunct (ids : option (gmap pyval pyval)) (l : label)
    (key prefix : string) (c : string) : Prop :=
  (lab_attr l !! key = None ∧ c = "") ∨
  (action_id ids l key (PStr "") ∧ c = "") ∨
  (∃ a', action_id ids l key a' ∧ a' ≠ PStr "" ∧
         c = " && " +:+ prefix +:+ "(" +:+ str a' +:+ ")").

(** The postcondition [p] of the transition [t] in the environment view:
    the next state, the next environment action, the next action of a
    closed system, and the system action the transition is conditioned
    on. *)
Definition spec_env_postcond (state_ids : gmap string string)
    (action_ids env_action_ids sys_action_ids : option (gmap pyval pyval))
    (t : string * string * label) (p : string) : Prop :=
  ∃ to_id e a s,
    state_ids !! t.1.2 = Some to_id ∧
    spec_conjunct env_action_ids t.2 "env_actions" "X" e ∧
    spec_conjunct action_ids t.2 "actions" "X" a ∧
    spec_conjunct sys_action_ids t.2 "sys_actions" "" s ∧
    p = "X(" +:+ to_id +:+ ")" +:+ e +:+ a +:+ s.

(** A transition that carries no system action: its label has no key
    ['sys_actions'], or the action under it is the empty one. *)
Definition no_sys_action (sys_action_ids : option (gmap pyval pyval))
    (t : string * string * label) : Prop :=
  lab_attr t.2 !! "sys_actions" = None
  ∨ action_id sys_action_ids t.2 "sys_actions" (PStr "").

(** The text [x] stands between an opening and a closing parenthesis of
    [out]. *)
Definition enclosed (x out : string) : Prop :=
  ∃ pre mid1 mid2 post,
    out = pre +:+ "(" +:+ mid1 +:+ x +:+ mid2 +:+ ")" +:+ post.

(** The formula [!(a R b)] as the constructors build it in an empty graph:
    the variables [a] and [b], the release node over them and the negation
    over it, with the identities 1, 2, 3 and 4.  The result is the root and
    the graph. *)
Definition not_release : result (ast.node * ast.DiGraph) :=
  let '(a, g) := ast.new_Var "a" 1 ast.empty_graph in
  let '(b, g) := ast.new_Var "b" 2 g in
  '(r, g) ← ast.new_BiTempOp "R" a b 3 g;
  Ok (ast.new_Not "!" r 4 g).

(** The formula [a && b] built the same way, with the identities 1, 2, 3. *)
Definition a_and_b : ast.node * ast.DiGraph :=
  let '(a, g) := ast.new_Var "a" 1 ast.empty_graph in
  let '(b, g) := ast.new_Var "b" 2 g in
  ast.Binary_init ast.And "&" a b 3 g.

(** The formula [x && y] built the same way, with the identities 1, 2, 3. *)
Definition x_and_y : ast.node * ast.DiGraph :=
  let '(x, g) := ast.new_Var "x" 1 ast.empty_graph in
  let '(y, g) := ast.new_Var "y" 2 g in
  ast.Binary_init ast.And "&&" x y 3 g.

(** * The rest of the encoder (synth.py)

    The functions of [synth.py] that put the pieces above together. *)

(** [ap_trans_from_ts] (lines 757-775) *)
Definition ap_trans_from_ts (states : States)
    (state_ids : gmap string string) (aps : list string) : M (list string) :=
  (* no AP labels ? *)
  if decide (aps = []) then mret []
  else
    for_in (st_states states) (λ trans state,
      let label := st_label_of states state in
      state_id ← lift (getitem state_ids state);
      let tmp := sprint_aps label aps in
      if decide (tmp = "") then mret trans
      else mret (trans ++ ["X((" +:+ str state_id +:+ ") -> (" +:+ tmp +:+ "))"])
    ) [].

(** [env_trans_from_sys_ts] (lines 657-695).  [next_env_actions] is a set:
    [_disj] writes its elements in the order iteration gives them. *)
Definition env_trans_from_sys_ts (states : list string)
    (state_ids : gmap string string) (trans : Transitions)
    (env_action_ids : option (gmap pyval pyval)) : M (list string) :=
  if negb (truthy env_action_ids) then mret []
  else
    for_in states (λ env_trans from_state,
      from_state_id ← lift (getitem state_ids from_state);
      let precond := pstr from_state_id in
      let cur_trans := find trans [from_state] in
      (* no successor states ? *)
      if decide (cur_trans = []) then
        vals ← lift (values_of env_action_ids);
        mret (env_trans ++ [precond +:+ " -> X(" +:+ _conj_neg vals true +:+ ")"])
      else
        (* collect possible next env actions *)
        next_env_actions ←
          for_in cur_trans (λ (next_env_actions : gset pyval)
                              '(_, to_state, label),
            match lab_attr label !! "env_actions" with
            | None => mret next_env_actions
            | Some env_action =>
                env_action_id ←
                  lift (match env_action_ids with
                        | Some ids => getitem ids env_action
                        | None => Raise TypeError
                        end);
                mret (next_env_actions ∪ {[env_action_id]})
            end) ∅;
        let next_env_actions := _disj (elements next_env_actions) in
        mret (env_trans ++ [precond +:+ " -> X(" +:+ next_env_actions +:+ ")"])
    ) [].

(** [_default_action_vars] and [_check_solver_options] (lines 948-965).
    [solver] is the argument [option], a string object: the tests
    [option is 'jtlv'] compare identities. *)
Definition _default_action_vars : (string * string)%type := ("eact", "act").

Definition _check_solver_options (solver : str_obj) (bool_states : bool)
    (action_vars : option (string * string)%type) (bool_actions : bool)
  : M (bool * (string * string) * bool)%type :=
  let action_vars := default _default_action_vars action_vars in
  bool_states ←
    (if negb bool_states && is_literal solver "jtlv" then
       _ ← warn ("Int state not yet available for jtlv solver." +:+ nl +:+
                 "Using bool states.");
       mret true
     else mret bool_states);
  bool_actions ←
    (if negb bool_actions && is_literal solver "jtlv" then
       _ ← warn ("Int action modeling not yet available for jtlv solver."
                 +:+ nl +:+ "Using bool actions.");
       mret true
     else mret bool_actions);
  mret (bool_states, action_vars, bool_actions).

(** Modelled from the spec: a closed finite transition system
    ([tulip.transys] is not part of the sources): its atomic propositions,
    states, actions and transitions. *)
Record FTS : Type := MkFTS {
  fts_aps : list string;
  fts_states : States;
  fts_actions : list pyval;
  fts_transitions : Transitions
}.

(** [fts2spec] (lines 397-437): the variables, the initial formulas and the
    safety formulas of a closed system. *)
Definition fts2spec (fts : FTS) (ignore_initial bool_states : bool)
    (statevar actionvar : string) (bool_actions : bool)
    (actions_must : option string)
  : M (gmap pyval domain * list string * list string)%type :=
  let aps := fts_aps fts in
  let states := fts_states fts in
  let actions := fts_actions fts in
  let sys_init := [] in
  let sys_trans := [] in
  let sys_vars := dict_comp (λ ap, (PStr ap, Boolean)) aps in
  '(action_ids, sys_vars, sys_trans, sys_init) ←
    lift (create_actions actions sys_vars sys_trans sys_init
            actionvar bool_actions actions_must);
  let '(state_ids, sys_vars, sys_trans) :=
    create_states (st_states states) sys_vars sys_trans statevar bool_states in
  i ← sys_init_from_ts states state_ids aps ignore_initial;
  let sys_init := sys_init ++ i in
  t ← sys_trans_from_ts (st_states states) state_ids (fts_transitions fts)
        action_ids None None;
  let sys_trans := sys_trans ++ t in
  t ← ap_trans_from_ts states state_ids aps;
  let sys_trans := sys_trans ++ t in
  mret (sys_vars, sys_init, sys_trans).

(** The tree of the formula [sprint_aps(label, aps)] writes: the
    propositions of the label, then the other propositions negated; the two
    parts are joined by [&&] when both texts are non-empty, as in the
    source. *)
Definition sprint_aps_tree (label : label) (aps : list string) : form :=
  let pos :=
    match lab_ap label with
    | Some ap => Conj (map Atom (filter (λ x, x ∈ ap) aps))
    | None => Conj []
    end in
  let neg :=
    match lab_ap label with
    | Some ap => Conj (map (λ x, Neg (Atom x)) (filter (λ x, x ∉ ap) aps))
    | None => Conj (map (λ x, Neg (Atom x)) aps)
    end in
  if bool_decide (0 < String.length (text pos))%nat
     && bool_decide (0 < String.length (text neg))%nat
  then BinAnd pos neg
  else if bool_decide (text pos = "") then neg else pos.

(** The postcondition [sys_trans_from_ts] writes for the transition [t]:
    the target state and the actions that label the transition. *)
Definition sys_postcond (state_ids : gmap string string)
    (action_ids sys_action_ids env_action_ids : option (gmap pyval pyval))
    (t : string * string * label) : result string :=
  to_state_id ← getitem state_ids t.1.2;
  a1 ← _conj_action t.2 "env_actions" false env_action_ids;
  a2 ← _conj_action t.2 "sys_actions" false sys_action_ids;
  a3 ← _conj_action t.2 "actions" false action_ids;
  Ok (((pstr to_state_id +:+ a1) +:+ a2) +:+ a3).

(** A closed system with the states [s0], initial and labelled [home], and
    [s1], one action [go] and a transition each way. *)
Definition two_state_fts : FTS :=
  MkFTS ["home"]
    (MkStates ["s0"; "s1"] ["s0"]
       (λ s, if decide (s = "s0") then Label (Some ["home"]) ∅
             else Label None ∅))
    [PStr "go"]
    [("s0", "s1", Label None {["actions" := PStr "go"]});
     ("s1", "s0", Label None {["actions" := PStr "go"]})].

(** * Properties *)

(** ** Strings *)

Lemma app_cons (c : ascii) (s t : string) :
  String c s +:+ t = String c (s +:+ t).
Proof. reflexivity. Qed.

Lemma app_empty_l (s : string) : "" +:+ s = s.
Proof. reflexivity. Qed.

Lemma app_assoc_str (s t u : string) : (s +:+ t) +:+ u = s +:+ (t +:+ u).
Proof.
  induction s as [|c s IH]; [reflexivity|].
  rewrite !app_cons. by rewrite IH.
Qed.

Create Rewrite HintDb strnorm.
#[global] Hint Rewrite app_assoc_str app_cons app_empty_l : strnorm.

(** Normalise both sides of an equation between concatenations. *)
Ltac strnorm := autorewrite with strnorm; try reflexivity.

(** ** The degenerate cases of [mutex] and [exactly_one] *)

Lemma mutex_few {A} `{PyObj A, EqDecision A} (l : list A) :
  (length (filter (λ y, eq_empty y = false) l) ≤ 1)%nat → mutex l = [].
Proof.
  intros Hlen. unfold mutex.
  destruct (decide (filter _ l = [])); [done|].
  by destruct (decide (length (filter _ l) ≤ 1)%nat).
Qed.

Lemma mutex_single {A} `{PyObj A, EqDecision A} (x : A) : mutex [x] = [].
Proof.
  apply mutex_few. rewrite filter_cons, filter_nil.
  destruct (decide (eq_empty x = false)); simpl; lia.
Qed.

(** C8: [mutex] of an empty list, of a single label, and of any list that
    keeps at most one label once the empty labels are skipped, is the empty
    formula list; [exactly_one] of an empty list is the empty list, and
    [exactly_one] of a single label [x] is the one formula [(x)], the label
    itself with no disjunction around it. *)
Theorem mutex_exactly_one_degenerate {A} `{PyObj A, EqDecision A}
    (x : A) (l : list A) :
  (length (filter (λ y, eq_empty y = false) l) ≤ 1)%nat →
  mutex (@nil A) = [] ∧ mutex [x] = [] ∧ mutex l = [] ∧
  exactly_one (@nil A) = [] ∧ exactly_one [x] = ["(" +:+ str x +:+ ")"].
Proof.
  intros Hlen. split_and!.
  - reflexivity.
  - apply mutex_single.
  - by apply mutex_few.
  - reflexivity.
  - reflexivity.
Qed.

Lemma mutex_exactly_one_degenerate_witness :
  mutex (@nil string) = [] ∧ mutex ["a"] = [] ∧ mutex [""; "a"; ""] = [] ∧
  exactly_one (@nil string) = [] ∧ exactly_one ["a"] = ["(a)"].
Proof.
  refine (mutex_exactly_one_degenerate "a" [""; "a"; ""] _).
  vm_compute. lia.
Defined.

(** The formulas for two and three labels, as the source writes them. *)
Example mutex_two_labels :
  mutex ["a"; ""; "b"] = ["(!(a) || (!(b))) && (!(b) || (!(a)))"].
Proof. vm_compute. reflexivity. Qed.

Example exactly_one_three_labels :
  exactly_one ["a"; "b"; "c"] =
  ["(((a) && !(b) && !(c)) || ((b) && !(a) && !(c)) || ((c) && !(a) && !(b)))"].
Proof. vm_compute. reflexivity. Qed.

(** ** Exactly-one implies mutual exclusion *)

Section reading.
Context {A : Type} `{PyObj A, EqDecision A}.
Implicit Types (l : list A) (v : string → bool).

Lemma text_conj_neg_diff (s0 s1 : list A) :
  text (conj_neg_diff_tree s0 s1) = _conj_neg_diff s0 s1 true.
Proof.
  unfold conj_neg_diff_tree, _conj_neg_diff. simpl.
  by rewrite map_map.
Qed.

Lemma mutex_text l : text <$> mutex_tree l = mutex l.
Proof.
  unfold mutex_tree, mutex.
  set (l' := filter _ l).
  destruct (decide (l' = [])) as [->|]; [done|].
  destruct (decide (length l' ≤ 1)%nat); [done|].
  simpl. f_equal. unfold _conj. rewrite !map_map. f_equal.
  apply map_ext. intros x. simpl.
  rewrite map_map. strnorm.
Qed.

Lemma exactly_one_text l : text <$> exactly_one_tree l = exactly_one l.
Proof.
  unfold exactly_one_tree, exactly_one.
  destruct (decide (length l ≤ 1)%nat).
  - induction l as [|x l IH]; [done|]. simpl. f_equal.
    apply IH. simpl in *. lia.
  - simpl. f_equal. unfold _disj. rewrite !map_map. do 3 f_equal.
    apply map_ext. intros x. simpl.
    rewrite map_map. strnorm.
Qed.

Lemma holds_conj_neg_diff v (s0 s1 : list A) :
  holds v (conj_neg_diff_tree s0 s1) = true ↔
  ∀ y, y ∈ s0 → y ∉ s1 → v (str y) = false.
Proof.
  unfold conj_neg_diff_tree. simpl.
  rewrite forallb_forall. setoid_rewrite in_map_iff. split.
  - intros Hall y Hy Hn.
    specialize (Hall (Neg (Paren (Atom (str y))))). simpl in Hall.
    apply negb_true_iff, Hall. exists y. split; [done|].
    apply list_elem_of_In, list_elem_of_filter. done.
  - intros Hall f (y & <- & Hy). simpl. apply negb_true_iff.
    apply list_elem_of_In, list_elem_of_filter in Hy as [Hn Hy]. auto.
Qed.

(** What [exactly_one] says of a list of two labels or more. *)
Lemma models_exactly_one v l :
  (1 < length l)%nat → models v (exactly_one_tree l) →
  ∃ x, x ∈ l ∧ v (str x) = true ∧
       ∀ y, y ∈ l → y ≠ x → v (str y) = false.
Proof.
  intros Hlen. unfold exactly_one_tree.
  destruct (decide (length l ≤ 1)%nat); [lia|].
  intros Hm. apply Forall_inv in Hm. simpl in Hm.
  apply existsb_exists in Hm as (f & Hf & Hh).
  apply in_map_iff in Hf as (x & <- & Hx). apply list_elem_of_In in Hx.
  simpl in Hh. apply andb_true_iff in Hh as [Hvx Hrest].
  exists x. split_and!; [done..|].
  intros y Hy Hne.
  apply (proj1 (holds_conj_neg_diff v l [x]) Hrest y Hy).
  by intros ?%list_elem_of_singleton.
Qed.

Lemma exactly_one_models_mutex v l :
  models v (exactly_one_tree l) → models v (mutex_tree l).
Proof.
  intros Hm. unfold mutex_tree.
  set (l' := filter (λ x, eq_empty x = false) l).
  destruct (decide (length l' ≤ 1)%nat) as [|Hl']; [constructor|].
  assert (1 < length l)%nat as Hlen.
  { pose proof (length_filter (λ x, eq_empty x = false) l) as Hf.
    fold l' in Hf. lia. }
  destruct (models_exactly_one v l Hlen Hm) as (x0 & Hx0 & Hv0 & Hothers).
  constructor; [|constructor]. simpl.
  apply forallb_forall. intros f (x & <- & Hx)%in_map_iff.
  apply list_elem_of_In, list_elem_of_filter in Hx as [_ Hx]. simpl.
  destruct (decide (x = x0)) as [->|Hne].
  - apply orb_true_iff. right. apply holds_conj_neg_diff.
    intros y [_ Hy]%list_elem_of_filter Hn. apply Hothers; [done|].
    by intros ->; apply Hn, list_elem_of_singleton.
  - by rewrite (Hothers x Hx Hne).
Qed.
End reading.

(** C7: for every list of labels [L] and every valuation [v] of the labels,
    the formulas of [exactly_one L] and of [mutex L] are the texts of the
    trees [exactly_one_tree L] and [mutex_tree L], and if [v] satisfies the
    formula of [exactly_one L] then it satisfies the formula of [mutex L]. *)
Theorem exactly_one_implies_mutex {A} `{PyObj A, EqDecision A}
    (L : list A) (v : string → bool) :
  exactly_one L = text <$> exactly_one_tree L ∧
  mutex L = text <$> mutex_tree L ∧
  (models v (exactly_one_tree L) → models v (mutex_tree L)).
Proof.
  split_and!.
  - symmetry. apply exactly_one_text.
  - symmetry. apply mutex_text.
  - apply exactly_one_models_mutex.
Qed.

(** The valuation that makes ["b"] true alone satisfies both constraints
    over [a], [b], [c]. *)
Lemma exactly_one_implies_mutex_witness :
  models (λ a, bool_decide (a = "b")) (exactly_one_tree ["a"; "b"; "c"]) ∧
  models (λ a, bool_decide (a = "b")) (mutex_tree ["a"; "b"; "c"]).
Proof.
  assert (models (λ a, bool_decide (a = "b"))
            (exactly_one_tree ["a"; "b"; "c"])) as Hm.
  { constructor; [vm_compute; reflexivity | constructor]. }
  split; [exact Hm|].
  exact (proj2 (proj2 (exactly_one_implies_mutex ["a"; "b"; "c"] _)) Hm).
Defined.

(** ** Dictionaries *)

Lemma dict_comp_cons {A K V} `{Countable K} (f : A → K * V) x (xs : list A) :
  dict_comp f (x :: xs) = <[(f x).1 := (f x).2]> (dict_comp f xs).
Proof. unfold dict_comp. simpl. by destruct (f x). Qed.

(** The dictionary [{s : 'boolean' for s in xs}] maps each of [xs] to
    ['boolean'] and nothing else. *)
Lemma lookup_dict_comp_const {A K V} `{Countable K} (key : A → K) (d : V)
    (xs : list A) (k : K) :
  dict_comp (λ x, (key x, d)) xs !! k =
  if decide (k ∈ key <$> xs) then Some d else None.
Proof.
  induction xs as [|x xs IH].
  - unfold dict_comp. rewrite !fmap_nil. simpl. by rewrite lookup_empty.
  - rewrite dict_comp_cons. cbn [fst snd]. rewrite fmap_cons.
    destruct (decide (key x = k)) as [->|Hne].
    + rewrite lookup_insert_eq.
      destruct (decide (k ∈ k :: (key <$> xs))) as [|Hn]; [done|].
      exfalso. apply Hn. left.
    + rewrite lookup_insert_ne by done. rewrite IH.
      destruct (decide (k ∈ key <$> xs)) as [Hin|Hn];
        destruct (decide (k ∈ key x :: (key <$> xs))) as [Hin'|Hn'];
        try done.
      * exfalso. apply Hn'. by right.
      * apply elem_of_cons in Hin' as [->|]; done.
Qed.

Lemma dict_values_singleton {K V} `{Countable K} (k : K) (v : V) :
  dict_values ({[k := v]} : gmap K V) = [v].
Proof. unfold dict_values. by rewrite map_to_list_singleton. Qed.

(** ** Encoding of states *)

(** C3: for every state set of fewer than three states and every value of
    [bool_states], [create_states] takes the Boolean encoding: every state
    is its own identifier, [variables] gains one ['boolean'] entry per state,
    the formulas [exactly_one(states)] are appended to the safety formulas,
    and no other variable is declared: an entry of the returned [variables]
    that is not ['boolean'] was an entry of [variables] before the call. *)
Theorem create_states_few_bool (states : list string)
    (variables : gmap pyval domain) (trans : list string)
    (statevar : string) (bool_states : bool) :
  (length states < 3)%nat →
  ∃ variables',
    create_states states variables trans statevar bool_states =
      (dict_comp (λ x, (x, x)) states, variables',
       trans ++ exactly_one states) ∧
    (∀ s, s ∈ states → variables' !! PStr s = Some Boolean) ∧
    (∀ k, k ∉ PStr <$> states → variables' !! k = variables !! k) ∧
    (∀ k d, variables' !! k = Some d → d ≠ Boolean →
            variables !! k = Some d).
Proof.
  intros Hlen. unfold create_states.
  destruct (decide (length states < 3)%nat); [|lia].
  eexists. split; [reflexivity|].
  assert (∀ k, (dict_comp (λ s, (PStr s, Boolean)) states ∪ variables) !! k =
               if decide (k ∈ PStr <$> states) then Some Boolean
               else variables !! k) as Hlook.
  { intros k. rewrite lookup_union, lookup_dict_comp_const.
    destruct (decide _); [by destruct (variables !! k)|].
    by rewrite (left_id None _). }
  split_and!.
  - intros s Hs. rewrite Hlook.
    destruct (decide _) as [|Hn]; [done|].
    exfalso. apply Hn. by apply list_elem_of_fmap_2.
  - intros k Hk. rewrite Hlook. by destruct (decide _).
  - intros k d. rewrite Hlook. destruct (decide _); [|done].
    by intros [= <-].
Qed.

Lemma create_states_few_bool_witness :
  ∃ variables',
    create_states ["X0"; "X1"] ∅ [] "loc" false =
      (dict_comp (λ x, (x, x)) ["X0"; "X1"], variables',
       [] ++ exactly_one ["X0"; "X1"]) ∧
    (∀ s, s ∈ ["X0"; "X1"] → variables' !! PStr s = Some Boolean) ∧
    (∀ k, k ∉ PStr <$> ["X0"; "X1"] →
          variables' !! k = (∅ : gmap pyval domain) !! k) ∧
    (∀ k d, variables' !! k = Some d → d ≠ Boolean →
            (∅ : gmap pyval domain) !! k = Some d).
Proof.
  apply (create_states_few_bool ["X0"; "X1"] ∅ [] "loc" false).
  simpl. lia.
Defined.

(** With three states the integer encoding is taken when asked for. *)
Example create_states_three :
  (create_states ["X0"; "X1"; "X2"] ∅ [] "loc" false).1.2
  = {[PStr "loc" := Range 0 2]}.
Proof. vm_compute. reflexivity. Qed.

(** ** Encoding of actions *)

Lemma dict_comp_single {A K V} `{Countable K} (f : A → K * V) (x : A) :
  dict_comp f [x] = {[(f x).1 := (f x).2]}.
Proof. rewrite dict_comp_cons. unfold dict_comp. simpl. apply insert_empty. Qed.

Lemma setact_all_str (actionvar : string) (actions : list pyval) :
  Forall (λ a, is_int a = false) actions →
  mapM (λ s, v ← setact actionvar s; Ok (s, v)) actions =
  Ok (map (λ s, (s, PStr (actionvar +:+ " = " +:+ str s))) actions).
Proof.
  induction 1 as [|a actions Ha _ IH]; [reflexivity|].
  simpl. rewrite IH. by destruct a.
Qed.

Lemma not_all_int (actions : list pyval) :
  actions ≠ [] → Forall (λ a, is_int a = false) actions →
  forallb is_int actions = false.
Proof.
  intros Hne Hall. destruct Hall as [|a actions Ha _]; [done|].
  simpl. by rewrite Ha.
Qed.

(** With no constraint asked for, the Boolean encoding is taken whatever
    [bool_actions] is, and nothing is added to [trans] and [init]. *)
Lemma create_actions_no_mutex (actions : list pyval)
    (variables : gmap pyval domain) (trans init : list string)
    (actionvar : string) (bool_actions : bool) :
  actions ≠ [] →
  create_actions actions variables trans init actionvar bool_actions None =
  Ok (Some (dict_comp (λ x, (x, x)) actions),
      dict_comp (λ a, (a, Boolean)) actions ∪ variables, trans, init).
Proof.
  intros Hne. unfold create_actions.
  destruct (decide (actions = [])); [done|]. simpl.
  by destruct (decide (mutex _ = [])).
Qed.

(** With a constraint and without [bool_actions], the action variable gets
    the domain [actions2ints] computes. *)
Lemma create_actions_int (actions : list pyval)
    (variables : gmap pyval domain) (trans init : list string)
    (actionvar : string) (min_one : bool) ids d :
  actions ≠ [] →
  actions2ints actions actionvar min_one = Ok (ids, d) →
  create_actions actions variables trans init actionvar false
    (Some (if min_one then "xor" else "mutex")) =
  Ok (Some ids, <[PStr actionvar := d]> variables, trans, init).
Proof.
  intros Hne Hids. unfold create_actions.
  destruct (decide (actions = [])); [done|].
  destruct min_one; simpl; by rewrite Hids.
Qed.

(** X22: for every non-empty set of [N] actions,
    - if no mutual exclusion is asked for ([actions_must] is [None]),
      [create_actions] takes the Boolean encoding whatever [bool_actions] is;
    - under the integer encoding with ['mutex'], integer actions get the
      domain [(0, N)], and string actions get their [N] values followed by
      one more string that stands for no action, the name of the action
      variable followed by [none];
    - under the integer encoding with ['xor'], integer actions get the
      domain [(0, N-1)] and string actions get their [N] values only;
    - [create_actions] declares the action variable with that domain. *)
Theorem action_encoding (actions : list pyval)
    (variables : gmap pyval domain) (trans init : list string)
    (actionvar : string) :
  actions ≠ [] →
  let N := Z.of_nat (length actions) in
  (∀ bool_actions,
     create_actions actions variables trans init actionvar bool_actions None =
     Ok (Some (dict_comp (λ x, (x, x)) actions),
         dict_comp (λ a, (a, Boolean)) actions ∪ variables, trans, init)) ∧
  (forallb is_int actions = true →
     actions2ints actions actionvar false =
       Ok (dict_comp (λ x, (x, x)) actions, Range 0 N) ∧
     actions2ints actions actionvar true =
       Ok (dict_comp (λ x, (x, x)) actions, Range 0 (N - 1))) ∧
  (Forall (λ a, is_int a = false) actions →
     ∃ ids,
       actions2ints actions actionvar false =
         Ok (ids, Enum (actions ++ [PStr (actionvar +:+ "none")])) ∧
       actions2ints actions actionvar true = Ok (ids, Enum actions)) ∧
  (∀ min_one ids d,
     actions2ints actions actionvar min_one = Ok (ids, d) →
     create_actions actions variables trans init actionvar false
       (Some (if min_one then "xor" else "mutex")) =
     Ok (Some ids, <[PStr actionvar := d]> variables, trans, init)).
Proof.
  intros Hne N. split_and!.
  - intros b. by apply create_actions_no_mutex.
  - intros Hint. unfold actions2ints. by rewrite Hint.
  - intros Hstr. unfold actions2ints.
    rewrite (not_all_int _ Hne Hstr), (setact_all_str _ _ Hstr).
    eexists. split; reflexivity.
  - intros min_one ids d. by apply create_actions_int.
Qed.

Lemma action_encoding_witness :
  actions2ints [PStr "park"; PStr "go"; PStr "stop"] "eact" false =
    Ok (dict_comp (λ s, (s, PStr ("eact = " +:+ str s)))
          [PStr "park"; PStr "go"; PStr "stop"],
        Enum [PStr "park"; PStr "go"; PStr "stop"; PStr "eactnone"]) ∧
  actions2ints [PInt 4; PInt 7] "act" false =
    Ok (dict_comp (λ x, (x, x)) [PInt 4; PInt 7], Range 0 2).
Proof.
  assert ([PStr "park"; PStr "go"; PStr "stop"] ≠ []) as Hne1 by done.
  assert ([PInt 4; PInt 7] ≠ []) as Hne2 by done.
  destruct (action_encoding _ ∅ [] [] "eact" Hne1) as (_ & _ & Hstr & _).
  destruct (action_encoding _ ∅ [] [] "act" Hne2) as (_ & Hint & _ & _).
  split.
  - destruct Hstr as (ids & H1 & _); [by repeat constructor|].
    vm_compute. reflexivity.
  - apply Hint. reflexivity.
Defined.

(** ** The value that stands for no action *)

Lemma length_append_str (s t : string) :
  String.length (s +:+ t) = (String.length s + String.length t)%nat.
Proof.
  induction s as [|c s IH]; [done|]. rewrite app_cons. simpl. by rewrite IH.
Qed.

Lemma append_suffix_ne (s t : string) : s ≠ "" → s +:+ t ≠ t.
Proof.
  intros Hs Heq. apply (f_equal String.length) in Heq.
  rewrite length_append_str in Heq. destruct s; [done|]. simpl in Heq. lia.
Qed.

(** C4, on the code: for string actions under the integer encoding with
    ['mutex'], the value added to the [N] actions is not ['none'], as the
    docstring of [create_actions] and the test say, but the name of the
    action variable followed by [none]: [create_actions] declares the
    action variable with the domain [actions + [actionvar + 'none']], the
    added value differs from ['none'], and ['none'] is not a value of the
    domain unless it is one of the actions. *)
Theorem action_sentinel_not_none (actions : list pyval)
    (variables : gmap pyval domain) (trans init : list string)
    (actionvar : string) :
  actions ≠ [] → Forall (λ a, is_int a = false) actions → actionvar ≠ "" →
  ∃ ids,
    actions2ints actions actionvar false
    = Ok (ids, Enum (actions ++ [PStr (actionvar +:+ "none")])) ∧
    create_actions actions variables trans init actionvar false
      (Some "mutex")
    = Ok (Some ids,
          <[PStr actionvar :=
              Enum (actions ++ [PStr (actionvar +:+ "none")])]> variables,
          trans, init) ∧
    PStr (actionvar +:+ "none") ≠ PStr "none" ∧
    (PStr "none" ∉ actions →
     PStr "none" ∉ actions ++ [PStr (actionvar +:+ "none")]).
Proof.
  intros Hne Hstr Hvar.
  assert (PStr (actionvar +:+ "none") ≠ PStr "none") as Hsent.
  { intros [= Heq]. by apply (append_suffix_ne actionvar "none"). }
  assert (∃ ids, actions2ints actions actionvar false
                 = Ok (ids, Enum (actions ++ [PStr (actionvar +:+ "none")])))
    as [ids Hids].
  { unfold actions2ints.
    rewrite (not_all_int _ Hne Hstr), (setact_all_str _ _ Hstr).
    by eexists. }
  exists ids. split_and!; [done| |done|].
  - unfold create_actions. destruct (decide (actions = [])); [done|].
    simpl. by rewrite Hids.
  - intros Hnone [Hin|Hin%list_elem_of_singleton]%elem_of_app; [done|].
    by apply Hsent.
Qed.

Lemma action_sentinel_not_none_witness :
  ∃ ids,
    create_actions [PStr "park"; PStr "go"; PStr "stop"] ∅ [] [] "eact"
      false (Some "mutex")
    = Ok (Some ids,
          <[PStr "eact" :=
              Enum [PStr "park"; PStr "go"; PStr "stop"; PStr "eactnone"]]> ∅,
          [], []) ∧
    PStr "none" ∉ [PStr "park"; PStr "go"; PStr "stop"; PStr "eactnone"].
Proof.
  destruct (action_sentinel_not_none [PStr "park"; PStr "go"; PStr "stop"]
              ∅ [] [] "eact") as (ids & _ & Hrun & _ & Hnone);
    [done|by repeat constructor|done|].
  exists ids. split; [exact Hrun|]. apply Hnone.
  intros Hin. repeat (apply elem_of_cons in Hin as [Hin|Hin]; [done|]).
  by apply elem_of_nil in Hin.
Defined.

(** ** A single action *)

(** X18: for a non-empty set of actions, a value of [actions_must] other
    than [None], ['mutex'] and ['xor'] is refused with the [Exception] that
    quotes it, before anything is encoded, whatever the other arguments
    are. *)
Lemma create_actions_unknown_must (actions : list pyval)
    (variables : gmap pyval domain) (trans init : list string)
    (actionvar : string) (bool_actions : bool) (am : string) :
  actions ≠ [] → am ≠ "mutex" → am ≠ "xor" →
  create_actions actions variables trans init actionvar bool_actions (Some am)
  = Raise (Exception ("Unknown value: actions_must = " +:+ am)).
Proof.
  intros Hne Hm Hx. unfold create_actions.
  destruct (decide (actions = [])); [done|].
  destruct (decide (am = "mutex")); [done|].
  by destruct (decide (am = "xor")).
Qed.

Lemma create_actions_unknown_must_witness :
  create_actions [PStr "go"] ∅ [] [] "act" true (Some "any")
  = Raise (Exception "Unknown value: actions_must = any").
Proof.
  refine (create_actions_unknown_must [PStr "go"] ∅ [] [] "act" true "any"
            _ _ _); done.
Defined.

(** C10: for an action set of exactly one action [a] under the Boolean
    encoding ([bool_actions] set, or no constraint asked for) and for each
    of the three values of [actions_must], [create_actions] declares [a] as
    a ['boolean'] variable, returns [{a : a}] and leaves [trans] and [init]
    as they were; [exactly_one] applied to the one-element list does assert
    the action. *)
Theorem single_action_unconstrained (a : pyval)
    (variables : gmap pyval domain) (trans init : list string)
    (actionvar : string) (bool_actions : bool) (actions_must : option string) :
  actions_must ∈ [None; Some "mutex"; Some "xor"] →
  bool_actions = true ∨ actions_must = None →
  create_actions [a] variables trans init actionvar bool_actions actions_must
    = Ok (Some {[a := a]}, <[a := Boolean]> variables, trans, init) ∧
  exactly_one [a] = ["(" +:+ str a +:+ ")"].
Proof.
  intros Hmust Hbool. split; [|reflexivity].
  assert (dict_comp (λ a0 : pyval, (a0, Boolean)) [a] ∪ variables
          = <[a := Boolean]> variables) as Hvars.
  { rewrite dict_comp_single. simpl.
    by rewrite <- insert_union_singleton_l. }
  assert (mutex (dict_values (dict_comp (λ x : pyval, (x, x)) [a])) = [])
    as Hmutex.
  { rewrite dict_comp_single. simpl. rewrite dict_values_singleton.
    apply mutex_single. }
  unfold create_actions.
  destruct (decide ([a] = [])); [done|].
  rewrite !elem_of_cons in Hmust.
  destruct Hmust as [->|[->|[->|Hnil]]]; [| | |by apply elem_of_nil in Hnil].
  - simpl. rewrite Hmutex, Hvars, dict_comp_single. reflexivity.
  - destruct Hbool as [->|]; [|done].
    simpl. rewrite Hmutex, Hvars, dict_comp_single. reflexivity.
  - destruct Hbool as [->|]; [|done].
    simpl. rewrite Hmutex, Hvars, dict_comp_single. reflexivity.
Qed.

Lemma single_action_unconstrained_witness :
  create_actions [PStr "park"] ∅ [] [] "act" true (Some "xor")
    = Ok (Some {[PStr "park" := PStr "park"]},
          <[PStr "park" := Boolean]> ∅, [], []) ∧
  exactly_one [PStr "park"] = ["(park)"].
Proof.
  refine (single_action_unconstrained (PStr "park") ∅ [] [] "act" true
            (Some "xor") _ _).
  - vm_compute. right. right. left.
  - by left.
Defined.

(** ** The effect monad *)

Lemma M_bind_ok {A B} (a : A) (f : A → M B) : ((Ok a, []) ≫= f) = f a.
Proof. unfold mbind, M_bind. by destruct (f a). Qed.

Lemma M_bind_ret {A B} (a : A) (f : A → M B) : (mret a ≫= f) = f a.
Proof. apply M_bind_ok. Qed.

Lemma M_bind_lift {A B} (a : A) (f : A → M B) : (lift (Ok a) ≫= f) = f a.
Proof. apply M_bind_ok. Qed.

Lemma M_bind_warn {A B} (a : A) (w : list string) (f : A → M B) :
  ((Ok a, w) ≫= f) = ((f a).1, w ++ (f a).2).
Proof. unfold mbind, M_bind. by destruct (f a). Qed.

Lemma getitem_Some {K V} `{Countable K} (d : gmap K V) k v :
  d !! k = Some v → getitem d k = Ok v.
Proof. unfold getitem. by intros ->. Qed.

(** A loop whose body appends to the accumulator: the chunks [cs.*1] are
    appended in turn, with the warnings [cs.*2]. *)
Lemma for_in_collect {A B} (body : list B → A → M (list B))
    (xs : list A) (cs : list (list B * list string)) (acc : list B) :
  Forall2 (λ x c, ∀ acc, body acc x = (Ok (acc ++ c.1), c.2)) xs cs →
  for_in xs body acc = (Ok (acc ++ concat cs.*1), concat cs.*2).
Proof.
  intros Hall. revert acc.
  induction Hall as [|x c xs cs Hx _ IH]; intros acc; simpl.
  - by rewrite app_nil_r.
  - rewrite Hx, M_bind_warn, IH. simpl. by rewrite <- app_assoc.
Qed.

Lemma Forall_exists_Forall2 {A B} (P : A → B → Prop) (xs : list A) :
  Forall (λ x, ∃ y, P x y) xs → ∃ ys, Forall2 P xs ys.
Proof.
  induction 1 as [|x xs [y Hy] _ [ys IH]].
  - exists []. constructor.
  - exists (y :: ys). by constructor.
Qed.

Lemma mapM_getitem {K V} `{Countable K} (d : gmap K V) (ks : list K) :
  (∀ k, k ∈ ks → is_Some (d !! k)) →
  ∃ vs, mapM (getitem d) ks = Ok vs ∧
        Forall2 (λ k v, d !! k = Some v) ks vs.
Proof.
  induction ks as [|k ks IH]; intros Hks.
  - exists []. split; [reflexivity|constructor].
  - destruct (Hks k) as [v Hv]; [left|].
    destruct IH as (vs & Hvs & Hall); [intros; apply Hks; by right|].
    exists (v :: vs). split; [|by constructor].
    simpl. rewrite (getitem_Some _ _ _ Hv). simpl. by rewrite Hvs.
Qed.

(** ** Initial states *)

Lemma join_cons_paren (sep : string) (s : string) (l : list string) :
  ∃ r, join sep (("(" +:+ s) :: l) = String "(" r.
Proof.
  unfold join. simpl. destruct l; eexists; rewrite ?app_cons; reflexivity.
Qed.

(** C1: with [ignore_initial] false, a transition system with no initial
    state yields the initial formulas [["False"]] and one warning; a
    transition system with initial states, each with an identifier, yields
    no warning and a list that ends with the disjunction of the identifiers
    of the initial states (whatever order iteration visits them in), and
    [False] is not among its formulas. *)
Theorem sys_init_from_ts_initial (states : States)
    (state_ids : gmap string string) (aps : list string) :
  (st_initial states = [] →
   sys_init_from_ts states state_ids aps false
   = (Ok ["False"], [no_initial_msg])) ∧
  (st_initial states ≠ [] →
   (∀ s, s ∈ st_initial states → is_Some (state_ids !! s)) →
   ∃ clauses ids,
     Forall2 (λ s i, state_ids !! s = Some i) (st_initial states) ids ∧
     sys_init_from_ts states state_ids aps false
     = (Ok (clauses ++ [_disj ids]), []) ∧
     "False" ∉ clauses ++ [_disj ids]).
Proof.
  split.
  - intros Hnil. unfold sys_init_from_ts. rewrite Hnil. reflexivity.
  - intros Hne Hids. unfold sys_init_from_ts.
    destruct (mapM_getitem state_ids (st_initial states) Hids)
      as (ids & Hmap & Hall).
    set (body := λ (init : list string) (state : string), _).
    assert (∃ cs, Forall2
              (λ x c, (∀ acc, body acc x = (Ok (acc ++ c.1), c.2)) ∧
                      c.2 = [] ∧ Forall (λ f, ∃ r, f = String "!" r) c.1)
              (st_initial states) cs) as [cs Hcs].
    { apply Forall_exists_Forall2, Forall_forall. intros s Hs.
      destruct (Hids s Hs) as [i Hi]. unfold body.
      rewrite (getitem_Some _ _ _ Hi).
      destruct (decide (sprint_aps (st_label_of states s) aps = "")).
      - exists ([], []). split_and!; [|done|constructor].
        intros acc. rewrite M_bind_lift. simpl. by rewrite app_nil_r.
      - eexists ([_], []). split_and!; [|done|].
        + intros acc. rewrite M_bind_lift. reflexivity.
        + constructor; [|constructor]. eexists. rewrite app_cons.
          reflexivity. }
    rewrite (for_in_collect body _ cs []).
    2:{ eapply Forall2_impl; [exact Hcs|]. by intros ?? [? _]. }
    assert (concat cs.*2 = []) as ->.
    { clear -Hcs. induction Hcs as [|???? (_ & Hw & _) _ IH]; [done|].
      rewrite fmap_cons. cbn [concat]. by rewrite Hw, IH. }
    assert (Forall (λ f, ∃ r, f = String "!" r) (concat cs.*1)) as Hbang.
    { clear -Hcs. induction Hcs as [|???? (_ & _ & Hc) _ IH]; [constructor|].
      rewrite fmap_cons. cbn [concat]. by apply Forall_app. }
    rewrite app_nil_l, M_bind_ok.
    destruct (decide (st_initial states = [])); [done|].
    rewrite Hmap, M_bind_lift.
    exists (concat cs.*1), ids. split_and!; [done|reflexivity|].
    intros [Hin|Hin%list_elem_of_singleton]%elem_of_app.
    + eapply Forall_forall in Hbang as [r Hr]; [|exact Hin]. discriminate.
    + destruct Hall as [|s i ss vs _ _]; [done|].
      unfold _disj in Hin. cbn [map] in Hin.
      destruct (join_cons_paren " || " (str i +:+ ")")
                  (map (λ x, "(" +:+ str x +:+ ")") vs)) as [r Hr].
      rewrite Hr in Hin. discriminate.
Qed.

Lemma sys_init_from_ts_initial_witness :
  sys_init_from_ts (MkStates ["s0"; "s1"; "s2"] [] (λ _, Label None ∅))
    (dict_comp (λ x, (x, x)) ["s0"; "s1"; "s2"]) [] false
  = (Ok ["False"], [no_initial_msg]) ∧
  ∃ clauses ids,
    Forall2 (λ s i, dict_comp (λ x, (x, x)) ["s0"; "s1"; "s2"] !! s = Some i)
      ["s0"; "s2"] ids ∧
    sys_init_from_ts
      (MkStates ["s0"; "s1"; "s2"] ["s0"; "s2"] (λ _, Label None ∅))
      (dict_comp (λ x, (x, x)) ["s0"; "s1"; "s2"]) [] false
    = (Ok (clauses ++ [_disj ids]), []) ∧
    "False" ∉ clauses ++ [_disj ids].
Proof.
  split.
  - apply (sys_init_from_ts_initial
             (MkStates ["s0"; "s1"; "s2"] [] (λ _, Label None ∅))).
    reflexivity.
  - apply (sys_init_from_ts_initial
             (MkStates ["s0"; "s1"; "s2"] ["s0"; "s2"] (λ _, Label None ∅))).
    + done.
    + intros s Hs. simpl in Hs.
      apply elem_of_cons in Hs as [->|Hs]; [by eexists|].
      apply list_elem_of_singleton in Hs as ->. by eexists.
Defined.

Example sys_init_two_of_three :
  sys_init_from_ts
    (MkStates ["s0"; "s1"; "s2"] ["s0"; "s2"] (λ _, Label None ∅))
    (dict_comp (λ x, (x, x)) ["s0"; "s1"; "s2"]) [] false
  = (Ok ["(s0) || (s2)"], []).
Proof. vm_compute. reflexivity. Qed.

(** ** Dead states in the system view *)

Lemma elem_of_concat {B} (b : B) (ls : list (list B)) :
  b ∈ concat ls ↔ ∃ l, b ∈ l ∧ l ∈ ls.
Proof.
  induction ls as [|l0 ls IH]; simpl.
  - split; [by intros ?%elem_of_nil|]. by intros (l & _ & ?%elem_of_nil).
  - rewrite elem_of_app, IH. split.
    + intros [Hb|(l & Hb & Hl)]; [exists l0|exists l]; split; try done.
      * left.
      * by right.
    + intros (l & Hb & [->|Hl]%elem_of_cons); [by left|right; eauto].
Qed.

(** A loop that starts from the empty list and whose body appends, for each
    [x], a chunk [c.1] with the warnings [c.2]: every chunk is part of the
    result, and every warning comes from some [x]. *)
Lemma for_in_each {A B} (body : list B → A → M (list B)) (xs : list A)
    (Q : A → list B * list string → Prop) :
  (∀ x, x ∈ xs →
        ∃ c, (∀ acc, body acc x = (Ok (acc ++ c.1), c.2)) ∧ Q x c) →
  ∃ out w,
    for_in xs body [] = (Ok out, w) ∧
    (∀ x, x ∈ xs → ∃ c, Q x c ∧ c.1 ⊆ out ∧ c.2 ⊆ w) ∧
    (∀ m, m ∈ w → ∃ x c, x ∈ xs ∧ Q x c ∧ m ∈ c.2).
Proof.
  intros Hbody.
  destruct (Forall_exists_Forall2
              (λ x c, (∀ acc, body acc x = (Ok (acc ++ c.1), c.2)) ∧ Q x c) xs)
    as [cs Hcs].
  { by apply Forall_forall. }
  exists (concat cs.*1), (concat cs.*2). split_and!.
  - rewrite (for_in_collect body xs cs []); [done|].
    eapply Forall2_impl; [exact Hcs|]. by intros ?? [? _].
  - intros x Hx. apply list_elem_of_lookup in Hx as [i Hi].
    destruct (Forall2_lookup_l _ _ _ _ _ Hcs Hi) as (c & Hc & _ & HQ).
    exists c. split_and!; [done|..].
    + intros b Hb. apply elem_of_concat. exists c.1. split; [done|].
      apply list_elem_of_fmap. exists c. split; [done|].
      by eapply list_elem_of_lookup_2.
    + intros b Hb. apply elem_of_concat. exists c.2. split; [done|].
      apply list_elem_of_fmap. exists c. split; [done|].
      by eapply list_elem_of_lookup_2.
  - intros m (l & Hm & Hl)%elem_of_concat.
    apply list_elem_of_fmap in Hl as (c & -> & Hc).
    apply list_elem_of_lookup in Hc as [i Hi].
    destruct (Forall2_lookup_r _ _ _ _ _ Hcs Hi) as (x & Hx & _ & HQ).
    exists x, c. split_and!; [|done..]. by eapply list_elem_of_lookup_2.
Qed.

Lemma elem_of_find (trans : Transitions) (s : string) t :
  t ∈ find trans [s] ↔ t.1.1 = s ∧ t ∈ trans.
Proof.
  unfold find. rewrite list_elem_of_filter, list_elem_of_singleton. done.
Qed.

(** The inner loop of [sys_trans_from_ts] over well-formed transitions. *)
Lemma sys_trans_inner (state_ids : gmap string string)
    (aids sids eids : option (gmap pyval pyval))
    (edges : list (string * string * label)) (cur : list string) :
  Forall (sys_edge_ok state_ids aids sids eids) edges →
  ∃ posts,
    for_in edges (λ cur_str '(_, to_state, label),
        to_state_id ← lift (getitem state_ids to_state);
        let postcond := pstr to_state_id in
        a ← lift (_conj_action label "env_actions" false eids);
        let postcond := postcond +:+ a in
        a ← lift (_conj_action label "sys_actions" false sids);
        let postcond := postcond +:+ a in
        a ← lift (_conj_action label "actions" false aids);
        let postcond := postcond +:+ a in
        mret (cur_str ++ [postcond])) cur
    = (Ok (cur ++ posts), []).
Proof.
  intros Hall. revert cur.
  induction Hall as [|[[f to] l] edges Hok _ IH]; intros cur.
  - exists []. simpl. by rewrite app_nil_r.
  - destruct Hok as ([tid Htid] & [a1 H1] & [a2 H2] & [a3 H3]).
    simpl in Htid, H1, H2, H3.
    destruct (IH (cur ++ [((pstr tid +:+ a1) +:+ a2) +:+ a3]))
      as [posts Hposts].
    eexists (_ :: posts). cbn [for_in].
    rewrite (getitem_Some _ _ _ Htid), M_bind_lift, H1, M_bind_lift,
      H2, M_bind_lift, H3, M_bind_lift, M_bind_ret.
    rewrite <- app_assoc in Hposts. exact Hposts.
Qed.

(** C2 (amended): for well-formed inputs, [sys_trans_from_ts] returns its
    clauses with no warning at all, and for every state with no outgoing
    transition the clauses contain [(state) -> X(False)], the state written
    as its identifier in parentheses. *)
Theorem sys_trans_dead_state (states : list string)
    (state_ids : gmap string string) (trans : Transitions)
    (action_ids sys_action_ids env_action_ids : option (gmap pyval pyval)) :
  (∀ s, s ∈ states → is_Some (state_ids !! s)) →
  (∀ t, t ∈ trans → t.1.1 ∈ states →
        sys_edge_ok state_ids action_ids sys_action_ids env_action_ids t) →
  ∃ clauses,
    sys_trans_from_ts states state_ids trans
      action_ids sys_action_ids env_action_ids = (Ok clauses, []) ∧
    ∀ s id, s ∈ states → find trans [s] = [] → state_ids !! s = Some id →
            (pstr id +:+ " -> X(False)") ∈ clauses.
Proof.
  intros Hids Hedges. unfold sys_trans_from_ts.
  set (body := λ (sys_trans : list string) (from_state : string), _).
  destruct (for_in_each body states
    (λ s c, c.2 = [] ∧
            (find trans [s] = [] → ∀ id, state_ids !! s = Some id →
             c.1 = [pstr id +:+ " -> X(False)"])))
    as (out & w & Hrun & Hin & Hw).
  { intros s Hs. destruct (Hids s Hs) as [id Hid]. unfold body.
    rewrite (getitem_Some _ _ _ Hid).
    destruct (decide (find trans [s] = [])) as [Hdead|Hlive].
    - exists ([pstr id +:+ " -> X(False)"], []). split_and!; [|done|].
      + intros acc. by rewrite M_bind_lift.
      + intros _ id' Hid'. assert (id' = id) as -> by congruence.
        reflexivity.
    - destruct (sys_trans_inner state_ids action_ids sys_action_ids
                  env_action_ids (find trans [s]) []) as [posts Hposts].
      { apply Forall_forall. intros t [Hfrom Ht]%elem_of_find.
        apply Hedges; [done|]. by rewrite Hfrom. }
      exists ([pstr id +:+ " -> X(" +:+ _disj posts +:+ ")"], []).
      split_and!; [|done|done].
      intros acc. rewrite M_bind_lift. cbv zeta in Hposts |- *.
      rewrite Hposts, M_bind_ok. reflexivity. }
  assert (w = []) as ->.
  { destruct w as [|m w]; [done|].
    destruct (Hw m) as (x & c & _ & [Hc _] & Hm); [left|].
    rewrite Hc in Hm. by apply elem_of_nil in Hm. }
  exists out. split; [exact Hrun|].
  intros s id Hs Hdead Hid.
  destruct (Hin s Hs) as (c & [_ Hc] & Hsub & _).
  apply Hsub. rewrite (Hc Hdead id Hid). left.
Qed.

Lemma sys_trans_dead_state_witness :
  ∃ clauses,
    sys_trans_from_ts ["s0"; "s1"] (dict_comp (λ x, (x, x)) ["s0"; "s1"])
      [("s0", "s1", Label None ∅)] None None None = (Ok clauses, []) ∧
    ∀ s id, s ∈ ["s0"; "s1"] →
            find [("s0", "s1", Label None ∅)] [s] = [] →
            dict_comp (λ x, (x, x)) ["s0"; "s1"] !! s = Some id →
            (pstr id +:+ " -> X(False)") ∈ clauses.
Proof.
  apply sys_trans_dead_state.
  - intros s Hs.
    apply elem_of_cons in Hs as [->|Hs]; [by eexists|].
    apply list_elem_of_singleton in Hs as ->. by eexists.
  - intros t ->%list_elem_of_singleton _.
    split_and!; [by eexists|by eexists..].
Defined.

(** The claim as stated asks for exactly one warning for a dead state.  On
    the system with the single state [s0] and no transition, the clause is
    there and no warning is recorded. *)
Lemma sys_trans_dead_state_no_warning :
  sys_trans_from_ts ["s0"] {["s0" := "s0"]} [] None None None
  = (Ok ["(s0) -> X(False)"], []) ∧
  length (sys_trans_from_ts ["s0"] {["s0" := "s0"]} [] None None None).2
  ≠ 1%nat.
Proof. split; [vm_compute; reflexivity | vm_compute; lia]. Qed.

(** ** Free transitions in the environment view *)

Lemma result_bind_Ok {A B} (m : result A) (f : A → result B) (b : B) :
  m ≫= f = Ok b → ∃ a, m = Ok a ∧ f a = Ok b.
Proof. destruct m as [a|e]; [by exists a|done]. Qed.

Lemma mapM_cons_Ok {A B} (f : A → result B) x xs ys :
  mapM f (x :: xs) = Ok ys →
  ∃ y ys', ys = y :: ys' ∧ f x = Ok y ∧ mapM f xs = Ok ys'.
Proof.
  simpl. intros (y & Hy & (ys' & Hys' & [= <-])%result_bind_Ok)%result_bind_Ok.
  by exists y, ys'.
Qed.

Lemma free_edge_no_label (sids : option (gmap pyval pyval))
    (t : string * string * label) :
  lab_attr t.2 !! "sys_actions" = None → free_edge sids t = true.
Proof. unfold free_edge, _conj_action. by intros ->. Qed.

(** The inner loop of [env_trans_from_env_ts]: the postconditions are
    collected, each in parentheses, and [found_free] is set when some
    transition is free. *)
Lemma env_trans_inner (state_ids : gmap string string)
    (aids eids sids : option (gmap pyval pyval))
    (edges : list (string * string * label)) (cur : list string) (ff : bool)
    (posts : list string) :
  mapM (env_postcond state_ids aids eids sids) edges = Ok posts →
  for_in edges (λ '(cur_list, found_free) '(_, to_state, label),
      to_state_id ← lift (getitem state_ids to_state);
      let postcond := "X" +:+ pstr to_state_id in
      a ← lift (_conj_action label "env_actions" true eids);
      let postcond := postcond +:+ a in
      a ← lift (_conj_action label "actions" true aids);
      let postcond := postcond +:+ a in
      a ← lift (_conj_action label "sys_actions" false sids);
      let postcond := postcond +:+ a in
      a ← lift (_conj_action label "sys_actions" false sids);
      let found_free := if decide (a = "") then true else found_free in
      mret (cur_list ++ [pstr postcond], found_free)) (cur, ff)
  = (Ok (cur ++ (pstr <$> posts), ff || existsb (free_edge sids) edges), []).
Proof.
  revert cur ff posts.
  induction edges as [|[[f to] l] edges IH]; intros cur ff posts Hposts.
  - injection Hposts as <-. simpl. by rewrite app_nil_r, orb_false_r.
  - apply mapM_cons_Ok in Hposts as (p & ps & -> & Hp & Hps).
    unfold env_postcond in Hp. simpl in Hp.
    apply result_bind_Ok in Hp as (tid & Htid & Hp).
    apply result_bind_Ok in Hp as (a1 & H1 & Hp).
    apply result_bind_Ok in Hp as (a2 & H2 & Hp).
    apply result_bind_Ok in Hp as (a3 & H3 & [= <-]).
    cbn [for_in].
    rewrite Htid, M_bind_lift, H1, M_bind_lift, H2, M_bind_lift,
      H3, !M_bind_lift, M_bind_ret.
    cbv zeta.
    rewrite (IH _ _ ps Hps). rewrite fmap_cons, <- app_assoc.
    do 2 f_equal.
    cbn [existsb]. unfold free_edge at 2. simpl. rewrite H3.
    destruct (decide (a3 = "")) as [->|Hne].
    + by rewrite orb_true_r.
    + rewrite bool_decide_eq_false_2 by done. by destruct ff.
Qed.

Lemma mapM_is_ok {A B} (f : A → result B) (xs : list A) :
  (∀ x, x ∈ xs → is_ok (f x)) → ∃ ys, mapM f xs = Ok ys.
Proof.
  induction xs as [|x xs IH]; intros Hok.
  - by exists [].
  - destruct (Hok x) as [y Hy]; [left|].
    destruct IH as [ys Hys]; [intros; apply Hok; by right|].
    exists (y :: ys). simpl. rewrite Hy. simpl. by rewrite Hys.
Qed.

Lemma existsb_false_elem {A} (f : A → bool) (xs : list A) :
  existsb f xs = false ↔ ∀ x, x ∈ xs → f x = false.
Proof.
  induction xs as [|x xs IH]; simpl.
  - split; [by intros _ ? ?%elem_of_nil|done].
  - rewrite orb_false_iff, IH. split.
    + intros [Hx Hxs] y [->|Hy]%elem_of_cons; auto.
    + intros Hall. split; [apply Hall; left|].
      intros y Hy. apply Hall. by right.
Qed.

(** The clauses of [env_trans_from_env_ts] on inputs it accepts, written
    with the helpers of the encoder: the clause of a state with outgoing
    transitions is [_disj] over the postconditions, with [_conj_neg] over
    the system actions as one more disjunct when no transition is free and
    [sys_action_ids] is a non-empty dictionary. *)
Lemma env_trans_from_env_ts_clauses (states : list string)
    (state_ids : gmap string string) (trans : Transitions)
    (action_ids env_action_ids sys_action_ids : option (gmap pyval pyval)) :
  (∀ s, s ∈ states → is_Some (state_ids !! s)) →
  (∀ t, t ∈ trans → t.1.1 ∈ states →
        is_ok (env_postcond state_ids action_ids env_action_ids
                 sys_action_ids t)) →
  (∀ t, lab_attr t.2 !! "sys_actions" = None →
        free_edge sys_action_ids t = true) ∧
  ∃ clauses warnings,
    env_trans_from_env_ts states state_ids trans
      action_ids env_action_ids sys_action_ids = (Ok clauses, warnings) ∧
    ∀ s id,
      s ∈ states → state_ids !! s = Some id → find trans [s] ≠ [] →
      ∃ posts,
        mapM (env_postcond state_ids action_ids env_action_ids
                sys_action_ids) (find trans [s]) = Ok posts ∧
        ((∃ t, t ∈ find trans [s] ∧ free_edge sys_action_ids t = true) →
         (pstr (pstr id) +:+ " -> (" +:+ _disj (pstr <$> posts) +:+ ")")
           ∈ clauses) ∧
        ((∀ t, t ∈ find trans [s] → free_edge sys_action_ids t = false) →
         (∀ d, sys_action_ids = Some d → d ≠ ∅ →
               (pstr (pstr id) +:+ " -> (" +:+
                _disj ((pstr <$> posts) ++ [_conj_neg (dict_values d) true])
                +:+ ")") ∈ clauses) ∧
         (sys_action_ids = None →
          (pstr (pstr id) +:+ " -> (" +:+ _disj (pstr <$> posts) +:+ ")")
            ∈ clauses)).
Proof.
  intros Hids Hedges. split; [apply free_edge_no_label|].
  unfold env_trans_from_env_ts.
  set (body := λ (env_trans : list string) (from_state : string), _).
  destruct (for_in_each body states
    (λ s c, ∀ id, state_ids !! s = Some id → find trans [s] ≠ [] →
       ∃ posts,
         mapM (env_postcond state_ids action_ids env_action_ids
                 sys_action_ids) (find trans [s]) = Ok posts ∧
         c.1 = [pstr (pstr id) +:+ " -> (" +:+
                _disj (if negb (existsb (free_edge sys_action_ids)
                                  (find trans [s]))
                          && truthy sys_action_ids
                       then (pstr <$> posts) ++
                            [_conj_neg (default [] (dict_values <$>
                                                    sys_action_ids)) true]
                       else pstr <$> posts) +:+ ")"]))
    as (out & w & Hrun & Hin & _).
  { intros s Hs. destruct (Hids s Hs) as [id Hid]. unfold body.
    rewrite (getitem_Some _ _ _ Hid).
    destruct (decide (find trans [s] = [])) as [Hdead|Hlive].
    - exists ([pstr id +:+ " -> X(False)"], [dead_end_msg]). split.
      + intros acc. by rewrite M_bind_lift.
      + by intros id' _ ?.
    - destruct (mapM_is_ok (env_postcond state_ids action_ids env_action_ids
                              sys_action_ids) (find trans [s]))
        as [posts Hposts].
      { intros t [Hfrom Ht]%elem_of_find. apply Hedges; [done|].
        by rewrite Hfrom. }
      exists ([pstr (pstr id) +:+ " -> (" +:+
                _disj (if negb (existsb (free_edge sys_action_ids)
                                  (find trans [s]))
                          && truthy sys_action_ids
                       then (pstr <$> posts) ++
                            [_conj_neg (default [] (dict_values <$>
                                                    sys_action_ids)) true]
                       else pstr <$> posts) +:+ ")"], []). split.
      + intros acc. rewrite M_bind_lift.
        pose proof (env_trans_inner _ _ _ _ _ [] false posts Hposts)
          as Hinner.
        cbv zeta in Hinner |- *.
        rewrite Hinner, M_bind_ok, app_nil_l, orb_false_l.
        destruct (negb (existsb (free_edge sys_action_ids) (find trans [s]))
                  && truthy sys_action_ids) eqn:Hcase.
        * destruct sys_action_ids as [d|];
            [|by rewrite andb_false_r in Hcase].
          simpl. reflexivity.
        * rewrite M_bind_ret. reflexivity.
      + intros id' Hid' _. assert (id' = id) as -> by congruence.
        by exists posts. }
  exists out, w. split; [exact Hrun|].
  intros s id Hs Hid Hlive.
  destruct (Hin s Hs) as (c & Hc & Hsub & _).
  destruct (Hc id Hid Hlive) as (posts & Hposts & Hclause).
  exists posts. split; [done|]. split.
  - intros (t & Ht & Hfree). apply Hsub. rewrite Hclause.
    assert (existsb (free_edge sys_action_ids) (find trans [s]) = true)
      as ->.
    { apply existsb_exists. exists t. split; [|done].
      by apply list_elem_of_In. }
    left.
  - intros Hnone. apply existsb_false_elem in Hnone.
    rewrite Hnone in Hclause. split.
    + intros d -> Hd. apply Hsub. rewrite Hclause. simpl.
      rewrite bool_decide_eq_true_2 by done. left.
    + intros ->. apply Hsub. rewrite Hclause. left.
Qed.

Lemma text_conj_neg {A} `{PyObj A} (l : list A) :
  text (conj_neg_tree l) = _conj_neg l true.
Proof. unfold conj_neg_tree, _conj_neg. simpl. by rewrite map_map. Qed.

Lemma text_disj {A} `{PyObj A} (l : list A) :
  text (disj_tree l) = _disj l.
Proof. unfold disj_tree, _disj. simpl. by rewrite map_map. Qed.

Lemma holds_conj_neg {A} `{PyObj A} (v : string → bool) (l : list A) :
  holds v (conj_neg_tree l) = true ↔ ∀ a, a ∈ l → v (str a) = false.
Proof.
  unfold conj_neg_tree. simpl. rewrite forallb_forall.
  setoid_rewrite in_map_iff. split.
  - intros Hall a Ha. apply negb_true_iff.
    apply (Hall (Neg (Paren (Atom (str a))))). exists a.
    split; [done|]. by apply list_elem_of_In.
  - intros Hall f (a & <- & Ha%list_elem_of_In). simpl.
    apply negb_true_iff. by apply Hall.
Qed.

Lemma holds_disj {A} `{PyObj A} (v : string → bool) (l : list A) :
  holds v (disj_tree l) = true ↔ ∃ a, a ∈ l ∧ v (str a) = true.
Proof.
  unfold disj_tree. simpl. rewrite existsb_exists.
  setoid_rewrite in_map_iff. split.
  - intros (f & (a & <- & Ha%list_elem_of_In) & Hf). by exists a.
  - intros (a & Ha & Hv). exists (Paren (Atom (str a))). split; [|done].
    exists a. split; [done|]. by apply list_elem_of_In.
Qed.

(** ** The environment clauses, compared with the specification *)

Lemma conj_action_spec (l : label) (key : string) (nxt : bool)
    (ids : option (gmap pyval pyval)) (c : string) :
  _conj_action l key nxt ids = Ok c ↔
  spec_conjunct ids l key (if nxt then "X" else "") c.
Proof.
  unfold _conj_action, spec_conjunct, action_id.
  destruct (lab_attr l !! key) as [a|] eqn:Hkey.
  2:{ split.
      - intros [= <-]. by left.
      - intros [[_ ->]|[[(a & [=] & _) _]|(a' & (a & [=] & _) & _)]]. done. }
  assert (∀ a' : pyval,
            (if eq_empty a' then Ok ""
             else if nxt then Ok (" && X" +:+ pstr a')
                  else Ok (" && " +:+ pstr a')) = Ok c ↔
            (a' = PStr "" ∧ c = "") ∨
            (a' ≠ PStr "" ∧
             c = " && " +:+ (if nxt then "X" else "") +:+ "(" +:+ str a'
                 +:+ ")")) as Hcase.
  { intros a'. simpl. destruct (decide (a' = PStr "")) as [->|Hne].
    - rewrite bool_decide_eq_true_2 by done. split.
      + intros [= <-]. by left.
      + by intros [[_ ->]|[? _]].
    - rewrite bool_decide_eq_false_2 by done. unfold pstr.
      destruct nxt; simpl; split.
      + intros [= <-]. by right.
      + by intros [[? _]|[_ ->]].
      + intros [= <-]. by right.
      + by intros [[? _]|[_ ->]]. }
  destruct ids as [d|].
  - unfold getitem. destruct (d !! a) as [a'|] eqn:Ha; cbn [mbind result_bind].
    + rewrite Hcase. split.
      * intros [[-> ->]|[Hne ->]].
        -- right. left. split; [|done]. by exists a.
        -- right. right. exists a'. split_and!; [|done..]. by exists a.
      * intros [[[=] _]|[[(a0 & [= <-] & Ha0) ->]
                        |(a1 & (a0 & [= <-] & Ha0) & Hne & ->)]].
        -- left. split; [congruence|done].
        -- right. assert (a1 = a') as -> by congruence. done.
    + split; [done|].
      intros [[[=] _]|[[(a0 & [= <-] & Ha0) _]
                      |(a1 & (a0 & [= <-] & Ha0) & _)]]; congruence.
  - cbn [mbind result_bind]. rewrite Hcase. split.
    + intros [[-> ->]|[Hne ->]].
      * right. left. split; [|done]. by exists (PStr "").
      * right. right. exists a. split_and!; [|done..]. by exists a.
    + intros [[[=] _]|[[(a0 & [= <-] & Ha0) ->]
                      |(a1 & (a0 & [= <-] & ->) & Hne & ->)]].
      * left. done.
      * by right.
Qed.

Lemma env_postcond_spec (state_ids : gmap string string)
    (aids eids sids : option (gmap pyval pyval))
    (t : string * string * label) (p : string) :
  env_postcond state_ids aids eids sids t = Ok p ↔
  spec_env_postcond state_ids aids eids sids t p.
Proof.
  unfold env_postcond, spec_env_postcond. split.
  - intros (to_id & Hto & Hrest)%result_bind_Ok.
    apply result_bind_Ok in Hrest as (e & He & Hrest).
    apply result_bind_Ok in Hrest as (a & Ha & Hrest).
    apply result_bind_Ok in Hrest as (s & Hs & [= <-]).
    exists to_id, e, a, s.
    apply (conj_action_spec _ _ true) in He, Ha.
    apply (conj_action_spec _ _ false) in Hs.
    split_and!; [|done..|].
    + unfold getitem in Hto. destruct (state_ids !! t.1.2); by simplify_eq.
    + unfold pstr. simpl. strnorm.
  - intros (to_id & e & a & s & Hto & He & Ha & Hs & ->).
    apply (conj_action_spec _ _ true) in He, Ha.
    apply (conj_action_spec _ _ false) in Hs.
    rewrite (getitem_Some _ _ _ Hto). cbn [mbind result_bind].
    rewrite He. cbn [mbind result_bind]. rewrite Ha.
    cbn [mbind result_bind]. rewrite Hs. cbn [mbind result_bind].
    f_equal. unfold pstr. simpl. strnorm.
Qed.

Lemma free_edge_spec (sids : option (gmap pyval pyval))
    (t : string * string * label) :
  free_edge sids t = true ↔ no_sys_action sids t.
Proof.
  unfold free_edge, no_sys_action.
  destruct (_conj_action t.2 "sys_actions" false sids) as [c|e] eqn:Hc.
  - apply (conj_action_spec _ _ false) in Hc.
    rewrite bool_decide_eq_true. split.
    + intros ->. destruct Hc as [[Hk _]|[[Hid _]|(a' & _ & _ & Hc)]]; auto.
      discriminate Hc.
    + intros Hfree.
      destruct Hc as [[_ ->]|[[_ ->]|(a' & (a & Ha & Hid) & Hne & ->)]];
        [done..|].
      exfalso. destruct Hfree as [Hk|(a0 & Ha0 & Hid0)]; [congruence|].
      assert (a0 = a) as -> by congruence.
      destruct sids as [d|]; congruence.
  - split; [done|]. intros Hfree. exfalso.
    assert (spec_conjunct sids t.2 "sys_actions" "" "") as Hspec.
    { destruct Hfree as [Hk|Hid]; [by left|right; by left]. }
    apply (conj_action_spec _ _ false) in Hspec. congruence.
Qed.

Lemma disj_parens (posts extra : list string) :
  _disj ((pstr <$> posts) ++ extra)
  = join " || " (map (λ p, "((" +:+ p +:+ "))") posts
                 ++ map (λ x, "(" +:+ x +:+ ")") extra).
Proof.
  unfold _disj. rewrite map_app. f_equal. f_equal.
  rewrite <- list_fmap_compose. apply list_fmap_ext.
  intros _ p _. unfold pstr. simpl. strnorm.
Qed.



Example env_trans_one_free :
  env_trans_from_env_ts ["s0"] {["s0" := "s0"]}
    [("s0", "s0", Label None {["sys_actions" := PStr "right"]});
     ("s0", "s0", Label None ∅)]
    None None (Some {[PStr "right" := PStr "right"]})
  = (Ok ["((s0)) -> (((X(s0) && (right))) || ((X(s0))))"], []).
Proof. vm_compute. reflexivity. Qed.

Example env_trans_dead_end_warns :
  env_trans_from_env_ts ["s0"] {["s0" := "s0"]} [] None None None
  = (Ok ["(s0) -> X(False)"], [dead_end_msg]).
Proof. vm_compute. reflexivity. Qed.

(** ** Rendering of the syntax tree *)

Section rendering.
Import ast.

(** Every flattener helper fails on a handle with [AttributeError], so
    [Binary.flatten] falls back on [str] of the handle. *)
Lemma Binary_flatten_fallback (g : DiGraph) (self : node)
    (flattener : handle → result string) (op_arg : option string)
    (out : string) :
  (∀ h, flattener h = Raise AttributeError) →
  Binary_flatten g self flattener op_arg = Ok out →
  ∃ hl hr tok,
    op_l g self = Ok hl ∧ op_r g self = Ok hr ∧
    out = join " " ["("; str hl; tok; str hr; ")"].
Proof.
  intros Hfl. unfold Binary_flatten.
  intros (tok & _ & Hrest)%result_bind_Ok.
  destruct (op_l g self) as [hl|el] eqn:Hl.
  2:{ by destruct el. }
  destruct (op_r g self) as [hr|er] eqn:Hr.
  2:{ simpl in Hrest. rewrite Hfl in Hrest. simpl in Hrest. by destruct er. }
  simpl in Hrest. rewrite !Hfl in Hrest. simpl in Hrest.
  injection Hrest as <-. by exists hl, hr, tok.
Qed.

Lemma enclosed_flat (l tok r : string) :
  enclosed l (join " " ["("; l; tok; r; ")"]) ∧
  enclosed r (join " " ["("; l; tok; r; ")"]).
Proof.
  split.
  - exists "", " ", (" " +:+ tok +:+ " " +:+ r +:+ " "), "".
    unfold join. simpl. strnorm.
  - exists "", (" " +:+ l +:+ " " +:+ tok +:+ " "), " ", "".
    unfold join. simpl. strnorm.
Qed.

Lemma except_KeyError_Ok {A} (body handler : result A) (a : A) :
  (∀ x, handler ≠ Ok x) → except_KeyError body handler = Ok a →
  body = Ok a.
Proof.
  intros Hh. destruct body as [b|[]]; simpl; try done.
  intros Ha. by destruct (Hh a).
Qed.

Lemma raise_after_op (self : node) (f : string → exn) (x : string) :
  (o ← op self; Raise (f o)) ≠ Ok x.
Proof. by destruct (op self). Qed.

Lemma str_fallback (g : DiGraph) (self : node)
    (child : DiGraph → node → result handle) (s : string) :
  except_AttributeError (x ← child g self; py_str x)
                        (x ← child g self; Ok (str x)) = Ok s →
  ∃ h, child g self = Ok h ∧ s = str h.
Proof.
  destruct (child g self) as [h|[]]; simpl; try done.
  intros [= <-]. by exists h.
Qed.

(** Every way a binary node is rendered ends in [Binary.flatten] with one
    of the flattener helpers, but for [to_python] of [Imp] and [BiImp]. *)
Ltac to_flatten H :=
  repeat match type of H with
    | except_KeyError _ _ = Ok _ =>
        apply except_KeyError_Ok in H; [|apply raise_after_op]
    | (_ ≫= _) = Ok _ =>
        apply result_bind_Ok in H as (? & _ & H); cbv beta in H
    | context [decide ?P] => destruct (decide P)
    end;
  (apply Binary_flatten_fallback in H; [|done]).

(** [Binary.flatten] with any flattener and any operator token: the two
    operand texts, each the flattener's or [str] of the handle when the
    flattener raised [AttributeError], stand inside one pair of
    parentheses. *)
Lemma Binary_flatten_shape (g : DiGraph) (self : node)
    (flattener : handle → result string) (op_arg : option string)
    (out : string) :
  Binary_flatten g self flattener op_arg = Ok out →
  ∃ hl hr l r tok,
    op_l g self = Ok hl ∧ op_r g self = Ok hr ∧
    (flattener hl = Ok l ∨ flattener hl = Raise AttributeError ∧ l = str hl) ∧
    (flattener hr = Ok r ∨ flattener hr = Raise AttributeError ∧ r = str hr) ∧
    out = join " " ["("; l; tok; r; ")"].
Proof.
  unfold Binary_flatten.
  intros (tok & _ & Hrest)%result_bind_Ok.
  apply result_bind_Ok in Hrest as (l & Hl & Hrest).
  apply result_bind_Ok in Hrest as (r & Hr & [= <-]).
  destruct (op_l g self) as [hl|[]]; try discriminate Hl.
  destruct (op_r g self) as [hr|[]]; try discriminate Hr.
  simpl in Hl, Hr. exists hl, hr, l, r, tok. split_and!; try done.
  - destruct (flattener hl) as [l'|[]]; simplify_eq/=; auto.
  - destruct (flattener hr) as [r'|[]]; simplify_eq/=; auto.
Qed.

(** The shape of a rendered binary node.  For every binary node and every
    graph,
    - [Binary.flatten], with any flattener and any operator token, writes
      [( l op r )]: both operand texts stand between the opening and the
      closing parenthesis, whatever the operator is;
    - in each of the five dialects, when the node is rendered the text of
      its left operand and the text of its right operand both stand between
      an opening and a closing parenthesis of the output.  The operand texts
      are the ones the method obtains for [op_l] and [op_r]. *)
Theorem binary_operands_parenthesized (g : DiGraph) (self : node) :
  is_binary (class self) = true →
  (∀ flattener op_arg out,
     Binary_flatten g self flattener op_arg = Ok out →
     ∃ l r tok,
       out = join " " ["("; l; tok; r; ")"] ∧
       enclosed l out ∧ enclosed r out) ∧
  (∀ d out,
     render d g self = Ok out →
     ∃ hl hr,
       op_l g self = Ok hl ∧ op_r g self = Ok hr ∧
       enclosed (str hl) out ∧ enclosed (str hr) out).
Proof.
  intros Hbin. split.
  { intros flattener op_arg out Hout.
    apply Binary_flatten_shape in Hout
      as (hl & hr & l & r & tok & _ & _ & _ & _ & ->).
    exists l, r, tok. split; [done|]. apply enclosed_flat. }
  intros d out Hout.
  assert ((∃ hl hr tok, op_l g self = Ok hl ∧ op_r g self = Ok hr ∧
                        out = join " " ["("; str hl; tok; str hr; ")"]) ∨
          (∃ hl hr, op_l g self = Ok hl ∧ op_r g self = Ok hr ∧
             (out = "( (not (" +:+ str hl +:+ ")) or " +:+ str hr +:+ ")" ∨
              out = "( " +:+ str hl +:+ " and " +:+ str hr
                    +:+ " ) or not ( " +:+ str hl +:+ " or " +:+ str hr
                    +:+ " )"))) as [Hflat|Hpy].
  { destruct d; unfold render, to_gr1c, to_jtlv, to_smv, to_promela,
      to_python, flatten in Hout;
      destruct (class self); try discriminate Hbin;
      try (left; to_flatten Hout; exact Hout).
    - right.
      apply result_bind_Ok in Hout as (l & (hl & Hl & ->)%str_fallback & Hout).
      apply result_bind_Ok in Hout as (r & (hr & Hr & ->)%str_fallback & Hout).
      injection Hout as <-. exists hl, hr. auto.
    - right.
      apply result_bind_Ok in Hout as (l & (hl & Hl & ->)%str_fallback & Hout).
      apply result_bind_Ok in Hout as (r & (hr & Hr & ->)%str_fallback & Hout).
      injection Hout as <-. exists hl, hr. auto. }
  - destruct Hflat as (hl & hr & tok & Hl & Hr & ->).
    exists hl, hr. split_and!; [done..| |]; apply enclosed_flat.
  - destruct Hpy as (hl & hr & Hl & Hr & [-> | ->]);
      exists hl, hr; split_and!; try done.
    + exists "( (not ", "", "", (") or " +:+ str hr +:+ ")"). strnorm.
    + exists "", (" (not (" +:+ str hl +:+ ")) or "), "", "". strnorm.
    + exists "", " ", (" and " +:+ str hr +:+ " "),
        (" or not ( " +:+ str hl +:+ " or " +:+ str hr +:+ " )"). strnorm.
    + exists "", (" " +:+ str hl +:+ " and "), " ",
        (" or not ( " +:+ str hl +:+ " or " +:+ str hr +:+ " )"). strnorm.
Qed.

(** The node [a && b] in the JTLV syntax. *)
Lemma binary_operands_parenthesized_witness :
  render Jtlv a_and_b.2 a_and_b.1 = Ok "( 1 && 2 )" ∧
  ∃ hl hr,
    op_l a_and_b.2 a_and_b.1 = Ok hl ∧ op_r a_and_b.2 a_and_b.1 = Ok hr ∧
    enclosed (str hl) "( 1 && 2 )" ∧ enclosed (str hr) "( 1 && 2 )".
Proof.
  assert (render Jtlv a_and_b.2 a_and_b.1 = Ok "( 1 && 2 )") as Hrender.
  { vm_compute. reflexivity. }
  split; [exact Hrender|].
  apply (proj2 (binary_operands_parenthesized a_and_b.2 a_and_b.1 eq_refl)
           Jtlv _ Hrender).
Defined.

(** *** The graph after a constructor *)

Lemma succ_touch (g : DiGraph) (u v : Z) adj :
  succ g !! u = Some adj → succ (touch v g) !! u = Some adj.
Proof.
  intros Hu. unfold touch. destruct (succ g !! v) eqn:Hv; [done|].
  simpl. rewrite lookup_insert_ne; [done|]. intros ->. congruence.
Qed.

Lemma succ_Node_init (self : node) (g : DiGraph) :
  succ g !! id self = None → succ (Node_init self g) !! id self = Some [].
Proof.
  intros Hu. unfold Node_init, add_node, touch. rewrite Hu. simpl.
  apply lookup_insert_eq.
Qed.

Lemma succ_add_edge (g : DiGraph) (u v : Z) pos adj :
  succ g !! u = Some adj →
  succ (add_edge u v pos g) !! u = Some (set_edge v pos adj).
Proof.
  intros Hu. unfold add_edge. simpl. rewrite lookup_alter_eq.
  rewrite (succ_touch _ u v adj); [done|]. by apply succ_touch.
Qed.

Lemma succ_Unary_init c operator (x : node) u g :
  succ g !! u = None →
  succ (Unary_init c operator x u g).2 !! u = Some [(id x, None)].
Proof.
  intros Hu. unfold Unary_init. cbn [snd].
  rewrite (succ_add_edge _ u (id x) None []); [done|].
  by apply (succ_Node_init (Node u c (Some operator) None)).
Qed.

Lemma succ_Binary_init c operator (x y : node) u g :
  succ g !! u = None →
  succ (Binary_init c operator x y u g).2 !! u
  = Some (set_edge (id y) (Some "right") [(id x, Some "left")]).
Proof.
  intros Hu. unfold Binary_init. cbn [snd].
  rewrite (succ_add_edge _ u (id y) _ [(id x, Some "left")]); [done|].
  rewrite (succ_add_edge _ u (id x) _ []); [done|].
  by apply (succ_Node_init (Node u c (Some operator) None)).
Qed.

Lemma Binary_init_children c operator (x y : node) u g :
  succ g !! u = None →
  ∃ hl,
    op_l (Binary_init c operator x y u g).2 (Binary_init c operator x y u g).1
    = Ok hl ∧
    op_r (Binary_init c operator x y u g).2 (Binary_init c operator x y u g).1
    = Ok (Some (id y)).
Proof.
  intros Hu. unfold op_l, op_r, _child.
  change (id (Binary_init c operator x y u g).1) with u.
  rewrite (succ_Binary_init _ _ _ _ _ _ Hu). unfold set_edge.
  destruct (decide (id x = id y)) as [Heq|Hne]; simpl.
  - eexists. split; [reflexivity|].
    destruct (decide ("right" = "right")); [by rewrite Heq|done].
  - eexists. split; [reflexivity|].
    destruct (decide ("right" = "right")); [done|done].
Qed.

Lemma Binary_flatten_ok (g : DiGraph) (self : node)
    (flattener : handle → result string) (op_arg : option string)
    (hl hr : handle) (tok : string) :
  op_l g self = Ok hl → op_r g self = Ok hr →
  (∀ h, flattener h = Raise AttributeError) →
  match op_arg with Some o => Ok o | None => op self end = Ok tok →
  Binary_flatten g self flattener op_arg
  = Ok (join " " ["("; str hl; tok; str hr; ")"]).
Proof.
  intros Hl Hr Hfl Hop. unfold Binary_flatten.
  rewrite Hop, Hl, Hr. simpl. by rewrite !Hfl.
Qed.

(** X19: a binary node fresh from its constructor, other than a temporal
    operator, is rendered in each of the five syntaxes without an
    exception, whatever its operands are. *)
Lemma binary_render_total c operator (x y : node) u g (d : dialect) :
  is_binary c = true → c ≠ BiTempOp → succ g !! u = None →
  is_ok (render d (Binary_init c operator x y u g).2
                  (Binary_init c operator x y u g).1).
Proof.
  intros Hbin Htemp Hu.
  destruct (Binary_init_children c operator x y u g Hu) as (hl & Hl & Hr).
  pose proof (λ fl op_arg tok, Binary_flatten_ok _ _ fl op_arg _ _ tok Hl Hr)
    as Hflat.
  revert Hl Hr Hflat.
  generalize (Binary_init c operator x y u g).2 as g'.
  change (Binary_init c operator x y u g).1
    with (Node u c (Some operator) None).
  intros g' Hl Hr Hflat.
  destruct d, c; try discriminate Hbin; try done;
    unfold render, to_gr1c, to_jtlv, to_smv, to_promela, to_python, flatten;
    cbn [class];
    try (eexists; apply Hflat; [done|reflexivity]).
  - simpl. destruct (decide (operator = "="));
      eexists; apply Hflat; [done|reflexivity|done|reflexivity].
  - rewrite Hl, Hr. simpl. by eexists.
  - rewrite Hl, Hr. simpl. by eexists.
  - simpl. destruct (decide (operator = "="));
      eexists; apply Hflat; [done|reflexivity|done|reflexivity].
Qed.

Lemma binary_render_total_witness :
  is_ok (render Smv
           (Binary_init Xor "xor" (Node 1 Var None (Some (VStr "a")))
              (Node 2 Var None (Some (VStr "b"))) 3 empty_graph).2
           (Binary_init Xor "xor" (Node 1 Var None (Some (VStr "a")))
              (Node 2 Var None (Some (VStr "b"))) 3 empty_graph).1).
Proof. apply binary_render_total; [reflexivity|done|reflexivity]. Defined.

(** A unary node renders its operand as the key of the child, whatever
    the child is. *)
Lemma Unary_flatten_key c operator (x : node) u g
    (flattener : handle → result string) (op_arg : option string)
    (tok : string) :
  succ g !! u = None →
  (∀ h, flattener h = Raise AttributeError) →
  match op_arg with
  | Some o => Ok o
  | None => op (Unary_init c operator x u g).1
  end = Ok tok →
  Unary_flatten (Unary_init c operator x u g).2
    (Unary_init c operator x u g).1 flattener op_arg
  = Ok (join " " ["("; tok; pretty (id x); ")"]).
Proof.
  intros Hu Hfl Hop. unfold Unary_flatten, operand. rewrite Hop.
  change (id (Unary_init c operator x u g).1) with u.
  unfold getitem. rewrite (succ_Unary_init _ _ _ _ _ Hu). simpl.
  by rewrite Hfl.
Qed.

(** X20: the negation of any node renders without error in the two solver
    syntaxes, as [( ! k )] with [k] the key of the operand in the graph:
    the operand itself is never rendered. *)
Lemma Not_renders_key operator (x : node) u g primed :
  succ g !! u = None →
  to_gr1c (new_Not operator x u g).2 (new_Not operator x u g).1 primed
  = Ok ("( ! " +:+ pretty (id x) +:+ " )") ∧
  to_jtlv (new_Not operator x u g).2 (new_Not operator x u g).1
  = Ok ("( ! " +:+ pretty (id x) +:+ " )").
Proof.
  intros Hu. unfold new_Not, to_gr1c, to_jtlv, flatten.
  change (class (Unary_init Not operator x u g).1) with Not. cbv iota.
  split.
  - by rewrite (Unary_flatten_key Not operator x u g _ None "!" Hu).
  - by rewrite (Unary_flatten_key Not operator x u g _ None "!" Hu).
Qed.

Lemma Not_renders_key_witness :
  to_gr1c (new_Not "!" (Node 1 Var None (Some (VStr "a"))) 2 empty_graph).2
    (new_Not "!" (Node 1 Var None (Some (VStr "a"))) 2 empty_graph).1 false
  = Ok "( ! 1 )".
Proof.
  destruct (Not_renders_key "!" (Node 1 Var None (Some (VStr "a"))) 2
              empty_graph false) as [Hgr1c _]; [reflexivity|].
  rewrite Hgr1c. vm_compute. reflexivity.
Defined.

Lemma TEMPORAL_OP_MAP_release (operator : string) :
  operator = "R" ∨ operator = "V" →
  getitem TEMPORAL_OP_MAP operator = Ok "R".
Proof. intros [-> | ->]; vm_compute; reflexivity. Qed.

(** A release node at the root is refused by the two solver syntaxes, with
    a message that names the operator and the syntax. *)
Lemma release_root_unsupported operator (x y : node) u g0 self g primed :
  operator = "R" ∨ operator = "V" →
  new_BiTempOp operator x y u g0 = Ok (self, g) →
  to_gr1c g self primed
  = Raise (LTLException "Operator R not supported in gr1c syntax map") ∧
  to_jtlv g self
  = Raise (LTLException "Operator R not supported in JTLV syntax map").
Proof.
  intros Hop. unfold new_BiTempOp.
  rewrite (TEMPORAL_OP_MAP_release _ Hop). simpl. intros [= <- <-].
  split; vm_compute; reflexivity.
Qed.

(** C6, on the code: the formula [!(a R b)] contains a release node, and
    both [to_gr1c] and [to_jtlv] return a text for it instead of raising:
    the negation writes the key of its operand, 3, and the release node is
    never rendered. *)
Theorem release_under_not_renders :
  ∃ root g,
    not_release = Ok (root, g) ∧
    to_gr1c g root false = Ok "( ! 3 )" ∧
    to_jtlv g root = Ok "( ! 3 )".
Proof. do 2 eexists. split_and!; vm_compute; reflexivity. Qed.
End rendering.

(** ** The operands of a binary node *)

Section operands.
Import ast.

Lemma chars_append (s t : string) :
  String.list_ascii_of_string (s +:+ t)
  = String.list_ascii_of_string s ++ String.list_ascii_of_string t.
Proof.
  induction s as [|c s IH]; [done|]. rewrite app_cons. simpl. by rewrite IH.
Qed.

(** A text that stands between parentheses of [out] is a part of [out]:
    each of its characters is one of [out]. *)
Lemma enclosed_chars (x out : string) (c : ascii) :
  enclosed x out →
  c ∈ String.list_ascii_of_string x → c ∈ String.list_ascii_of_string out.
Proof.
  intros (pre & mid1 & mid2 & post & ->) Hc.
  rewrite !chars_append, !elem_of_app. auto 10.
Qed.

(** C9, on the code: in the formula [x && y], the variables render as
    [x] and [y] (with a prime or in parentheses in the two solver syntaxes)
    but the conjunction renders, in each of the five syntaxes, as the
    operator between the graph keys 1 and 2 of its operands: the rendered
    text of an operand is no part of the output, in parentheses or not. *)
Theorem binary_operands_not_rendered (d : dialect) :
  let x := Node 1 Var None (Some (VStr "x")) in
  let y := Node 2 Var None (Some (VStr "y")) in
  ∃ tx ty out,
    render d x_and_y.2 x = Ok tx ∧ render d x_and_y.2 y = Ok ty ∧
    render d x_and_y.2 x_and_y.1 = Ok out ∧
    (tx, ty) = match d with
               | Gr1c true => ("x'", "y'")
               | Jtlv => ("(x)", "(y)")
               | _ => ("x", "y")
               end ∧
    out = match d with
          | Gr1c _ | Smv => "( 1 & 2 )"
          | Jtlv | Promela => "( 1 && 2 )"
          | Python => "( 1 and 2 )"
          end ∧
    ¬ enclosed tx out ∧ ¬ enclosed ty out.
Proof.
  intros x y.
  assert (∀ (c : ascii) (t out : string),
            c ∈ String.list_ascii_of_string t →
            c ∉ String.list_ascii_of_string out → ¬ enclosed t out)
    as Hpart.
  { intros c t out Hc Hout Henc. by apply Hout, (enclosed_chars t). }
  destruct d as [[|]| | | |]; do 3 eexists;
    (split_and!; [vm_compute; reflexivity..|reflexivity|reflexivity| |]);
    [apply (Hpart "x"%char)|apply (Hpart "y"%char)|
     apply (Hpart "x"%char)|apply (Hpart "y"%char)|
     apply (Hpart "x"%char)|apply (Hpart "y"%char)|
     apply (Hpart "x"%char)|apply (Hpart "y"%char)|
     apply (Hpart "x"%char)|apply (Hpart "y"%char)|
     apply (Hpart "x"%char)|apply (Hpart "y"%char)];
    rewrite list_elem_of_In; simpl; intuition discriminate.
Qed.
End operands.

(** * Further properties of the encoder *)

(** ** What the constraints mean *)

Section meaning.
Context {A : Type} `{PyObj A, EqDecision A}.
Implicit Types (l : list A) (v : string → bool).

(** X1: the formula of [mutex(L)] is the text of [mutex_tree L], and a
    valuation satisfies it exactly when no two different non-empty labels of
    [L] hold together. *)
Theorem mutex_at_most_one l v :
  mutex l = text <$> mutex_tree l ∧
  (models v (mutex_tree l) ↔
   ∀ x y, x ∈ l → y ∈ l → eq_empty x = false → eq_empty y = false →
          x ≠ y → v (str x) = true → v (str y) = false).
Proof.
  split; [symmetry; apply mutex_text|].
  unfold mutex_tree. set (l' := filter (λ x, eq_empty x = false) l).
  assert (∀ x, x ∈ l' ↔ x ∈ l ∧ eq_empty x = false) as Hl'.
  { intros x. unfold l'. rewrite list_elem_of_filter. tauto. }
  destruct (decide (length l' ≤ 1)%nat) as [Hfew|Hmany].
  - split; [|constructor]. intros _ x y Hx Hy Hex Hey Hne.
    assert (x ∈ l') as Hx' by by apply Hl'.
    assert (y ∈ l') as Hy' by by apply Hl'.
    destruct l' as [|a [|b l'']]; simpl in Hfew; try lia.
    + by apply elem_of_nil in Hx'.
    + apply list_elem_of_singleton in Hx', Hy'. congruence.
  - unfold models. rewrite Forall_singleton. simpl.
    rewrite forallb_forall. split.
    + intros Hall x y Hx Hy Hex Hey Hne Hvx.
      specialize (Hall (Paren (BinOr (Neg (Paren (Atom (str x))))
                                     (Paren (conj_neg_diff_tree l' [x]))))).
      simpl in Hall. rewrite Hvx in Hall. simpl in Hall.
      assert (holds v (conj_neg_diff_tree l' [x]) = true) as Hrest.
      { apply Hall, in_map_iff. exists x. split; [done|].
        apply list_elem_of_In, Hl'. done. }
      apply (proj1 (holds_conj_neg_diff v l' [x]) Hrest y).
      * by apply Hl'.
      * intros ->%list_elem_of_singleton. done.
    + intros Hall f (x & <- & Hx%list_elem_of_In)%in_map_iff. simpl.
      destruct (v (str x)) eqn:Hvx; [|done]. simpl.
      apply holds_conj_neg_diff. intros y Hy Hn.
      apply Hl' in Hx as [Hx Hex]. apply Hl' in Hy as [Hy Hey].
      apply (Hall x y); try done.
      intros ->. apply Hn. left.
Qed.

(** X2: the formula of [exactly_one(L)] is the text of
    [exactly_one_tree L]; for a non-empty [L] a valuation satisfies it
    exactly when some label of [L] holds and every different label of [L]
    does not, and for the empty [L] it constrains nothing. *)
Theorem exactly_one_one_holds l v :
  exactly_one l = text <$> exactly_one_tree l ∧
  (l = [] → models v (exactly_one_tree l)) ∧
  (l ≠ [] →
   (models v (exactly_one_tree l) ↔
    ∃ x, x ∈ l ∧ v (str x) = true ∧
         ∀ y, y ∈ l → y ≠ x → v (str y) = false)).
Proof.
  split; [symmetry; apply exactly_one_text|]. split.
  { intros ->. constructor. }
  intros Hne. split.
  - destruct (decide (1 < length l)%nat) as [Hlen|Hlen].
    { by apply models_exactly_one. }
    destruct l as [|x [|y l']]; simpl in Hlen; try lia; [done|].
    unfold exactly_one_tree. simpl. intros Hm%Forall_inv. simpl in Hm.
    exists x. split_and!; [left|done|].
    intros y ->%list_elem_of_singleton. done.
  - intros (x & Hx & Hvx & Hothers). unfold exactly_one_tree.
    destruct (decide (length l ≤ 1)%nat) as [Hfew|Hmany].
    + destruct l as [|a [|b l']]; simpl in Hfew; try lia; [done|].
      apply list_elem_of_singleton in Hx as ->.
      constructor; [exact Hvx|constructor].
    + constructor; [|constructor]. simpl. apply existsb_exists.
      exists (Paren (BinAnd (Paren (Atom (str x)))
                            (conj_neg_diff_tree l [x]))).
      split.
      * apply in_map_iff. exists x. split; [done|]. by apply list_elem_of_In.
      * simpl. rewrite Hvx. simpl. apply holds_conj_neg_diff.
        intros y Hy Hn. apply Hothers; [done|].
        intros ->. apply Hn. left.
Qed.
End meaning.

(** ** The label formula of a state *)

Lemma app_empty_r_str (s : string) : s +:+ "" = s.
Proof. induction s as [|c s IH]; [done|]. by rewrite app_cons, IH. Qed.

Lemma length_zero_str (s : string) : ¬ (0 < String.length s)%nat → s = "".
Proof. destruct s; [done|]. simpl. lia. Qed.

Lemma join_nonempty (sep : string) (l : list string) :
  l ≠ [] → (∀ x, x ∈ l → x ≠ "") → join sep l ≠ "".
Proof.
  intros Hne Hall. destruct l as [|x l]; [done|].
  assert (x ≠ "") as Hx by (apply Hall; left).
  destruct x as [|c x]; [done|].
  unfold join. simpl. destruct l; [done|]. by rewrite app_cons.
Qed.

Lemma join_empty_nil (sep : string) (l : list string) :
  (∀ x, x ∈ l → x ≠ "") → join sep l = "" → l = [].
Proof.
  intros Hall Hj. destruct (decide (l = [])) as [|Hne]; [done|].
  by destruct (join_nonempty sep l Hne Hall).
Qed.

Lemma sprint_aps_text (label : label) (aps : list string) :
  text (sprint_aps_tree label aps) = sprint_aps label aps.
Proof.
  unfold sprint_aps_tree, sprint_aps.
  set (pos := match lab_ap label with
              | Some ap => Conj (map Atom (filter (λ x, x ∈ ap) aps))
              | None => Conj [] end).
  set (neg := match lab_ap label with
              | Some ap => Conj (map (λ x, Neg (Atom x))
                                     (filter (λ x, x ∉ ap) aps))
              | None => Conj (map (λ x, Neg (Atom x)) aps) end).
  assert (text pos = match lab_ap label with
                     | Some ap => _conj_intersection aps ap false
                     | None => "" end) as <-.
  { unfold pos, _conj_intersection. destruct (lab_ap label); [|done].
    simpl. by rewrite map_map. }
  assert (text neg = match lab_ap label with
                     | Some ap => _conj_neg_diff aps ap false
                     | None => _conj_neg aps false end) as <-.
  { unfold neg, _conj_neg_diff, _conj_neg.
    destruct (lab_ap label); simpl; by rewrite map_map. }
  destruct (bool_decide (0 < String.length (text pos))%nat) eqn:Hp;
    destruct (bool_decide (0 < String.length (text neg))%nat) eqn:Hn;
    simpl; [done|..].
  - apply bool_decide_eq_false_1, length_zero_str in Hn. rewrite Hn.
    rewrite app_empty_r_str.
    destruct (bool_decide (text pos = "")) eqn:He; [|done].
    apply bool_decide_eq_true_1 in He. by rewrite He.
  - apply bool_decide_eq_false_1, length_zero_str in Hp. rewrite Hp.
    by rewrite bool_decide_eq_true_2.
  - apply bool_decide_eq_false_1, length_zero_str in Hp. rewrite Hp.
    by rewrite bool_decide_eq_true_2.
Qed.

(** The propositions a label makes true: those of its key ['ap'], none
    without the key. *)
Lemma forallb_atoms (v : string → bool) (l : list string) :
  forallb (holds v) (map Atom l) = true ↔ ∀ a, a ∈ l → v a = true.
Proof.
  rewrite forallb_forall. split.
  - intros Hall a Ha. apply (Hall (Atom a)), in_map_iff.
    exists a. split; [done|]. by apply list_elem_of_In.
  - intros Hall f (a & <- & Ha%list_elem_of_In)%in_map_iff. by apply Hall.
Qed.

Lemma forallb_neg_atoms (v : string → bool) (l : list string) :
  forallb (holds v) (map (λ x, Neg (Atom x)) l) = true ↔
  ∀ a, a ∈ l → v a = false.
Proof.
  rewrite forallb_forall. split.
  - intros Hall a Ha. apply negb_true_iff.
    apply (Hall (Neg (Atom a))), in_map_iff.
    exists a. split; [done|]. by apply list_elem_of_In.
  - intros Hall f (a & <- & Ha%list_elem_of_In)%in_map_iff. simpl.
    apply negb_true_iff. by apply Hall.
Qed.

(** X3: the formula of [sprint_aps(label, aps)] is the text of
    [sprint_aps_tree label aps]; when no proposition has an empty name, a
    valuation satisfies it exactly when it makes true the propositions of
    [aps] that the label holds and false all the others. *)
Theorem sprint_aps_pins_label (label : label) (aps : list string)
    (v : string → bool) :
  "" ∉ aps →
  sprint_aps label aps = text (sprint_aps_tree label aps) ∧
  (holds v (sprint_aps_tree label aps) = true ↔
   ∀ a, a ∈ aps →
        v a = bool_decide (a ∈ default [] (lab_ap label))).
Proof.
  intros Hnames. split; [symmetry; apply sprint_aps_text|].
  unfold sprint_aps_tree.
  set (ap := default [] (lab_ap label)).
  set (P := filter (λ x, x ∈ ap) aps). set (N := filter (λ x, x ∉ ap) aps).
  assert (match lab_ap label with
          | Some ap => Conj (map Atom (filter (λ x, x ∈ ap) aps))
          | None => Conj [] end = Conj (map Atom P)) as ->.
  { unfold P, ap. destruct (lab_ap label); simpl; [done|].
    f_equal. symmetry. clear. induction aps as [|a aps IH]; [done|].
    rewrite filter_cons. destruct (decide (a ∈ [])) as [Hin|]; [|done].
    by apply elem_of_nil in Hin. }
  assert (match lab_ap label with
          | Some ap => Conj (map (λ x, Neg (Atom x))
                                 (filter (λ x, x ∉ ap) aps))
          | None => Conj (map (λ x, Neg (Atom x)) aps) end
          = Conj (map (λ x, Neg (Atom x)) N)) as ->.
  { unfold N, ap. destruct (lab_ap label); simpl; [done|].
    do 2 f_equal. clear. induction aps as [|a aps IH]; [done|].
    rewrite filter_cons. destruct (decide (a ∉ [])) as [|Hin]; [by f_equal|].
    destruct Hin. apply not_elem_of_nil. }
  assert ((forallb (holds v) (map Atom P) = true ∧
           forallb (holds v) (map (λ x, Neg (Atom x)) N) = true) ↔
          ∀ a, a ∈ aps → v a = bool_decide (a ∈ ap)) as Hboth.
  { rewrite forallb_atoms, forallb_neg_atoms. unfold P, N. split.
    - intros [Hp Hn] a Ha. destruct (decide (a ∈ ap)) as [Hin|Hout].
      + rewrite bool_decide_eq_true_2 by done.
        apply Hp, list_elem_of_filter. done.
      + rewrite bool_decide_eq_false_2 by done.
        apply Hn, list_elem_of_filter. done.
    - intros Hall. split; intros a [Hin Ha]%list_elem_of_filter;
        rewrite (Hall a Ha).
      + by apply bool_decide_eq_true_2.
      + by apply bool_decide_eq_false_2. }
  assert (text (Conj (map Atom P)) = "" → P = []) as HP.
  { simpl. rewrite map_map. simpl. intros Hj.
    apply (join_empty_nil " && ") in Hj; [by apply map_eq_nil in Hj|].
    intros x (a & -> & [_ Ha]%list_elem_of_filter)%list_elem_of_fmap.
    intros ->. done. }
  assert (text (Conj (map (λ x, Neg (Atom x)) N)) = "" → N = []) as HN.
  { simpl. rewrite map_map. simpl. intros Hj.
    apply (join_empty_nil " && ") in Hj; [by apply map_eq_nil in Hj|].
    intros x (a & -> & _)%list_elem_of_fmap. done. }
  destruct (bool_decide (0 < String.length (text (Conj (map Atom P))))%nat)
    eqn:Hp;
    destruct (bool_decide
                (0 < String.length
                       (text (Conj (map (λ x, Neg (Atom x)) N))))%nat) eqn:Hn;
    cbn [andb].
  - cbn [holds]. by rewrite andb_true_iff.
  - apply bool_decide_eq_false_1, length_zero_str, HN in Hn.
    destruct (bool_decide (text (Conj (map Atom P)) = "")) eqn:He.
    + apply bool_decide_eq_true_1, HP in He.
      rewrite <- Hboth, He, Hn. simpl. tauto.
    + rewrite <- Hboth, Hn. cbn [holds map forallb]. tauto.
  - apply bool_decide_eq_false_1, length_zero_str in Hp.
    rewrite bool_decide_eq_true_2 by done. apply HP in Hp.
    rewrite <- Hboth, Hp. cbn [holds map forallb]. tauto.
  - apply bool_decide_eq_false_1, length_zero_str in Hp.
    rewrite bool_decide_eq_true_2 by done. apply HP in Hp.
    rewrite <- Hboth, Hp. cbn [holds map forallb]. tauto.
Qed.

Lemma sprint_aps_pins_label_witness :
  sprint_aps (Label (Some ["home"]) ∅) ["home"; "lot"] = "home && !lot" ∧
  holds (λ a, bool_decide (a = "home"))
    (sprint_aps_tree (Label (Some ["home"]) ∅) ["home"; "lot"]) = true.
Proof.
  assert ("" ∉ ["home"; "lot"]) as Hnames.
  { intros Hin. repeat (apply elem_of_cons in Hin as [Hin|Hin]; [done|]).
    by apply elem_of_nil in Hin. }
  destruct (sprint_aps_pins_label (Label (Some ["home"]) ∅) ["home"; "lot"]
              (λ a, bool_decide (a = "home")) Hnames) as [Htext Hholds].
  split; [vm_compute; reflexivity|].
  apply Hholds. intros a Ha. simpl.
  repeat (apply elem_of_cons in Ha as [->|Ha]; [vm_compute; reflexivity|]).
  by apply elem_of_nil in Ha.
Defined.

(** ** Identifiers and variables *)

(** A dictionary [{x : g(x) for x in xs}] has the keys [xs] and maps each to
    its [g]. *)
Lemma lookup_dict_comp_fun {K V} `{Countable K} (g : K → V) (xs : list K)
    (k : K) :
  dict_comp (λ x, (x, g x)) xs !! k =
  if decide (k ∈ xs) then Some (g k) else None.
Proof.
  induction xs as [|x xs IH].
  - unfold dict_comp. rewrite fmap_nil. simpl. by rewrite lookup_empty.
  - rewrite dict_comp_cons. cbn [fst snd].
    destruct (decide (x = k)) as [->|Hne].
    + rewrite lookup_insert_eq.
      destruct (decide (k ∈ k :: xs)) as [|Hn]; [done|].
      exfalso. apply Hn. left.
    + rewrite lookup_insert_ne by done. rewrite IH.
      destruct (decide (k ∈ xs)) as [Hin|Hn];
        destruct (decide (k ∈ x :: xs)) as [Hin'|Hn']; try done.
      * exfalso. apply Hn'. by right.
      * apply elem_of_cons in Hin' as [->|]; done.
Qed.

(** X4: [create_states] gives an identifier to every state and to nothing
    else, in both encodings: looking up a state never raises [KeyError].
    Under the Boolean encoding a state is its own identifier; under the
    integer encoding the identifier is [statevar = ] followed by the state
    without its first character when every state is a letter and a number,
    and by the whole state otherwise. *)
Theorem create_states_ids (states : list string)
    (variables : gmap pyval domain) (trans : list string)
    (statevar : string) (bool_states : bool) (s : string) :
  let state_ids :=
    (create_states states variables trans statevar bool_states).1.1 in
  (is_Some (state_ids !! s) ↔ s ∈ states) ∧
  (s ∈ states →
   state_ids !! s =
   Some (if decide (length states < 3)%nat then s
         else if bool_states then s
         else if forallb (λ state, int_parses (tail_str state)) states
              then statevar +:+ " = " +:+ tail_str s
              else statevar +:+ " = " +:+ s)).
Proof.
  assert (∀ g : string → string,
            (is_Some (dict_comp (λ x, (x, g x)) states !! s) ↔ s ∈ states) ∧
            (s ∈ states →
             dict_comp (λ x, (x, g x)) states !! s = Some (g s))) as Hcomp.
  { intros g. rewrite lookup_dict_comp_fun.
    destruct (decide (s ∈ states)) as [Hin|Hout].
    - split; [split; [done|by eexists]|done].
    - split; [split; [by intros [? ?]|done]|done]. }
  unfold create_states.
  destruct (decide (length states < 3)%nat); cbn zeta.
  { apply (Hcomp (λ x, x)). }
  destruct bool_states.
  { apply (Hcomp (λ x, x)). }
  unfold states2ints.
  destruct (forallb (λ state, int_parses (tail_str state)) states); simpl.
  - apply (Hcomp (λ x, statevar +:+ " = " +:+ tail_str x)).
  - apply (Hcomp (λ x, statevar +:+ " = " +:+ x)).
Qed.

(** X5: with three states or more and [bool_states] false,
    [create_states] declares the one variable [statevar] and nothing else,
    and adds no formula: the domain is [(0, n-1)] for [n] states when every
    state is a letter and a number, and the list of the states otherwise. *)
Theorem create_states_int_encoding (states : list string)
    (variables : gmap pyval domain) (trans : list string)
    (statevar : string) :
  (3 ≤ length states)%nat →
  ∃ state_ids,
    create_states states variables trans statevar false =
    (state_ids,
     <[PStr statevar :=
         if forallb (λ state, int_parses (tail_str state)) states
         then Range 0 (Z.of_nat (length states) - 1)
         else Enum (PStr <$> states)]> variables,
     trans) ∧
    ∀ k, k ≠ PStr statevar →
         (<[PStr statevar :=
             if forallb (λ state, int_parses (tail_str state)) states
             then Range 0 (Z.of_nat (length states) - 1)
             else Enum (PStr <$> states)]> variables) !! k = variables !! k.
Proof.
  intros Hlen. unfold create_states.
  destruct (decide (length states < 3)%nat); [lia|]. unfold states2ints.
  destruct (forallb (λ state, int_parses (tail_str state)) states);
    eexists; (split; [reflexivity|]); intros k Hk;
    by rewrite lookup_insert_ne.
Qed.

Lemma create_states_int_encoding_witness :
  ∃ state_ids,
    create_states ["X0"; "X1"; "X2"] ∅ [] "loc" false =
    (state_ids, <[PStr "loc" := Range 0 2]> ∅, []).
Proof.
  destruct (create_states_int_encoding ["X0"; "X1"; "X2"] ∅ [] "loc")
    as (ids & Hrun & _); [simpl; lia|].
  exists ids. exact Hrun.
Defined.

(** ** More on the encoding of actions *)

Lemma mapM_setact_int (actionvar : string) (actions : list pyval) :
  (∃ a, a ∈ actions ∧ is_int a = true) →
  mapM (λ s, v ← setact actionvar s; Ok (s, v)) actions = Raise TypeError.
Proof.
  intros (a & Ha & Hint).
  induction actions as [|b actions IH]; [by apply elem_of_nil in Ha|].
  simpl. destruct b as [s|n]; [|done]. simpl.
  rewrite IH; [done|]. apply elem_of_cons in Ha as [->|]; done.
Qed.

(** X6: a set of actions that mixes integers and strings has no integer
    encoding: [actions2ints] raises [TypeError], and so does [create_actions]
    when it takes the integer encoding. *)
Theorem actions2ints_mixed (actions : list pyval)
    (variables : gmap pyval domain) (trans init : list string)
    (actionvar : string) (min_one : bool) :
  (∃ a, a ∈ actions ∧ is_int a = true) →
  (∃ b, b ∈ actions ∧ is_int b = false) →
  actions2ints actions actionvar min_one = Raise TypeError ∧
  create_actions actions variables trans init actionvar false
    (Some (if min_one then "xor" else "mutex")) = Raise TypeError.
Proof.
  intros Hint (b & Hb & Hstr).
  assert (actions2ints actions actionvar min_one = Raise TypeError) as Hids.
  { unfold actions2ints.
    assert (forallb is_int actions = false) as ->.
    { apply not_true_iff_false. intros Hall.
      rewrite forallb_forall in Hall.
      rewrite (Hall b) in Hstr; [done|]. by apply list_elem_of_In. }
    by rewrite mapM_setact_int. }
  split; [exact Hids|]. unfold create_actions.
  destruct (decide (actions = [])) as [->|]; [by apply elem_of_nil in Hb|].
  destruct min_one; simpl; by rewrite Hids.
Qed.

Lemma actions2ints_mixed_witness :
  actions2ints [PStr "park"; PInt 1] "act" false = Raise TypeError ∧
  create_actions [PStr "park"; PInt 1] ∅ [] [] "act" false (Some "mutex")
  = Raise TypeError.
Proof.
  apply (actions2ints_mixed [PStr "park"; PInt 1] ∅ [] [] "act" false).
  - exists (PInt 1). split; [right; left|done].
  - exists (PStr "park"). split; [left|done].
Defined.

Lemma lookup_bool_vars (actions : list pyval) (variables : gmap pyval domain)
    (k : pyval) :
  k ∉ actions →
  (dict_comp (λ a, (a, Boolean)) actions ∪ variables) !! k = variables !! k.
Proof.
  intros Hk. rewrite lookup_union, (lookup_dict_comp_const (λ a, a)).
  rewrite list_fmap_id. destruct (decide (k ∈ actions)); [done|].
  by rewrite (left_id None _).
Qed.

(** X7: whatever its arguments, when [create_actions] returns it has only
    appended to [trans] and to [init] (one formula at most to [trans]), it
    has left alone every variable that is neither an action nor the action
    variable, and it returns [None] exactly for the empty action set. *)
Theorem create_actions_frame (actions : list pyval)
    (variables : gmap pyval domain) (trans init : list string)
    (actionvar : string) (bool_actions : bool) (actions_must : option string)
    ids variables' trans' init' :
  create_actions actions variables trans init actionvar bool_actions
    actions_must = Ok (ids, variables', trans', init') →
  trans `prefix_of` trans' ∧ init `prefix_of` init' ∧
  (length trans' ≤ length trans + 1)%nat ∧
  (∀ k, k ∉ actions → k ≠ PStr actionvar →
        variables' !! k = variables !! k) ∧
  (ids = None ↔ actions = []).
Proof.
  unfold create_actions.
  destruct (decide (actions = [])) as [->|Hne].
  { intros [= <- <- <- <-]. split_and!; try done. lia. }
  intros (opts & Hopts & Hrest)%result_bind_Ok.
  destruct opts as [use_mutex min_one].
  assert (∀ m : gmap pyval pyval, Some m = None ↔ actions = []) as Hsome.
  { intros m. split; [done|]. by intros ->. }
  destruct (if negb use_mutex then true else bool_actions).
  - assert (∀ k, k ∉ actions → k ≠ PStr actionvar →
                 (dict_comp (λ a, (a, Boolean)) actions ∪ variables) !! k
                 = variables !! k) as Hvars.
    { intros k Hk _. by apply lookup_bool_vars. }
    destruct (decide (mutex _ = [])).
    { injection Hrest as <- <- <- <-.
      split_and!; [done|done|lia|exact Hvars|apply Hsome]. }
    destruct (use_mutex && negb min_one).
    { apply result_bind_Ok in Hrest as (m & _ & [= <- <- <- <-]).
      split_and!; [by apply prefix_app_r|by apply prefix_app_r|
                   |exact Hvars|apply Hsome].
      rewrite length_app. simpl. lia. }
    destruct (use_mutex && min_one).
    { apply result_bind_Ok in Hrest as (m & _ & [= <- <- <- <-]).
      split_and!; [by apply prefix_app_r|by apply prefix_app_r|
                   |exact Hvars|apply Hsome].
      rewrite length_app. simpl. lia. }
    destruct min_one; [done|].
    injection Hrest as <- <- <- <-.
    split_and!; [done|done|lia|exact Hvars|apply Hsome].
  - destruct use_mutex; [|done].
    apply result_bind_Ok in Hrest as ([aids d] & _ & [= <- <- <- <-]).
    split_and!; [done|done|lia| |apply Hsome].
    intros k _ Hk. by rewrite lookup_insert_ne.
Qed.

Lemma create_actions_frame_witness :
  ["G"] `prefix_of`
    ["G"; "X ((!(go) || (!(park))) && (!(park) || (!(go))))"] ∧
  [] `prefix_of` ["(!(go) || (!(park))) && (!(park) || (!(go)))"].
Proof.
  destruct (create_actions_frame [PStr "park"; PStr "go"] ∅ ["G"] [] "act"
              true (Some "mutex")
              (Some (dict_comp (λ x, (x, x)) [PStr "park"; PStr "go"]))
              (dict_comp (λ a, (a, Boolean)) [PStr "park"; PStr "go"] ∪ ∅)
              ["G"; "X ((!(go) || (!(park))) && (!(park) || (!(go))))"]
              ["(!(go) || (!(park))) && (!(park) || (!(go)))"])
    as (Ht & Hi & _).
  - vm_compute. reflexivity.
  - split; [exact Ht|exact Hi].
Defined.

Lemma dict_values_comp_perm (actions : list pyval) :
  NoDup actions →
  dict_values (dict_comp (λ x, (x, x)) actions : gmap pyval pyval)
  ≡ₚ actions.
Proof.
  intros Hnd. unfold dict_values, dict_comp.
  rewrite map_to_list_to_map.
  - rewrite <- list_fmap_compose. simpl. by rewrite list_fmap_id.
  - rewrite <- list_fmap_compose. simpl. by rewrite list_fmap_id.
Qed.

Lemma mutex_many {A} `{PyObj A, EqDecision A} (l : list A) :
  (2 ≤ length (filter (λ a, eq_empty a = false) l))%nat →
  ∃ m, mutex l = [m].
Proof.
  intros Hlen. unfold mutex.
  destruct (decide (filter _ l = [])) as [Hnil|_].
  { rewrite Hnil in Hlen. simpl in Hlen. lia. }
  destruct (decide (length (filter _ l) ≤ 1)%nat); [lia|]. by eexists.
Qed.

Lemma exactly_one_many {A} `{PyObj A, EqDecision A} (l : list A) :
  (2 ≤ length l)%nat → ∃ m, exactly_one l = [m].
Proof.
  intros Hlen. unfold exactly_one.
  destruct (decide (length l ≤ 1)%nat); [lia|]. by eexists.
Qed.

(** X8: under the Boolean encoding, for a set of distinct actions with two
    non-empty ones or more, ['mutex'] appends the one formula [m] of [mutex]
    over the actions to [init] and [X (m)] to [trans], and ['xor'] does the
    same with the formula of [exactly_one]; every action is declared
    ['boolean']. *)
Theorem create_actions_bool_constraint (actions : list pyval)
    (variables : gmap pyval domain) (trans init : list string)
    (actionvar : string) :
  NoDup actions →
  (2 ≤ length (filter (λ a, eq_empty a = false) actions))%nat →
  let ids : gmap pyval pyval := dict_comp (λ x, (x, x)) actions in
  let variables' := dict_comp (λ a, (a, Boolean)) actions ∪ variables in
  (∃ m, mutex (dict_values ids) = [m] ∧
        create_actions actions variables trans init actionvar true
          (Some "mutex")
        = Ok (Some ids, variables', trans ++ ["X (" +:+ m +:+ ")"],
              init ++ [m])) ∧
  (∃ m, exactly_one (dict_values ids) = [m] ∧
        create_actions actions variables trans init actionvar true
          (Some "xor")
        = Ok (Some ids, variables', trans ++ ["X (" +:+ m +:+ ")"],
              init ++ [m])) ∧
  (∀ a, a ∈ actions → variables' !! a = Some Boolean).
Proof.
  intros Hnd Hlen ids variables'.
  pose proof (dict_values_comp_perm actions Hnd) as Hperm. fold ids in Hperm.
  assert (2 ≤ length (filter (λ a, eq_empty a = false) (dict_values ids)))%nat
    as Hlen'.
  { by rewrite Hperm. }
  assert (2 ≤ length (dict_values ids))%nat as Hlen''.
  { pose proof (length_filter (λ a, eq_empty a = false) (dict_values ids)).
    lia. }
  assert (actions ≠ []) as Hne.
  { intros ->. simpl in Hlen. lia. }
  destruct (mutex_many _ Hlen') as [m Hm].
  destruct (exactly_one_many _ Hlen'') as [x Hx].
  split_and!.
  - exists m. split; [done|]. unfold create_actions.
    destruct (decide (actions = [])); [done|]. simpl. fold ids.
    rewrite Hm. by destruct (decide ([m] = [])).
  - exists x. split; [done|]. unfold create_actions.
    destruct (decide (actions = [])); [done|]. simpl. fold ids.
    rewrite Hm, Hx. by destruct (decide ([m] = [])).
  - intros a Ha. unfold variables'.
    rewrite lookup_union, (lookup_dict_comp_const (λ a, a)), list_fmap_id.
    destruct (decide (a ∈ actions)); [|done].
    by destruct (variables !! a).
Qed.

Lemma create_actions_bool_constraint_witness :
  ∃ m, mutex (dict_values (dict_comp (λ x, (x, x)) [PStr "park"; PStr "go"]
                           : gmap pyval pyval)) = [m] ∧
       create_actions [PStr "park"; PStr "go"] ∅ [] [] "act" true
         (Some "mutex")
       = Ok (Some (dict_comp (λ x, (x, x)) [PStr "park"; PStr "go"]),
             dict_comp (λ a, (a, Boolean)) [PStr "park"; PStr "go"] ∪ ∅,
             [] ++ ["X (" +:+ m +:+ ")"], [] ++ [m]).
Proof.
  apply (create_actions_bool_constraint [PStr "park"; PStr "go"] ∅ [] []
           "act").
  - repeat constructor; vm_compute; intros Hin;
      repeat (apply elem_of_cons in Hin as [Hin|Hin]; [done|]);
      by apply elem_of_nil in Hin.
  - vm_compute. lia.
Defined.

(** ** Loops, exceptions and warnings *)

Lemma M_bind_inv {A B} (m : M A) (f : A → M B) (b : B) (w : list string) :
  m ≫= f = (Ok b, w) →
  ∃ a w1 w2, m = (Ok a, w1) ∧ f a = (Ok b, w2) ∧ w = w1 ++ w2.
Proof.
  destruct m as [[a|e] w1]; unfold mbind, M_bind; [|done].
  destruct (f a) as [r w2] eqn:Hf. intros [= -> <-]. by exists a, w1, w2.
Qed.

Lemma getitem_None {K V} `{Countable K} (d : gmap K V) k :
  d !! k = None → getitem d k = Raise KeyError.
Proof. unfold getitem. by intros ->. Qed.

Lemma M_bind_raise {A B} (m : M A) (f : A → M B) (e : exn) :
  m.1 = Raise e → (m ≫= f).1 = Raise e.
Proof. destruct m as [[a|e'] w]; simpl; [done|]. by intros [= ->]. Qed.

Lemma M_bind_silent {A B} (m : M A) (f : A → M B) :
  m.2 = [] → (∀ a, (f a).2 = []) → (m ≫= f).2 = [].
Proof.
  destruct m as [[a|e] w]; simpl; intros ->; [|done].
  intros Hf. specialize (Hf a). unfold mbind, M_bind.
  destruct (f a) as [r w']. simpl in *. by subst.
Qed.

Lemma for_in_silent {S A} (body : S → A → M S) (xs : list A) :
  (∀ s x, x ∈ xs → (body s x).2 = []) → ∀ s, (for_in xs body s).2 = [].
Proof.
  induction xs as [|x xs IH]; intros Hb s; simpl; [done|].
  apply M_bind_silent; [apply Hb; left|].
  intros a. apply IH. intros; apply Hb. by right.
Qed.

Lemma for_in_inv {S A} (P : list A → S → list string → Prop)
    (body : S → A → M S) (xs : list A) (s0 : S) :
  P [] s0 [] →
  (∀ pre x s w s' w',
     x ∈ xs → P pre s w → body s x = (Ok s', w') →
     P (pre ++ [x]) s' (w ++ w')) →
  ∀ s w, for_in xs body s0 = (Ok s, w) → P xs s w.
Proof.
  intros Hinit Hstep.
  assert (∀ rest pre s1 w0 s w,
            pre ++ rest = xs → P pre s1 w0 →
            for_in rest body s1 = (Ok s, w) → P xs s (w0 ++ w)) as Hgen.
  { induction rest as [|x rest IH]; intros pre s1 w0 s w Hxs HP Hrun.
    - simpl in Hrun. injection Hrun as <- <-.
      rewrite !app_nil_r in *. by subst.
    - simpl in Hrun.
      apply M_bind_inv in Hrun as (s' & w1 & w2 & Hx & Hrest & ->).
      rewrite app_assoc.
      apply (IH (pre ++ [x]) s' (w0 ++ w1));
        [by rewrite <- app_assoc| |done].
      apply (Hstep pre x s1 w0 s' w1); [|done..].
      rewrite <- Hxs. set_solver. }
  intros s w Hrun. by apply (Hgen xs [] s0 [] s w).
Qed.

Lemma M_bind_raise_inv {A B} (m : M A) (f : A → M B) (e : exn) :
  (mbind (M:=M) f m).1 = Raise e →
  m.1 = Raise e ∨ ∃ a w, m = (Ok a, w) ∧ (f a).1 = Raise e.
Proof.
  destruct m as [[a|e'] w]; [|simpl; intros [= ->]; by left]. intros Hf. right. exists a, w.
  split; [done|]. rewrite M_bind_warn in Hf. exact Hf.
Qed.

Lemma for_in_raise_inv {S A} (body : S → A → M S) (xs : list A) (e : exn)
    (s : S) :
  (for_in xs body s).1 = Raise e →
  ∃ s' x, x ∈ xs ∧ (body s' x).1 = Raise e.
Proof.
  revert s. induction xs as [|x xs IH]; intros s; simpl; [done|].
  intros [Hx|(s' & w & _ & Hrest)]%M_bind_raise_inv.
  - exists s, x. split; [left|done].
  - destruct (IH s' Hrest) as (s'' & y & Hy & Hraise).
    exists s'', y. split; [by right|done].
Qed.

(** A loop raises [e] when the body raises [e] on some element and nothing
    else anywhere. *)
Lemma for_in_raise {S A} (body : S → A → M S) (xs : list A) (e : exn) :
  (∀ s x e', x ∈ xs → (body s x).1 = Raise e' → e' = e) →
  (∃ x, x ∈ xs ∧ ∀ s, (body s x).1 = Raise e) →
  ∀ s, (for_in xs body s).1 = Raise e.
Proof.
  induction xs as [|x xs IH]; intros Hall (b & Hb & Hbad) s.
  { by apply elem_of_nil in Hb. }
  simpl. destruct (body s x) as [[s'|e'] w] eqn:Hx.
  - apply elem_of_cons in Hb as [->|Hb].
    { specialize (Hbad s). by rewrite Hx in Hbad. }
    rewrite M_bind_warn. simpl. apply IH.
    + intros; apply (Hall s0 x0); [by right|done].
    + by exists b.
  - simpl. f_equal. apply (Hall s x); [left|]. by rewrite Hx.
Qed.

Lemma filter_both_nil {A} (P : A → Prop) `{∀ x, Decision (P x)} (l : list A) :
  filter P l = [] → filter (λ x, ¬ P x) l = [] → l = [].
Proof.
  destruct l as [|a l]; [done|]. intros Hp Hn. exfalso.
  destruct (decide (P a)) as [Ha|Ha].
  - assert (a ∈ filter P (a :: l)) as Hin.
    { apply list_elem_of_filter. split; [done|left]. }
    rewrite Hp in Hin. by apply elem_of_nil in Hin.
  - assert (a ∈ filter (λ x, ¬ P x) (a :: l)) as Hin.
    { apply list_elem_of_filter. split; [done|left]. }
    rewrite Hn in Hin. by apply elem_of_nil in Hin.
Qed.

Lemma sprint_aps_nonempty (label : label) (aps : list string) :
  aps ≠ [] → "" ∉ aps → sprint_aps label aps ≠ "".
Proof.
  intros Hne Hnames. unfold sprint_aps.
  set (tmp0 := match lab_ap label with
               | Some ap => _conj_intersection aps ap false
               | None => "" end).
  set (tmp1 := match lab_ap label with
               | Some ap => _conj_neg_diff aps ap false
               | None => _conj_neg aps false end).
  assert (tmp0 ≠ "" ∨ tmp1 ≠ "") as Hor.
  { unfold tmp0, tmp1. destruct (lab_ap label) as [ap|].
    - destruct (decide (filter (λ x, x ∈ ap) aps = [])) as [Hnil|Hnn].
      + right. unfold _conj_neg_diff. apply join_nonempty.
        * intros Hm%map_eq_nil. apply Hne.
          by apply (filter_both_nil (λ x, x ∈ ap)).
        * by intros x (a & -> & _)%list_elem_of_fmap.
      + left. unfold _conj_intersection. apply join_nonempty.
        * by intros Hm%map_eq_nil.
        * intros x (a & -> & [_ Ha]%list_elem_of_filter)%list_elem_of_fmap.
          simpl. by intros ->.
    - right. unfold _conj_neg. apply join_nonempty.
      + by intros Hm%map_eq_nil.
      + by intros x (a & -> & _)%list_elem_of_fmap. }
  destruct (bool_decide (0 < String.length tmp0)%nat
            && bool_decide (0 < String.length tmp1)%nat).
  - destruct tmp0; [done|]. by rewrite app_cons.
  - destruct tmp0 as [|c t0]; [|by rewrite app_cons].
    rewrite app_empty_l. by destruct Hor.
Qed.

(** X9: [ap_trans_from_ts] never warns.  Without propositions it returns
    the empty list before it looks at a state; with propositions it raises
    [KeyError] when a state has no identifier, and otherwise the formulas it
    returns are the [X((id) -> (label formula))] of the states whose label
    formula is not empty: one for each state when no proposition has an
    empty name. *)
Theorem ap_trans_from_ts_labels (states : States)
    (state_ids : gmap string string) (aps : list string) :
  (ap_trans_from_ts states state_ids aps).2 = [] ∧
  (aps = [] → (ap_trans_from_ts states state_ids aps).1 = Ok []) ∧
  (aps ≠ [] → (∃ s, s ∈ st_states states ∧ state_ids !! s = None) →
   (ap_trans_from_ts states state_ids aps).1 = Raise KeyError) ∧
  (aps ≠ [] →
   ∀ out, (ap_trans_from_ts states state_ids aps).1 = Ok out →
     (∀ f, f ∈ out ↔
           ∃ s i, s ∈ st_states states ∧ state_ids !! s = Some i ∧
                  sprint_aps (st_label_of states s) aps ≠ "" ∧
                  f = "X((" +:+ str i +:+ ") -> ("
                      +:+ sprint_aps (st_label_of states s) aps +:+ "))") ∧
     ("" ∉ aps → length out = length (st_states states))).
Proof.
  unfold ap_trans_from_ts. split_and!.
  - destruct (decide (aps = [])); [done|].
    apply for_in_silent. intros acc s _.
    apply M_bind_silent; [done|]. intros i. by destruct (decide _).
  - intros ->. done.
  - intros Hne Hbad. destruct (decide (aps = [])); [done|].
    apply for_in_raise.
    + intros acc s e' _. unfold getitem. destruct (state_ids !! s) as [i|].
      * rewrite M_bind_lift. by destruct (decide _).
      * by intros [= <-].
    + destruct Hbad as (s & Hs & Hnone). exists s. split; [done|].
      intros acc. unfold getitem. by rewrite Hnone.
  - intros Hne out Hout. destruct (decide (aps = [])); [done|].
    destruct (for_in _ _ _) as [r w] eqn:Hrun. simpl in Hout. subst r.
    revert Hrun.
    apply (for_in_inv (λ pre out (_ : list string),
      (∀ f, f ∈ out ↔
           ∃ s i, s ∈ pre ∧ state_ids !! s = Some i ∧
                  sprint_aps (st_label_of states s) aps ≠ "" ∧
                  f = "X((" +:+ str i +:+ ") -> ("
                      +:+ sprint_aps (st_label_of states s) aps +:+ "))") ∧
      ("" ∉ aps → length out = length pre))).
    + split; [|done]. intros f. split; [by intros ?%elem_of_nil|].
      by intros (s & i & ?%elem_of_nil & _).
    + intros pre s acc w0 acc' w' Hs [IH Hlen]. unfold getitem.
      destruct (state_ids !! s) as [i|] eqn:Hi; [|done].
      rewrite M_bind_lift.
      destruct (decide (sprint_aps (st_label_of states s) aps = ""))
        as [Hemp|Hnemp]; intros [= <- <-].
      * split.
        -- intros f. rewrite IH. split.
           ++ intros (s' & i' & Hs' & Hrest). exists s', i'.
              split; [|done]. apply elem_of_app. by left.
           ++ intros (s' & i' & [Hs'| ->%list_elem_of_singleton]%elem_of_app
                      & Hi' & Hne' & ->); [|done].
              by exists s', i'.
        -- intros Hnames. by destruct (sprint_aps_nonempty _ _ Hne Hnames Hemp).
      * split.
        -- intros f. rewrite elem_of_app, IH, list_elem_of_singleton. split.
           ++ intros [(s' & i' & Hs' & Hrest)| ->].
              ** exists s', i'. split; [|done]. apply elem_of_app. by left.
              ** exists s, i. split_and!; [|done..].
                 apply elem_of_app. right. by apply list_elem_of_singleton.
           ++ intros (s' & i' & [Hs'| ->%list_elem_of_singleton]%elem_of_app
                      & Hi' & Hne' & ->).
              ** left. by exists s', i'.
              ** right. by simplify_eq.
        -- intros Hnames. rewrite !length_app, Hlen by done. done.
Qed.

(** [env_trans_from_sys_ts], written with the helpers of the encoder. *)
Lemma env_trans_from_sys_ts_run (states : list string)
    (state_ids : gmap string string) (trans : Transitions)
    (env_action_ids : option (gmap pyval pyval)) :
  (env_trans_from_sys_ts states state_ids trans env_action_ids).2 = [] ∧
  (truthy env_action_ids = false →
   (env_trans_from_sys_ts states state_ids trans env_action_ids).1 = Ok []) ∧
  (∀ ids out,
     env_action_ids = Some ids → ids ≠ ∅ →
     (env_trans_from_sys_ts states state_ids trans env_action_ids).1
     = Ok out →
     Forall2 (λ s f,
       ∃ i, state_ids !! s = Some i ∧
         if decide (find trans [s] = []) then
           f = pstr i +:+ " -> X(" +:+ _conj_neg (dict_values ids) true
               +:+ ")"
         else
           ∃ acts : list pyval,
             NoDup acts ∧
             (∀ a, a ∈ acts ↔
                   ∃ t ea, t ∈ find trans [s] ∧
                           lab_attr t.2 !! "env_actions" = Some ea ∧
                           ids !! ea = Some a) ∧
             f = pstr i +:+ " -> X(" +:+ _disj acts +:+ ")")
       states out).
Proof.
  unfold env_trans_from_sys_ts. split_and!.
  - destruct (negb (truthy env_action_ids)); [done|].
    apply for_in_silent. intros acc s _.
    apply M_bind_silent; [done|]. intros i. cbv zeta.
    destruct (decide _).
    + apply M_bind_silent; [done|]. done.
    + apply M_bind_silent; [|done].
      apply for_in_silent. intros acts [[? ?] lbl] _.
      destruct (lab_attr lbl !! "env_actions"); [|done].
      apply M_bind_silent; [done|]. done.
  - by intros ->.
  - intros ids out -> Hne. unfold truthy.
    rewrite bool_decide_eq_true_2 by done. cbn [negb].
    destruct (for_in _ _ _) as [r w] eqn:Hrun. cbn [fst]. intros ->.
    match goal with |- Forall2 ?R0 _ _ => set (R := R0) end.
    revert Hrun.
    apply (for_in_inv (λ pre out (_ : list string), Forall2 R pre out)).
    { constructor. }
    intros pre s acc w0 acc' w' Hs IH.
    destruct (state_ids !! s) as [i|] eqn:Hi;
      [|by rewrite (getitem_None _ _ Hi)].
    rewrite (getitem_Some _ _ _ Hi), M_bind_lift. cbv zeta.
    destruct (decide (find trans [s] = [])) as [Hdead|Hlive].
    + simpl. intros [= <- <-]. apply Forall2_app; [done|].
      constructor; [|constructor]. unfold R. exists i. split; [done|].
      by rewrite decide_True.
    + intros (acts & w1 & w2 & Hinner & [= <- <-] & _)%M_bind_inv.
      apply Forall2_app; [done|].
      constructor; [|constructor]. unfold R. exists i. split; [done|].
      rewrite decide_False by done. exists (elements acts).
      split_and!; [apply NoDup_elements| |done].
      intros a. rewrite elem_of_elements. revert a. revert Hinner.
      apply (for_in_inv (λ pre (acts : gset pyval) (_ : list string),
        ∀ a, a ∈ acts ↔
             ∃ t ea, t ∈ pre ∧ lab_attr t.2 !! "env_actions" = Some ea ∧
                     ids !! ea = Some a)).
      { intros a. split; [by intros ?%elem_of_empty|].
        by intros (t & ea & ?%elem_of_nil & _). }
      intros pre' [[fs ts] lbl] acts0 w3 acts1 w4 Ht IHa. cbv beta iota.
      destruct (lab_attr lbl !! "env_actions") as [ea|] eqn:Hea.
      * destruct (ids !! ea) as [a'|] eqn:Ha';
          [|by rewrite (getitem_None _ _ Ha')].
        rewrite (getitem_Some _ _ _ Ha'), M_bind_lift. intros [= <- <-] a.
        rewrite elem_of_union, IHa, elem_of_singleton. split.
        -- intros [(t & ea' & Hin & Hrest)| ->].
           ++ exists t, ea'. split; [|done]. apply elem_of_app. by left.
           ++ exists (fs, ts, lbl), ea. split_and!; [|done..].
              apply elem_of_app. right. by apply list_elem_of_singleton.
        -- intros (t & ea' & [Hin| ->%list_elem_of_singleton]%elem_of_app
                   & Hl & Hid).
           ++ left. by exists t, ea'.
           ++ right. simpl in Hl. by simplify_eq.
      * intros [= <- <-] a. rewrite IHa. split.
        -- intros (t & ea' & Hin & Hrest). exists t, ea'.
           split; [|done]. apply elem_of_app. by left.
        -- intros (t & ea' & [Hin| ->%list_elem_of_singleton]%elem_of_app
                   & Hl & Hid).
           ++ by exists t, ea'.
           ++ simpl in Hl. by simplify_eq.
Qed.

(** X10: [env_trans_from_sys_ts] never warns and returns the empty list
    when there are no environment actions ([None] or an empty dictionary).
    Otherwise, when it returns, it has one formula for each state, in order:
    for a state without outgoing transition [(id) -> X(N)] where [N] is
    the conjunction of [!(a)] over every environment action [a], which
    holds exactly when every environment action is false; and for any
    other state [(id) -> X(D)] where [D] is the disjunction of [(a)] over
    the identifiers of the environment actions that label its outgoing
    transitions, each once, in the order the set of them is iterated,
    which holds exactly when one of them is true. *)
Theorem env_trans_from_sys_ts_actions (states : list string)
    (state_ids : gmap string string) (trans : Transitions)
    (env_action_ids : option (gmap pyval pyval)) :
  (env_trans_from_sys_ts states state_ids trans env_action_ids).2 = [] ∧
  (truthy env_action_ids = false →
   (env_trans_from_sys_ts states state_ids trans env_action_ids).1 = Ok []) ∧
  (∀ ids out,
     env_action_ids = Some ids → ids ≠ ∅ →
     (env_trans_from_sys_ts states state_ids trans env_action_ids).1
     = Ok out →
     Forall2 (λ s f,
       ∃ i, state_ids !! s = Some i ∧
         if decide (find trans [s] = []) then
           f = "(" +:+ i +:+ ") -> X("
               +:+ text (conj_neg_tree (dict_values ids)) +:+ ")"
         else
           ∃ acts : list pyval,
             NoDup acts ∧
             (∀ a, a ∈ acts ↔
                   ∃ t ea, t ∈ find trans [s] ∧
                           lab_attr t.2 !! "env_actions" = Some ea ∧
                           ids !! ea = Some a) ∧
             f = "(" +:+ i +:+ ") -> X(" +:+ text (disj_tree acts) +:+ ")")
       states out) ∧
  (∀ (l : list pyval) (v : string → bool),
     text (conj_neg_tree l) = join " && " (map (λ a, "!(" +:+ str a +:+ ")") l)
     ∧ text (disj_tree l) = join " || " (map (λ a, "(" +:+ str a +:+ ")") l)
     ∧ (holds v (conj_neg_tree l) = true ↔ ∀ a, a ∈ l → v (str a) = false)
     ∧ (holds v (disj_tree l) = true ↔ ∃ a, a ∈ l ∧ v (str a) = true)).
Proof.
  destruct (env_trans_from_sys_ts_run states state_ids trans env_action_ids)
    as (Hsilent & Hnone & Hrun).
  split_and!; [done|done| |].
  - intros ids out Hids Hne Hout.
    eapply Forall2_impl; [exact (Hrun ids out Hids Hne Hout)|].
    intros s f (i & Hi & Hf). exists i. split; [done|].
    destruct (decide (find trans [s] = [])).
    + rewrite Hf, text_conj_neg. unfold pstr. simpl. strnorm.
    + destruct Hf as (acts & Hnd & Hacts & ->). exists acts.
      split_and!; [done..|]. rewrite text_disj. unfold pstr. simpl. strnorm.
  - intros l v. split_and!.
    + unfold conj_neg_tree. simpl. by rewrite map_map.
    + unfold disj_tree. simpl. by rewrite map_map.
    + apply holds_conj_neg.
    + apply holds_disj.
Qed.

Lemma env_trans_from_sys_ts_actions_witness :
  (env_trans_from_sys_ts ["s0"; "s1"] {["s0" := "s0"; "s1" := "s1"]}
     [("s0", "s1", Label None {["env_actions" := PStr "rain"]})]
     (Some {[PStr "rain" := PStr "rain"; PStr "sun" := PStr "sun"]})).2
  = [] ∧
  (env_trans_from_sys_ts ["s0"; "s1"] {["s0" := "s0"; "s1" := "s1"]}
     [("s0", "s1", Label None {["env_actions" := PStr "rain"]})]
     (Some {[PStr "rain" := PStr "rain"; PStr "sun" := PStr "sun"]})).1
  = Ok ["(s0) -> X((rain))"; "(s1) -> X(!(sun) && !(rain))"] ∧
  text (conj_neg_tree [PStr "sun"; PStr "rain"]) = "!(sun) && !(rain)".
Proof.
  destruct (env_trans_from_sys_ts_actions ["s0"; "s1"]
              {["s0" := "s0"; "s1" := "s1"]}
              [("s0", "s1", Label None {["env_actions" := PStr "rain"]})]
              (Some {[PStr "rain" := PStr "rain"; PStr "sun" := PStr "sun"]}))
    as (Hsilent & _ & _ & Htree).
  split_and!; [exact Hsilent|vm_compute; reflexivity|].
  destruct (Htree [PStr "sun"; PStr "rain"] (λ _, false)) as (-> & _).
  reflexivity.
Defined.

(** X11: [_check_solver_options] forces both flags to true, with one
    warning for each flag that was false, when [option] is the interned
    string ['jtlv'], the object of the literal in the source.  For any
    other object, a string with other characters or a string ['jtlv'] built
    at run time, it returns the flags as they are and warns nothing.  The
    action variables default to [('eact', 'act')]. *)
Theorem jtlv_forces_bool (solver : str_obj) (bool_states : bool)
    (action_vars : option (string * string)) (bool_actions : bool) :
  (chars solver = "jtlv" → interned solver = true →
   _check_solver_options solver bool_states action_vars bool_actions
   = (Ok (true, default ("eact", "act") action_vars, true),
      (if bool_states then []
       else ["Int state not yet available for jtlv solver." +:+ nl +:+
             "Using bool states."]) ++
      (if bool_actions then []
       else ["Int action modeling not yet available for jtlv solver."
             +:+ nl +:+ "Using bool actions."]))) ∧
  (chars solver ≠ "jtlv" ∨ interned solver = false →
   _check_solver_options solver bool_states action_vars bool_actions
   = (Ok (bool_states, default ("eact", "act") action_vars, bool_actions),
      [])).
Proof.
  unfold _check_solver_options, is_literal. split.
  - intros -> ->. by destruct bool_states, bool_actions.
  - intros Hother.
    assert (interned solver && all_name_chars "jtlv"
            && bool_decide (chars solver = "jtlv") = false) as ->.
    { destruct Hother as [Hne| ->]; [|done].
      rewrite (bool_decide_eq_false_2 _ Hne). by rewrite andb_false_r. }
    rewrite !andb_false_r. reflexivity.
Qed.

Lemma jtlv_forces_bool_witness :
  _check_solver_options (StrObj "jtlv" true) false None true
  = (Ok (true, ("eact", "act"), true),
     ["Int state not yet available for jtlv solver." +:+ nl +:+
      "Using bool states."]) ∧
  _check_solver_options (StrObj "jtlv" false) false None true
  = (Ok (false, ("eact", "act"), true), []).
Proof.
  split.
  - apply (proj1 (jtlv_forces_bool (StrObj "jtlv" true) false None true));
      reflexivity.
  - apply (proj2 (jtlv_forces_bool (StrObj "jtlv" false) false None true)).
    by right.
Defined.

(** X12: when [env_trans_from_env_ts] returns, it has one formula for each
    state and has issued the dead-end warning once for each state without
    outgoing transition, and no other warning; such a state, with
    identifier [i], contributes the formula [(i) -> X(False)]. *)
Theorem env_trans_dead_end_warnings (states : list string)
    (state_ids : gmap string string) (trans : Transitions)
    (action_ids env_action_ids sys_action_ids : option (gmap pyval pyval))
    (out w : list string) :
  env_trans_from_env_ts states state_ids trans action_ids env_action_ids
    sys_action_ids = (Ok out, w) →
  length out = length states ∧
  w = replicate (length (filter (λ s, find trans [s] = []) states))
                dead_end_msg ∧
  (∀ s, s ∈ states → find trans [s] = [] →
        ∃ i, state_ids !! s = Some i ∧ pstr i +:+ " -> X(False)" ∈ out).
Proof.
  unfold env_trans_from_env_ts.
  apply (for_in_inv (λ pre out w,
    length out = length pre ∧
    w = replicate (length (filter (λ s, find trans [s] = []) pre))
                  dead_end_msg ∧
    (∀ s, s ∈ pre → find trans [s] = [] →
          ∃ i, state_ids !! s = Some i ∧ pstr i +:+ " -> X(False)" ∈ out))).
  { split_and!; [done..|]. by intros s ?%elem_of_nil. }
  intros pre s acc w0 acc' w' Hs (Hlen & Hw & Hdead).
  destruct (state_ids !! s) as [i|] eqn:Hi;
    [|by rewrite (getitem_None _ _ Hi)].
  rewrite (getitem_Some _ _ _ Hi), M_bind_lift. cbv zeta.
  assert (∀ f, (∀ s', s' ∈ pre ++ [s] → find trans [s'] = [] →
                 ∃ i', state_ids !! s' = Some i'
                       ∧ pstr i' +:+ " -> X(False)" ∈ acc ++ [f]) ↔
               (find trans [s] = [] →
                pstr i +:+ " -> X(False)" ∈ acc ++ [f])) as Hstep.
  { intros f. split.
    - intros Hall Hd. destruct (Hall s) as (i' & Hi' & Hin); [|done|].
      + apply elem_of_app. right. by apply list_elem_of_singleton.
      + by simplify_eq.
    - intros Hnew s' [Hs'| ->%list_elem_of_singleton]%elem_of_app Hd.
      + destruct (Hdead s' Hs' Hd) as (i' & Hi' & Hin). exists i'.
        split; [done|]. apply elem_of_app. by left.
      + exists i. split; [done|]. by apply Hnew. }
  destruct (decide (find trans [s] = [])) as [Hd|Hlive].
  - unfold warn, mret, M_ret. rewrite M_bind_warn. cbn [fst snd app].
    intros [= <- <-]. split_and!.
    + rewrite !length_app, Hlen. done.
    + rewrite filter_app, filter_cons_True, filter_nil by done.
      rewrite length_app, Hw. simpl.
      rewrite Nat.add_1_r. rewrite replicate_S_end. done.
    + apply Hstep. intros _. apply elem_of_app. right.
      by apply list_elem_of_singleton.
  - intros (p & w1 & w2 & Hinner & Hrest & ->)%M_bind_inv.
    assert (w1 = []) as ->.
    { change w1 with (Ok p, w1).2. rewrite <- Hinner.
      apply for_in_silent. intros [cl ff] [[fs ts] lbl] _.
      repeat (apply M_bind_silent; [done|]; intros ?). done. }
    destruct p as [cur_list found_free].
    apply M_bind_inv in Hrest as (cl' & w3 & w4 & Hcl & [= <- <-] & ->).
    assert (w3 = []) as ->.
    { change w3 with (Ok cl', w3).2. rewrite <- Hcl.
      destruct (negb found_free && truthy sys_action_ids); [|done].
      apply M_bind_silent; done. }
    split_and!.
    + rewrite !length_app, Hlen. done.
    + rewrite filter_app, filter_cons_False, filter_nil by done.
      by rewrite !app_nil_r.
    + by apply Hstep.
Qed.

Lemma env_trans_dead_end_warnings_witness :
  length ["((e0)) -> (((X(e1))))"; "(e1) -> X(False)"] = length ["e0"; "e1"] ∧
  [dead_end_msg]
  = replicate
      (length (filter (λ s, find [("e0", "e1", Label None ∅)] [s] = [])
                      ["e0"; "e1"]))
      dead_end_msg.
Proof.
  destruct (env_trans_dead_end_warnings ["e0"; "e1"]
              {["e0" := "e0"; "e1" := "e1"]}
              [("e0", "e1", Label None ∅)] None None None
              ["((e0)) -> (((X(e1))))"; "(e1) -> X(False)"] [dead_end_msg])
    as (Hlen & Hw & _).
  - vm_compute. reflexivity.
  - split; [exact Hlen|exact Hw].
Defined.

Lemma M_bind_ok_inv {A B} (m : M A) (f : A → M B) (b : B) :
  (m ≫= f).1 = Ok b → ∃ a w, m = (Ok a, w) ∧ (f a).1 = Ok b.
Proof.
  destruct (m ≫= f) as [r w] eqn:Hrun. simpl. intros ->.
  apply M_bind_inv in Hrun as (a & w1 & w2 & Hm & Hf & _).
  exists a, w1. by rewrite Hf.
Qed.

Lemma mapM_getitem_raise {K V} `{Countable K} (d : gmap K V) (ks : list K)
    (e : exn) :
  mapM (getitem d) ks = Raise e → e = KeyError.
Proof.
  induction ks as [|k ks IH]; [done|]. cbn [mapM].
  destruct (getitem d k) as [v|e'] eqn:Hk.
  - destruct (mapM (getitem d) ks); [done|].
    intros [= <-]. by apply IH.
  - intros [= <-]. unfold getitem in Hk. destruct (d !! k); by simplify_eq.
Qed.

Lemma conj_action_raise (label : label) (action_type : string) (nxt : bool)
    (ids : option (gmap pyval pyval)) (e : exn) :
  _conj_action label action_type nxt ids = Raise e → e = KeyError.
Proof.
  unfold _conj_action. destruct (lab_attr label !! action_type) as [a|]; [|done].
  destruct ids as [ids|].
  - destruct (getitem ids a) as [a'|e'] eqn:Ha.
    + cbn [mbind result_bind]. destruct (eq_empty a'); [done|]. by destruct nxt.
    + intros [= <-]. unfold getitem in Ha. destruct (ids !! a); by simplify_eq.
  - cbn [mbind result_bind]. destruct (eq_empty a); [done|]. by destruct nxt.
Qed.

(** X13: an initial state without identifier makes [sys_init_from_ts] raise
    [KeyError], the only exception it raises.  With [ignore_initial] set it
    never warns and returns the label formulas [!((id)) || (label formula)]
    of the initial states and nothing else; without it, it returns those
    formulas and one more. *)
Theorem sys_init_ignore_initial (states : States)
    (state_ids : gmap string string) (aps : list string) :
  (sys_init_from_ts states state_ids aps true).2 = [] ∧
  (∀ ignore_initial e,
     (sys_init_from_ts states state_ids aps ignore_initial).1 = Raise e →
     e = KeyError) ∧
  (∀ ignore_initial,
     (∃ s, s ∈ st_initial states ∧ state_ids !! s = None) →
     (sys_init_from_ts states state_ids aps ignore_initial).1
     = Raise KeyError) ∧
  (∀ init,
     (sys_init_from_ts states state_ids aps true).1 = Ok init →
     ∀ f, f ∈ init ↔
          ∃ s i, s ∈ st_initial states ∧ state_ids !! s = Some i ∧
                 sprint_aps (st_label_of states s) aps ≠ "" ∧
                 f = "!(" +:+ pstr i +:+ ") || ("
                     +:+ sprint_aps (st_label_of states s) aps +:+ ")") ∧
  (∀ init',
     (sys_init_from_ts states state_ids aps false).1 = Ok init' →
     ∃ init last,
       (sys_init_from_ts states state_ids aps true).1 = Ok init ∧
       init' = init ++ [last]).
Proof.
  unfold sys_init_from_ts.
  set (body := λ (init : list string) (state : string), _).
  assert (∀ acc s e, (body acc s).1 = Raise e → e = KeyError) as Hbody.
  { intros acc s e. unfold body, getitem.
    destruct (state_ids !! s) as [i|]; [|by intros [= <-]].
    rewrite M_bind_lift. by destruct (decide _). }
  assert (∀ acc s, (body acc s).2 = []) as Hsilent.
  { intros acc s. unfold body. apply M_bind_silent; [done|].
    intros i. by destruct (decide _). }
  split_and!.
  - apply M_bind_silent; [|done]. apply for_in_silent. by intros.
  - intros ignore_initial e
      [(acc & s & _ & Hs)%for_in_raise_inv
      |(init & w & _ & Hrest)]%M_bind_raise_inv.
    { by apply (Hbody acc s). }
    destruct ignore_initial; [done|].
    destruct (decide (st_initial states = [])); [done|].
    apply M_bind_raise_inv in Hrest as [Hm|(ids & w' & _ & Hrest)]; [|done].
    by apply mapM_getitem_raise in Hm.
  - intros ignore_initial (s & Hs & Hnone). apply M_bind_raise.
    apply for_in_raise.
    + intros acc x e _. apply Hbody.
    + exists s. split; [done|]. intros acc. unfold body.
      by rewrite (getitem_None _ _ Hnone).
  - intros init (acc & w & Hrun & [= ->])%M_bind_ok_inv. revert Hrun.
    apply (for_in_inv (λ pre init (_ : list string),
      ∀ f, f ∈ init ↔
           ∃ s i, s ∈ pre ∧ state_ids !! s = Some i ∧
                  sprint_aps (st_label_of states s) aps ≠ "" ∧
                  f = "!(" +:+ pstr i +:+ ") || ("
                      +:+ sprint_aps (st_label_of states s) aps +:+ ")")).
    + intros f. split; [by intros ?%elem_of_nil|].
      by intros (s & i & ?%elem_of_nil & _).
    + intros pre s acc0 w0 acc' w' Hs IH. unfold body.
      destruct (state_ids !! s) as [i|] eqn:Hi;
        [|by rewrite (getitem_None _ _ Hi)].
      rewrite (getitem_Some _ _ _ Hi), M_bind_lift. cbv zeta.
      destruct (decide (sprint_aps (st_label_of states s) aps = ""))
        as [Hemp|Hnemp]; intros [= <- <-]; intros f.
      * rewrite IH. split.
        -- intros (s' & i' & Hs' & Hrest). exists s', i'.
           split; [|done]. apply elem_of_app. by left.
        -- intros (s' & i' & [Hs'| ->%list_elem_of_singleton]%elem_of_app
                   & Hi' & Hne' & ->); [|done].
           by exists s', i'.
      * rewrite elem_of_app, IH, list_elem_of_singleton. split.
        -- intros [(s' & i' & Hs' & Hrest)| ->].
           ++ exists s', i'. split; [|done]. apply elem_of_app. by left.
           ++ exists s, i. split_and!; [|done..].
              apply elem_of_app. right. by apply list_elem_of_singleton.
        -- intros (s' & i' & [Hs'| ->%list_elem_of_singleton]%elem_of_app
                   & Hi' & Hne' & ->).
           ++ left. by exists s', i'.
           ++ right. by simplify_eq.
  - intros init' (acc & w & Hrun & Hrest)%M_bind_ok_inv.
    rewrite Hrun, M_bind_warn. simpl.
    destruct (decide (st_initial states = [])).
    + unfold warn in Hrest. rewrite M_bind_warn in Hrest.
      injection Hrest as <-. by exists acc, "False".
    + apply M_bind_ok_inv in Hrest as (ids & w' & _ & [= <-]).
      by exists acc, (_disj ids).
Qed.

(** The inner loop of [sys_trans_from_ts], whatever the transitions: when
    it returns, it has appended the postcondition of each transition. *)
Lemma sys_trans_inner_inv (state_ids : gmap string string)
    (aids sids eids : option (gmap pyval pyval))
    (edges : list (string * string * label)) (posts w : list string) :
  for_in edges (λ cur_str '(_, to_state, label),
      to_state_id ← lift (getitem state_ids to_state);
      let postcond := pstr to_state_id in
      a ← lift (_conj_action label "env_actions" false eids);
      let postcond := postcond +:+ a in
      a ← lift (_conj_action label "sys_actions" false sids);
      let postcond := postcond +:+ a in
      a ← lift (_conj_action label "actions" false aids);
      let postcond := postcond +:+ a in
      mret (cur_str ++ [postcond])) [] = (Ok posts, w) →
  Forall2 (λ t p, sys_postcond state_ids aids sids eids t = Ok p)
          edges posts.
Proof.
  apply (for_in_inv (λ pre posts (_ : list string),
    Forall2 (λ t p, sys_postcond state_ids aids sids eids t = Ok p)
            pre posts)).
  { constructor. }
  intros pre [[fs ts] lbl] cur w0 cur' w' _ IH. cbv beta iota zeta.
  destruct (getitem state_ids ts) as [j|] eqn:Hj; [|done].
  rewrite M_bind_lift.
  destruct (_conj_action lbl "env_actions" false eids) as [a1|] eqn:H1;
    [|done].
  rewrite M_bind_lift.
  destruct (_conj_action lbl "sys_actions" false sids) as [a2|] eqn:H2;
    [|done].
  rewrite M_bind_lift.
  destruct (_conj_action lbl "actions" false aids) as [a3|] eqn:H3;
    [|done].
  rewrite M_bind_lift. intros [= <- <-].
  apply Forall2_app; [done|]. constructor; [|constructor].
  unfold sys_postcond. cbn [fst snd]. by rewrite Hj, H1, H2, H3.
Qed.

(** X14: [sys_trans_from_ts] never warns and raises nothing but
    [KeyError], which it does when a state has no identifier.  When it
    returns, it has one formula for each state, in order: [(id) -> X(False)]
    for a state without outgoing transition, and otherwise [(id) -> X(d)]
    with [d] the disjunction of the postconditions of the outgoing
    transitions, one disjunct for each. *)
Theorem sys_trans_one_per_state (states : list string)
    (state_ids : gmap string string) (trans : Transitions)
    (action_ids sys_action_ids env_action_ids : option (gmap pyval pyval)) :
  (sys_trans_from_ts states state_ids trans action_ids sys_action_ids
     env_action_ids).2 = [] ∧
  (∀ e, (sys_trans_from_ts states state_ids trans action_ids sys_action_ids
           env_action_ids).1 = Raise e → e = KeyError) ∧
  ((∃ s, s ∈ states ∧ state_ids !! s = None) →
   (sys_trans_from_ts states state_ids trans action_ids sys_action_ids
      env_action_ids).1 = Raise KeyError) ∧
  (∀ out,
     (sys_trans_from_ts states state_ids trans action_ids sys_action_ids
        env_action_ids).1 = Ok out →
     Forall2 (λ s f,
       ∃ i, state_ids !! s = Some i ∧
         if decide (find trans [s] = []) then f = pstr i +:+ " -> X(False)"
         else
           ∃ posts,
             Forall2 (λ t p, sys_postcond state_ids action_ids sys_action_ids
                               env_action_ids t = Ok p)
                     (find trans [s]) posts ∧
             f = pstr i +:+ " -> X(" +:+ _disj posts +:+ ")")
       states out).
Proof.
  unfold sys_trans_from_ts.
  set (body := λ (sys_trans : list string) (from_state : string), _).
  assert (∀ acc s e, (body acc s).1 = Raise e → e = KeyError) as Hbody.
  { intros acc s e. unfold body.
    intros [Hg|(i & w & _ & Hrest)]%M_bind_raise_inv.
    { unfold lift, getitem in Hg. simpl in Hg.
      destruct (state_ids !! s); by simplify_eq. }
    revert Hrest. cbv zeta. destruct (decide _); [done|].
    intros [(cur & [[fs ts] lbl] & _ & Hin)%for_in_raise_inv
           |(cur & w' & _ & Hrest)]%M_bind_raise_inv; [|done].
    revert Hin. cbv beta iota zeta.
    intros [Hg|(j & w1 & _ & Hin)]%M_bind_raise_inv.
    { unfold lift, getitem in Hg. simpl in Hg.
      destruct (state_ids !! ts); by simplify_eq. }
    apply M_bind_raise_inv in Hin as [Hg|(a1 & w2 & _ & Hin)].
    { by apply conj_action_raise in Hg. }
    apply M_bind_raise_inv in Hin as [Hg|(a2 & w3 & _ & Hin)].
    { by apply conj_action_raise in Hg. }
    apply M_bind_raise_inv in Hin as [Hg|(a3 & w4 & _ & Hin)]; [|done].
    by apply conj_action_raise in Hg. }
  split_and!.
  - apply for_in_silent. intros acc s _. unfold body.
    apply M_bind_silent; [done|]. intros i. cbv zeta.
    destruct (decide _); [done|].
    apply M_bind_silent; [|done].
    apply for_in_silent. intros cur [[fs ts] lbl] _.
    repeat (apply M_bind_silent; [done|]; intros ?). done.
  - intros e (acc & s & _ & Hs)%for_in_raise_inv. by apply (Hbody acc s).
  - intros (s & Hs & Hnone). apply for_in_raise.
    + intros acc x e _. apply Hbody.
    + exists s. split; [done|]. intros acc. unfold body.
      by rewrite (getitem_None _ _ Hnone).
  - intros out. destruct (for_in _ _ _) as [r w] eqn:Hrun. cbn [fst].
    intros ->. match goal with |- Forall2 ?R0 _ _ => set (R := R0) end.
    revert Hrun.
    apply (for_in_inv (λ pre out (_ : list string), Forall2 R pre out)).
    { constructor. }
    intros pre s acc w0 acc' w' Hs IH. unfold body.
    destruct (state_ids !! s) as [i|] eqn:Hi;
      [|by rewrite (getitem_None _ _ Hi)].
    rewrite (getitem_Some _ _ _ Hi), M_bind_lift. cbv zeta.
    destruct (decide (find trans [s] = [])) as [Hdead|Hlive].
    + intros [= <- <-]. apply Forall2_app; [done|].
      constructor; [|constructor]. unfold R. exists i. split; [done|].
      by rewrite decide_True.
    + intros (posts & w1 & w2 & Hinner & [= <- <-] & _)%M_bind_inv.
      apply Forall2_app; [done|].
      constructor; [|constructor]. unfold R. exists i. split; [done|].
      rewrite decide_False by done. exists posts. split; [|done].
      by apply sys_trans_inner_inv in Hinner.
Qed.

(** ** A closed transition system as a whole *)

Lemma for_in_total {S A} (body : S → A → M S) (xs : list A) :
  (∀ s x, x ∈ xs → ∃ s', body s x = (Ok s', [])) →
  ∀ s, ∃ s', for_in xs body s = (Ok s', []).
Proof.
  induction xs as [|x xs IH]; intros Hb s; simpl; [by eexists|].
  destruct (Hb s x) as [s1 Hx]; [left|]. rewrite Hx, M_bind_ok.
  apply IH. intros; apply Hb. by right.
Qed.

Lemma for_in_append_total {A B} (body : list B → A → M (list B))
    (xs : list A) :
  (∀ acc x, x ∈ xs → ∃ c, body acc x = (Ok (acc ++ [c]), [])) →
  ∀ acc, ∃ out,
    for_in xs body acc = (Ok (acc ++ out), []) ∧ length out = length xs.
Proof.
  induction xs as [|x xs IH]; intros Hb acc; simpl.
  { exists []. by rewrite app_nil_r. }
  destruct (Hb acc x) as [c Hx]; [left|]. rewrite Hx, M_bind_ok.
  destruct (IH (λ acc x Hin, Hb acc x (list_elem_of_further _ _ _ Hin))
              (acc ++ [c])) as (out & Hrun & Hlen).
  exists (c :: out). rewrite Hrun, <- app_assoc. simpl. by rewrite Hlen.
Qed.

Lemma sys_init_from_ts_ok (states : States) (state_ids : gmap string string)
    (aps : list string) (ignore_initial : bool) :
  (∀ s, s ∈ st_initial states → is_Some (state_ids !! s)) →
  ∃ init,
    sys_init_from_ts states state_ids aps ignore_initial
    = (Ok init,
       if negb ignore_initial && bool_decide (st_initial states = [])
       then [no_initial_msg] else []).
Proof.
  intros Hids. unfold sys_init_from_ts.
  match goal with |- context [for_in ?xs ?b ?s0] =>
    assert (∃ s', for_in xs b s0 = (Ok s', [])) as [acc Hacc];
      [apply for_in_total|] end.
  { intros acc s Hs. destruct (Hids s Hs) as [i Hi].
    rewrite (getitem_Some _ _ _ Hi), M_bind_lift. cbv zeta.
    destruct (decide _); by eexists. }
  rewrite Hacc, M_bind_ok. destruct ignore_initial; [by eexists|].
  destruct (decide (st_initial states = [])) as [Hnil|Hsome].
  - rewrite bool_decide_eq_true_2 by done. by eexists.
  - rewrite bool_decide_eq_false_2 by done.
    destruct (mapM_getitem state_ids (st_initial states) Hids)
      as (ids & Hmap & _).
    rewrite Hmap, M_bind_lift. by eexists.
Qed.

Lemma sys_trans_from_ts_ok (states : list string)
    (state_ids : gmap string string) (trans : Transitions)
    (action_ids sys_action_ids env_action_ids : option (gmap pyval pyval)) :
  (∀ s, s ∈ states → is_Some (state_ids !! s)) →
  (∀ t, t ∈ trans → t.1.1 ∈ states →
        is_ok (sys_postcond state_ids action_ids sys_action_ids
                 env_action_ids t)) →
  ∃ out,
    sys_trans_from_ts states state_ids trans action_ids sys_action_ids
      env_action_ids = (Ok out, []) ∧
    length out = length states.
Proof.
  intros Hids Hedges. unfold sys_trans_from_ts.
  match goal with |- context [for_in ?xs ?b ?s0] =>
    assert (∃ out, for_in xs b s0 = (Ok (s0 ++ out), [])
                   ∧ length out = length xs) as (out & Hrun & Hlen);
      [apply for_in_append_total|] end.
  { intros acc s Hs. destruct (Hids s Hs) as [i Hi].
    rewrite (getitem_Some _ _ _ Hi), M_bind_lift. cbv zeta.
    destruct (decide (find trans [s] = [])) as [Hdead|Hlive]; [by eexists|].
    match goal with |- context [for_in ?xs ?b ?s0] =>
      assert (∃ s', for_in xs b s0 = (Ok s', [])) as [posts Hposts];
        [apply for_in_total|] end.
    { intros cur [[fs ts] lbl] [Hfrom Ht]%elem_of_find.
      destruct (Hedges _ Ht) as [p Hp]; [by rewrite Hfrom|].
      unfold sys_postcond in Hp. cbn [fst snd] in Hp.
      apply result_bind_Ok in Hp as (j & Hj & Hp).
      apply result_bind_Ok in Hp as (a1 & H1 & Hp).
      apply result_bind_Ok in Hp as (a2 & H2 & Hp).
      apply result_bind_Ok in Hp as (a3 & H3 & _).
      cbv beta iota zeta.
      rewrite Hj, M_bind_lift, H1, M_bind_lift, H2, M_bind_lift, H3,
        M_bind_lift.
      by eexists. }
    rewrite Hposts, M_bind_ok. by eexists. }
  exists out. by rewrite Hrun.
Qed.

Lemma ap_trans_from_ts_ok (states : States) (state_ids : gmap string string)
    (aps : list string) :
  (∀ s, s ∈ st_states states → is_Some (state_ids !! s)) →
  ∃ out, ap_trans_from_ts states state_ids aps = (Ok out, []).
Proof.
  intros Hids. unfold ap_trans_from_ts.
  destruct (decide (aps = [])); [by eexists|].
  apply for_in_total. intros acc s Hs. destruct (Hids s Hs) as [i Hi].
  rewrite (getitem_Some _ _ _ Hi), M_bind_lift.
  destruct (decide _); by eexists.
Qed.

Lemma create_states_has_ids (states : list string)
    (variables : gmap pyval domain) (trans : list string)
    (statevar : string) (bool_states : bool) (s : string) :
  s ∈ states →
  is_Some ((create_states states variables trans statevar bool_states).1.1
           !! s).
Proof.
  intros Hs.
  assert (∀ g : string → string,
            is_Some (dict_comp (λ x, (x, g x)) states !! s)) as Hcomp.
  { intros g. rewrite lookup_dict_comp_fun. by rewrite decide_True. }
  unfold create_states.
  destruct (decide (length states < 3)%nat); cbn zeta; [apply Hcomp|].
  destruct bool_states; [apply Hcomp|]. unfold states2ints.
  destruct (forallb _ states); simpl; apply Hcomp.
Qed.

Lemma create_states_keeps (states : list string)
    (variables : gmap pyval domain) (trans : list string)
    (statevar : string) (bool_states : bool) (k : pyval) :
  is_Some (variables !! k) →
  is_Some ((create_states states variables trans statevar bool_states).1.2
           !! k).
Proof.
  intros Hk.
  assert (∀ m : gmap pyval domain, is_Some ((m ∪ variables) !! k)) as Hun.
  { intros m. destruct Hk as [d Hk]. rewrite lookup_union, Hk.
    by destruct (m !! k). }
  assert (∀ d, is_Some (<[PStr statevar := d]> variables !! k)) as Hins.
  { intros d. destruct (decide (PStr statevar = k)) as [->|Hne].
    - rewrite lookup_insert_eq. by eexists.
    - by rewrite lookup_insert_ne. }
  unfold create_states.
  destruct (decide (length states < 3)%nat); cbn zeta; [apply Hun|].
  destruct bool_states; [apply Hun|].
  destruct (states2ints states statevar). apply Hins.
Qed.

Lemma mapM_setact_keys (actionvar : string) (actions : list pyval) pairs :
  mapM (λ s, v ← setact actionvar s; Ok (s, v)) actions = Ok pairs →
  pairs.*1 = actions.
Proof.
  revert pairs. induction actions as [|a actions IH]; intros pairs.
  { by intros [= <-]. }
  intros (p & ps & -> & Hp & Hps)%mapM_cons_Ok.
  apply result_bind_Ok in Hp as (v & _ & [= <-]).
  rewrite fmap_cons. simpl. f_equal. by apply IH.
Qed.

Lemma create_actions_has_ids (actions : list pyval)
    (variables : gmap pyval domain) (trans init : list string)
    (actionvar : string) (bool_actions : bool) (actions_must : option string)
    aids variables' trans' init' :
  create_actions actions variables trans init actionvar bool_actions
    actions_must = Ok (aids, variables', trans', init') →
  (∀ a, a ∈ actions → ∃ ids, aids = Some ids ∧ is_Some (ids !! a)) ∧
  (∀ k, is_Some (variables !! k) → is_Some (variables' !! k)) ∧
  (length trans' ≤ length trans + 1)%nat.
Proof.
  unfold create_actions.
  destruct (decide (actions = [])) as [->|Hne].
  { intros [= <- <- <- <-]. split_and!; [|done|lia].
    by intros a ?%elem_of_nil. }
  intros (opts & Hopts & Hrest)%result_bind_Ok.
  destruct opts as [use_mutex min_one].
  assert (∀ a, a ∈ actions →
            ∃ ids, Some (dict_comp (λ x : pyval, (x, x)) actions) = Some ids ∧
                   is_Some (ids !! a)) as Hbool.
  { intros a Ha. eexists. split; [done|].
    rewrite (lookup_dict_comp_fun (λ x, x)). by rewrite decide_True. }
  assert (∀ k, is_Some (variables !! k) →
            is_Some ((dict_comp (λ a, (a, Boolean)) actions ∪ variables)
                     !! k)) as Hun.
  { intros k [d Hk]. rewrite lookup_union, Hk.
    by destruct (dict_comp (λ a, (a, Boolean)) actions !! k). }
  destruct (if negb use_mutex then true else bool_actions).
  - destruct (decide (mutex _ = [])).
    { injection Hrest as <- <- <- <-. split_and!; [done|done|lia]. }
    destruct (use_mutex && negb min_one).
    { apply result_bind_Ok in Hrest as (m & _ & [= <- <- <- <-]).
      split_and!; [done|done|]. rewrite length_app. simpl. lia. }
    destruct (use_mutex && min_one).
    { apply result_bind_Ok in Hrest as (m & _ & [= <- <- <- <-]).
      split_and!; [done|done|]. rewrite length_app. simpl. lia. }
    destruct min_one; [done|].
    injection Hrest as <- <- <- <-. split_and!; [done|done|lia].
  - destruct use_mutex; [|done].
    apply result_bind_Ok in Hrest as ([ids d] & Hids & [= <- <- <- <-]).
    split_and!; [| |lia].
    + intros a Ha. exists ids. split; [done|]. unfold actions2ints in Hids.
      destruct (forallb is_int actions).
      * injection Hids as <- <-.
        rewrite (lookup_dict_comp_fun (λ x, x)). by rewrite decide_True.
      * apply result_bind_Ok in Hids as (pairs & Hpairs & [= <- <-]).
        apply mapM_setact_keys in Hpairs.
        apply elem_of_dom. rewrite dom_list_to_map_L, Hpairs.
        by apply elem_of_list_to_set.
    + intros k Hk. destruct (decide (PStr actionvar = k)) as [->|Hnk].
      * rewrite lookup_insert_eq. by eexists.
      * by rewrite lookup_insert_ne.
Qed.

Lemma first_ok {A} (l : list A) : l ≠ [] → ∃ x, first l = Ok x.
Proof. destruct l as [|x l]; [done|]. by exists x. Qed.

Lemma create_actions_ok (actions : list pyval)
    (variables : gmap pyval domain) (trans init : list string)
    (actionvar : string) (bool_actions : bool) (actions_must : option string) :
  actions_must = None ∨ actions_must = Some "mutex"
  ∨ actions_must = Some "xor" →
  Forall (λ a, is_int a = true) actions
  ∨ Forall (λ a, is_int a = false) actions →
  is_ok (create_actions actions variables trans init actionvar bool_actions
           actions_must).
Proof.
  intros Hmust Htyped. unfold create_actions, is_ok.
  destruct (decide (actions = [])) as [->|Hne]; [by eexists|].
  assert (∃ use_mutex min_one,
            match actions_must with
            | None => Ok (false, false)
            | Some am =>
                if decide (am = "mutex") then Ok (true, false)
                else if decide (am = "xor") then Ok (true, true)
                else Raise (Exception ("Unknown value: actions_must = "
                                       +:+ am))
            end = Ok (use_mutex, min_one) ∧
            (min_one = true → use_mutex = true)) as (um & mo & -> & Hmo).
  { destruct Hmust as [->|[->| ->]]; do 2 eexists; split; done. }
  cbn [mbind result_bind]. cbv zeta.
  destruct um; cbn [negb].
  2:{ assert (mo = false) as ->.
      { destruct mo; [by specialize (Hmo eq_refl)|done]. }
      destruct (decide (mutex _ = [])); by eexists. }
  destruct bool_actions.
  - destruct (decide (mutex (dict_values (dict_comp (λ x : pyval, (x, x))
                                             actions)) = [])) as [|Hm];
      [by eexists|].
    assert (exactly_one (dict_values (dict_comp (λ x : pyval, (x, x))
                                        actions)) ≠ []) as Hx.
    { unfold exactly_one. destruct (decide _); [|done].
      intros Hnil%map_eq_nil. apply Hm. unfold mutex. by rewrite Hnil. }
    destruct (first_ok _ Hm) as [m Hfm]. destruct (first_ok _ Hx) as [x Hfx].
    destruct mo; cbn [andb negb]; [rewrite Hfx|rewrite Hfm]; by eexists.
  - unfold actions2ints. destruct (forallb is_int actions) eqn:Hint.
    { by eexists. }
    destruct Htyped as [Hall|Hall].
    + rewrite <- Hint. exfalso.
      assert (forallb is_int actions = true) as Htrue.
      { apply forallb_forall. intros a Ha%list_elem_of_In.
        by apply (proj1 (Forall_forall _ _) Hall). }
      congruence.
    + rewrite (setact_all_str _ _ Hall). by eexists.
Qed.

(** X15: [fts2spec] returns for every closed transition system whose
    initial states and transition targets are states, whose action labels
    are actions, and whose actions are all integers or all strings, with
    [actions_must] one of [None], ['mutex'] and ['xor']: the identifiers
    [create_states] and [create_actions] hand out are the ones the encoders
    look up.  The only warning is the one about missing initial states,
    issued exactly when there is none and [ignore_initial] is not set; every
    atomic proposition is a declared variable, and there is a safety formula
    for each state at least. *)
Theorem fts2spec_well_formed (fts : FTS) (ignore_initial bool_states : bool)
    (statevar actionvar : string) (bool_actions : bool)
    (actions_must : option string) :
  (∀ s, s ∈ st_initial (fts_states fts) → s ∈ st_states (fts_states fts)) →
  (∀ t, t ∈ fts_transitions fts → t.1.1 ∈ st_states (fts_states fts) →
        t.1.2 ∈ st_states (fts_states fts) ∧
        ∀ a, lab_attr t.2 !! "actions" = Some a → a ∈ fts_actions fts) →
  actions_must = None ∨ actions_must = Some "mutex"
  ∨ actions_must = Some "xor" →
  Forall (λ a, is_int a = true) (fts_actions fts)
  ∨ Forall (λ a, is_int a = false) (fts_actions fts) →
  ∃ vars init trans,
    fts2spec fts ignore_initial bool_states statevar actionvar bool_actions
      actions_must
    = (Ok (vars, init, trans),
       if negb ignore_initial
          && bool_decide (st_initial (fts_states fts) = [])
       then [no_initial_msg] else []) ∧
    (∀ ap, ap ∈ fts_aps fts → is_Some (vars !! PStr ap)) ∧
    (length (st_states (fts_states fts)) ≤ length trans)%nat.
Proof.
  intros Hinit Htrans Hmust Htyped. unfold fts2spec. cbv zeta.
  destruct (create_actions_ok (fts_actions fts)
              (dict_comp (λ ap, (PStr ap, Boolean)) (fts_aps fts)) [] []
              actionvar bool_actions actions_must Hmust Htyped)
    as [[[[aids vars1] t1] i1] Hact].
  rewrite Hact, M_bind_lift.
  destruct (create_actions_has_ids _ _ _ _ _ _ _ _ _ _ _ Hact)
    as (Haids & Hkeep1 & _).
  destruct (create_states (st_states (fts_states fts)) vars1 t1 statevar
              bool_states) as [[sids vars] t2] eqn:Hst.
  assert (∀ s, s ∈ st_states (fts_states fts) → is_Some (sids !! s)) as Hsids.
  { intros s Hs.
    pose proof (create_states_has_ids _ vars1 t1 statevar bool_states s Hs)
      as Hs'.
    by rewrite Hst in Hs'. }
  destruct (sys_init_from_ts_ok (fts_states fts) sids (fts_aps fts)
              ignore_initial) as [i Hi].
  { intros s Hs. by apply Hsids, Hinit. }
  rewrite Hi, M_bind_warn. cbn [fst snd].
  destruct (sys_trans_from_ts_ok (st_states (fts_states fts)) sids
              (fts_transitions fts) aids None None) as (t3 & Ht3 & Hlen).
  { done. }
  { intros [[fs ts] lbl] Ht Hfrom.
    destruct (Htrans _ Ht Hfrom) as [Hto Hlab]. cbn [fst snd] in *.
    destruct (Hsids ts Hto) as [j Hj].
    unfold sys_postcond, is_ok. cbn [fst snd].
    rewrite (getitem_Some _ _ _ Hj). cbn [mbind result_bind].
    assert (∀ ty, _conj_action lbl ty false None
                  = Ok (match lab_attr lbl !! ty with
                        | Some a => if eq_empty a then ""
                                    else " && " +:+ pstr a
                        | None => "" end)) as Hnone.
    { intros ty. unfold _conj_action. destruct (lab_attr lbl !! ty) as [a|];
        [|done]. cbn [mbind result_bind]. by destruct (eq_empty a). }
    rewrite !Hnone. cbn [mbind result_bind].
    unfold _conj_action. destruct (lab_attr lbl !! "actions") as [a|] eqn:Ha;
      [|by eexists].
    destruct (Haids a (Hlab a eq_refl)) as (ids & -> & [a' Ha']).
    rewrite (getitem_Some _ _ _ Ha'). cbn [mbind result_bind].
    destruct (eq_empty a'); by eexists. }
  rewrite Ht3, M_bind_ok.
  destruct (ap_trans_from_ts_ok (fts_states fts) sids (fts_aps fts) Hsids)
    as [t4 Ht4].
  rewrite Ht4, M_bind_ok. do 3 eexists. split_and!.
  - unfold mret, M_ret. cbn [fst snd]. by rewrite app_nil_r.
  - intros ap Hap.
    pose proof (create_states_keeps (st_states (fts_states fts)) vars1 t1
                  statevar bool_states (PStr ap)) as Hkeep2.
    rewrite Hst in Hkeep2. apply Hkeep2, Hkeep1.
    rewrite (lookup_dict_comp_const PStr). rewrite decide_True; [by eexists|].
    by apply list_elem_of_fmap_2.
  - rewrite !length_app. lia.
Qed.

Lemma fts2spec_well_formed_witness :
  ∃ vars init trans,
    fts2spec two_state_fts false true "loc" "act" true (Some "mutex")
    = (Ok (vars, init, trans), []) ∧
    (∀ ap, ap ∈ ["home"] → is_Some (vars !! PStr ap)) ∧
    (2 ≤ length trans)%nat.
Proof.
  apply (fts2spec_well_formed two_state_fts false true "loc" "act" true
           (Some "mutex")).
  - intros s ->%list_elem_of_singleton. left.
  - intros t Ht _. simpl in Ht.
    apply elem_of_cons in Ht as [->|Ht];
      [|apply list_elem_of_singleton in Ht as ->].
    + split; [right; left|]. intros a [= <-]. left.
    + split; [left|]. intros a [= <-]. left.
  - right. by left.
  - right. repeat constructor.
Defined.

(** ** More on the syntax tree *)

Section tree.
Import ast.

(** X16: a node just built finds its children again: [operand] of a unary
    node is the key of its operand and [op_r] of a binary node the key of
    its right operand; [op_l] is the key of the left operand, but [None]
    when the two operands are the same object, since the second edge takes
    the place of the first. *)
Theorem children_round_trip c operator (x y : node) u g :
  succ g !! u = None →
  operand (Unary_init c operator x u g).2 (Unary_init c operator x u g).1
  = Ok (Some (id x)) ∧
  op_l (Binary_init c operator x y u g).2 (Binary_init c operator x y u g).1
  = Ok (if decide (id x = id y) then None else Some (id x)) ∧
  op_r (Binary_init c operator x y u g).2 (Binary_init c operator x y u g).1
  = Ok (Some (id y)).
Proof.
  intros Hu. split_and!.
  - unfold operand. change (id (Unary_init c operator x u g).1) with u.
    unfold getitem. by rewrite (succ_Unary_init _ _ _ _ _ Hu).
  - unfold op_l, _child.
    change (id (Binary_init c operator x y u g).1) with u.
    rewrite (succ_Binary_init _ _ _ _ _ _ Hu). unfold set_edge.
    destruct (decide (id x = id y)); simpl.
    + by destruct (decide ("right" = "left")).
    + by destruct (decide ("left" = "left")).
  - unfold op_r, _child.
    change (id (Binary_init c operator x y u g).1) with u.
    rewrite (succ_Binary_init _ _ _ _ _ _ Hu). unfold set_edge.
    destruct (decide (id x = id y)) as [Heq|Hne]; simpl.
    + destruct (decide ("right" = "right")); [by rewrite Heq|done].
    + destruct (decide ("right" = "right")); [done|done].
Qed.

Lemma children_round_trip_witness :
  op_l a_and_b.2 a_and_b.1 = Ok (Some 1) ∧
  op_r a_and_b.2 a_and_b.1 = Ok (Some 2).
Proof.
  destruct (children_round_trip And "&&"
              (Node 1 Var None (Some (VStr "a")))
              (Node 2 Var None (Some (VStr "b"))) 3
              (new_Var "b" 2 (new_Var "a" 1 empty_graph).2).2)
    as (_ & Hl & Hr); [vm_compute; reflexivity|].
  split; [exact Hl|exact Hr].
Defined.

(** X17: a temporal operator node, unary or binary, whose operator has no
    token in the target syntax is refused before any operand is looked at:
    [to_gr1c], [to_jtlv] and [to_promela] raise the [LTLException] that
    names the operator and the syntax, and [to_smv] lets the [KeyError]
    through. *)
Theorem temporal_token_missing (g : DiGraph) (self : node) (o : string)
    (primed : bool) :
  class self = UnTempOp ∨ class self = BiTempOp →
  operator self = Some o →
  (GR1C_MAP !! o = None →
   to_gr1c g self primed = Raise (unsupported o "gr1c")) ∧
  (JTLV_MAP !! o = None → to_jtlv g self = Raise (unsupported o "JTLV")) ∧
  (SPIN_MAP !! o = None →
   to_promela g self = Raise (unsupported o "Promela")) ∧
  (SMV_MAP !! o = None → to_smv g self = Raise KeyError).
Proof.
  intros Hcls Hop.
  assert (op self = Ok o) as Ho.
  { unfold op, get_operator. destruct Hcls as [-> | ->]; by rewrite Hop. }
  split_and!; intros Hmap.
  - unfold to_gr1c. assert (o ≠ "X") as Hx.
    { intros ->. vm_compute in Hmap. discriminate Hmap. }
    destruct Hcls as [-> | ->]; rewrite Ho; cbn [mbind result_bind].
    + rewrite decide_False by done.
      by rewrite (getitem_None _ _ Hmap).
    + by rewrite (getitem_None _ _ Hmap).
  - unfold to_jtlv.
    destruct Hcls as [-> | ->]; rewrite Ho; cbn [mbind result_bind];
      by rewrite (getitem_None _ _ Hmap).
  - unfold to_promela.
    destruct Hcls as [-> | ->]; rewrite Ho; cbn [mbind result_bind];
      by rewrite (getitem_None _ _ Hmap).
  - unfold to_smv.
    destruct Hcls as [-> | ->]; rewrite Ho; cbn [mbind result_bind];
      by rewrite (getitem_None _ _ Hmap).
Qed.

Lemma temporal_token_missing_witness :
  ∃ self g,
    new_BiTempOp "V" (Node 1 Var None (Some (VStr "a")))
      (Node 2 Var None (Some (VStr "b"))) 3 empty_graph = Ok (self, g) ∧
    to_gr1c g self false
    = Raise (LTLException "Operator R not supported in gr1c syntax map") ∧
    to_jtlv g self
    = Raise (LTLException "Operator R not supported in JTLV syntax map").
Proof.
  do 2 eexists. split; [vm_compute; reflexivity|].
  match goal with |- to_gr1c ?g ?self _ = _ ∧ _ =>
    destruct (temporal_token_missing g self "R" false)
      as (Hgr1c & Hjtlv & _) end.
  - by right.
  - reflexivity.
  - split; [apply Hgr1c|apply Hjtlv]; vm_compute; reflexivity.
Defined.

Lemma mapM_Forall2 {A B} (f : A → result B) (xs : list A) (ys : list B) :
  mapM f xs = Ok ys → Forall2 (λ x y, f x = Ok y) xs ys.
Proof.
  revert ys. induction xs as [|x xs IH]; intros ys.
  { intros [= <-]. constructor. }
  intros (y & ys' & -> & Hy & Hys)%mapM_cons_Ok. constructor; [done|].
  by apply IH.
Qed.

Lemma mapM_ast_node_raise (l : list (Z * option node)) :
  (∃ u, (u, None) ∈ l) → mapM (λ ud, ast_node ud.2) l = Raise KeyError.
Proof.
  intros [u Hu]. induction l as [|[v d] l IH]; [by apply elem_of_nil in Hu|].
  cbn [mapM]. destruct d as [n|]; [|done]. cbn [snd ast_node mbind result_bind].
  rewrite IH; [done|]. apply elem_of_cons in Hu as [Hu|Hu]; [done|done].
Qed.

Lemma node_attr_touch (g : DiGraph) (u v : Z) :
  node_attr (touch v g) !! u
  = if decide (u = v ∧ succ g !! v = None) then Some None
    else node_attr g !! u.
Proof.
  unfold touch. destruct (succ g !! v) eqn:Hv.
  - rewrite decide_False; [done|]. by intros [_ ?].
  - simpl. destruct (decide (u = v)) as [->|Hne].
    + rewrite lookup_insert_eq. by rewrite decide_True.
    + rewrite lookup_insert_ne by done. rewrite decide_False; [done|].
      by intros [? _].
Qed.

(** X21: [get_vars] returns the nodes of class [Var] that the graph holds,
    and raises [KeyError] as soon as a key of the graph has no attribute
    [ast_node].  A variable built in the graph is among the variables from
    then on; an operator built over an operand that is not in the graph
    adds such a bare key, and [get_vars] raises from then on. *)
Theorem get_vars_of_graph (tree : DiGraph) :
  (∀ vs, get_vars tree = Ok vs →
     ∀ n, n ∈ vs ↔ class n = Var ∧ ∃ u, node_attr tree !! u = Some (Some n)) ∧
  ((∃ u, node_attr tree !! u = Some None) → get_vars tree = Raise KeyError) ∧
  (∀ t u vs,
     get_vars (new_Var t u tree).2 = Ok vs → (new_Var t u tree).1 ∈ vs) ∧
  (∀ c operator x u,
     succ tree !! id x = None → id x ≠ u →
     get_vars (Unary_init c operator x u tree).2 = Raise KeyError).
Proof.
  assert (∀ g vs, get_vars g = Ok vs →
            ∀ n, n ∈ vs ↔
                 class n = Var ∧ ∃ u, node_attr g !! u = Some (Some n))
    as Hmem.
  { intros g vs. unfold get_vars.
    intros (ns & Hns%mapM_Forall2 & [= <-])%result_bind_Ok n.
    rewrite list_elem_of_filter. apply and_iff_compat_l. split.
    - intros Hn. apply list_elem_of_lookup in Hn as [i Hi].
      destruct (Forall2_lookup_r _ _ _ _ _ Hns Hi) as ([u d] & Hud & Hd).
      exists u. apply elem_of_map_to_list. simpl in Hd.
      destruct d as [n'|]; [|done]. injection Hd as ->.
      by eapply list_elem_of_lookup_2.
    - intros [u Hu]. apply elem_of_map_to_list in Hu.
      apply list_elem_of_lookup in Hu as [i Hi].
      destruct (Forall2_lookup_l _ _ _ _ _ Hns Hi) as (n' & Hn' & Hd).
      simpl in Hd. injection Hd as <-. by eapply list_elem_of_lookup_2. }
  assert (∀ g, (∃ u, node_attr g !! u = Some None) →
               get_vars g = Raise KeyError) as Hbare.
  { intros g [u Hu]. unfold get_vars. rewrite mapM_ast_node_raise; [done|].
    exists u. by apply elem_of_map_to_list. }
  split_and!.
  - apply Hmem.
  - apply Hbare.
  - intros t u vs Hvs. apply (Hmem _ _ Hvs). split; [done|].
    exists u. unfold new_Var, Node_init, add_node. simpl.
    apply lookup_insert_eq.
  - intros c operator x u Hx Hne. apply Hbare. exists (id x).
    unfold Unary_init, add_edge. cbn [snd node_attr].
    rewrite node_attr_touch. rewrite decide_True.
    + done.
    + split; [done|]. unfold touch at 1.
      assert (succ (Node_init (Node u c (Some operator) None) tree) !! u
              = Some (default [] (succ tree !! u))) as Hu.
      { unfold Node_init, add_node, touch. simpl.
        destruct (succ tree !! u) eqn:Hs; simpl; [done|].
        apply lookup_insert_eq. }
      rewrite Hu. unfold Node_init, add_node, touch. simpl.
      destruct (succ tree !! u) eqn:Hs; simpl; [done|].
      by rewrite lookup_insert_ne.
Qed.
End tree.
